(** * p2p-file-share: the peer protocol engine and its file manager

    A shallow embedding of [src/manager.js] (class [Manager]) and
    [src/node.js] (class [Node]), followed by the properties of the
    natural-language specification that were checked against it.

    Conventions of the embedding.
    - JavaScript numbers that the program uses as sizes, offsets, ports and
      piece indices are natural numbers [N]; the only places where the code
      can leave the naturals are a subtraction in [readPiece] (done in [Z])
      and the quotient of [Math.ceil(fileSize / pieceSize)], which is a
      [JS.number] ([NaN] and [Infinity] included).  The arithmetic is exact,
      as that of the program is for sizes up to 2^53, which a number holds
      without rounding; beyond, the program rounds and [truncate] rejects the
      size, which the embedding does not follow.
    - [null] and [undefined] are [None].
    - A JS [Set] that is only asked for membership and size is a [gset N];
      one that is iterated or serialised keeps its insertion order in a list.
    - The [Map] [knownPeers] is iterated in insertion order: an association
      list with unique keys.
    - Socket objects are shared between the event loop and the peer records:
      the node state carries a store of sockets, and records hold references
      into it.
    - A callback of the event loop is one transition: the points where a
      handler awaits the file manager are not points where another callback
      gets in.  No handler changes [pendingPieces] or [missingPieces] on both
      sides of such a point; but [_handlePiece] sets [isSeed] only after it
      has awaited [computeHash()], so the program can be a seed in states
      that [Node.reachable] does not have.  What is stated of all states of
      a node is what every stretch of a handler between two such points
      keeps.
    - The console is left out, and of the progress timer all but the byte
      count of its line; [JSON.parse] is a parameter of the framing of the
      byte stream into lines. *)

From Stdlib Require Import NArith ZArith Lia String Ascii.
From Stdlib Require Import Init.Byte.
From stdpp Require Import base option list gmap strings.
From Equations Require Import Equations.

Open Scope N_scope.

(** ** The fragments of JavaScript the program relies on *)

Module JS.

  (** The values [Math.ceil(a / b)] takes for naturals [a] and [b]. *)
Inductive number :=
  | Num (n : N)
  | NaN
  | Infinity.

  (** [null] coerces to [0] in arithmetic. *)
Definition to_number (v : option N) : N :=
    match v with Some n => n | None => 0 end.

  (** [Math.ceil(a / b)]: [0/0] is [NaN], [a/0] is [Infinity] for [a > 0].
      The quotient is exact, as the program's is up to [2 ^ 53]. *)
Definition ceil_div (a b : N) : number :=
    if b =? 0 then (if a =? 0 then NaN else Infinity)
    else Num (if a mod b =? 0 then a / b else a / b + 1).

  (** Truthiness of a string: every string but the empty one. *)
Definition truthy (s : string) : bool :=
    negb (String.eqb s "").

  (** [v || null] on an optional string and on an optional number. *)
Definition or_null_string (v : option string) : option string :=
    match v with
    | Some s => if truthy s then Some s else None
    | None => None
    end.

Definition or_null_number (v : option N) : option N :=
    match v with
    | Some n => if n =? 0 then None else Some n
    | None => None
    end.

  (** Truthiness of an optional string ([null] is falsy). *)
Definition truthy_opt (v : option string) : bool :=
    match v with Some s => truthy s | None => false end.

  (** [a > b] on strings: lexicographic on the code units. *)
Definition string_gt (a b : string) : bool :=
    match String.compare a b with Gt => true | _ => false end.

  (** The indices [0, 1, ..., n-1] that [for (let i = 0; i < n; i++)]
      visits. *)
Definition indices (n : N) : list N :=
    map N.of_nat (seq 0 (N.to_nat n)).

  (** The same loop bounded by a [number]: no iteration for [NaN]
      ([i < NaN] is false), no end for [Infinity]. *)
Definition loop_indices (n : number) : option (list N) :=
    match n with
    | Num k => Some (indices k)
    | NaN => Some []
    | Infinity => None
    end.

  (** [Set.prototype.add] and [delete] on an insertion-ordered set. *)
Definition set_has (x : N) (s : list N) : bool :=
    bool_decide (x ∈ s).

Definition set_add (x : N) (s : list N) : list N :=
    if set_has x s then s else s ++ [x].

  (** [new Set(array)]. *)
Definition set_of_array (a : list N) : list N :=
    foldl (fun s x => set_add x s) [] a.

  (** [Buffer.alloc(length)]: a zero-filled buffer; a negative length
      throws. *)
Definition Buffer_alloc (length : Z) : option (list byte) :=
    if (length <? 0)%Z then None else Some (replicate (Z.to_nat length) x00).

End JS.

(** ** manager.js *)

Module Manager.

Inductive Mode := r | w_plus.

  (** [fileHandle] is the content of the file the open handle refers to;
      [None] while the file is not open. *)
Record t := mk {
    pieceSize : N;
    fileHandle : option (list byte);
    fileSize : option N;
    mode : Mode
  }.

  (** The settled state of the promise an [async] method returns. *)
Inductive promise (A : Type) :=
  | Resolved (a : A)
  | Rejected.
Arguments Resolved {A} a.
Arguments Rejected {A}.

Definition constructor (mode : Mode) (pieceSize : N) : t :=
    {| pieceSize := pieceSize; fileHandle := None;
       fileSize := Some 0; mode := mode |}.

  (** [FileHandle.read(buffer, 0, length, position)]: the bytes of the
      file from [position] on are copied over the start of [buffer]. *)
Definition fh_read (file buffer : list byte) (length position : N) : list byte :=
    let got := take (N.to_nat length) (drop (N.to_nat position) file) in
    got ++ drop (List.length got) buffer.

  (** [FileHandle.write(data, 0, data.length, position)] on a writable
      handle: a gap beyond the end of the file reads as zeros. *)
Definition fh_write (file data : list byte) (position : N) : list byte :=
    let p := N.to_nat position in
    take p file ++ replicate (p - List.length file)%nat x00
      ++ data ++ drop (p + List.length data)%nat file.

  (** [FileHandle.truncate(size)]. *)
Definition fh_truncate (file : list byte) (size : N) : list byte :=
    let n := N.to_nat size in
    take n file ++ replicate (n - List.length file)%nat x00.

  (** [openFile], given the content found on disk: mode ['r'] records its
      size, mode ['w+'] creates or truncates the file. *)
Definition openFile (m : t) (disk : list byte) : t :=
    match mode m with
    | r => {| pieceSize := pieceSize m; fileHandle := Some disk;
              fileSize := Some (N.of_nat (List.length disk)); mode := mode m |}
    | w_plus => {| pieceSize := pieceSize m; fileHandle := Some [];
                   fileSize := Some 0; mode := mode m |}
    end.

  (** [setSize]: the size is recorded before the handle is used, so it
      stays recorded when [truncate] rejects (no handle, a [null] size, a
      read-only handle).  A size above [2 ^ 53 - 1], which [truncate]
      rejects as well, is not told apart. *)
Definition setSize (m : t) (size : option N) : t * promise unit :=
    let m1 := {| pieceSize := pieceSize m; fileHandle := fileHandle m;
                 fileSize := size; mode := mode m |} in
    match fileHandle m, size, mode m with
    | Some file, Some n, w_plus =>
        ({| pieceSize := pieceSize m; fileHandle := Some (fh_truncate file n);
            fileSize := size; mode := mode m |}, Resolved tt)
    | _, _, _ => (m1, Rejected)
    end.

Definition readPiece (m : t) (index : N) : promise (list byte) :=
    let offset := index * pieceSize m in
    let length := Z.of_N (pieceSize m) in
    let length :=
      if (Z.of_N offset + length >? Z.of_N (JS.to_number (fileSize m)))%Z
      then (Z.of_N (JS.to_number (fileSize m)) - Z.of_N offset)%Z
      else length in
    match JS.Buffer_alloc length with
    | None => Rejected
    | Some buffer =>
        match fileHandle m with
        | None => Rejected
        | Some file => Resolved (fh_read file buffer (Z.to_N length) offset)
        end
    end.

  (** [writePiece]: writing an empty buffer returns before the handle is
      used for output; a handle opened with ['r'] refuses any other write. *)
Definition writePiece (m : t) (index : N) (dataBuffer : list byte)
    : t * promise unit :=
    let offset := index * pieceSize m in
    match fileHandle m with
    | None => (m, Rejected)
    | Some file =>
        if bool_decide (dataBuffer = []) then (m, Resolved tt)
        else match mode m with
             | r => (m, Rejected)
             | w_plus =>
                 ({| pieceSize := pieceSize m;
                     fileHandle := Some (fh_write file dataBuffer offset);
                     fileSize := fileSize m; mode := mode m |}, Resolved tt)
             end
    end.

Definition close (m : t) : t :=
    {| pieceSize := pieceSize m; fileHandle := None;
       fileSize := fileSize m; mode := mode m |}.

End Manager.

(** ** The [Map] of known peers

    Keys are peer ids; [set] on a key that is present keeps its place,
    on a new key appends. *)

Module JSMap.

Section Ops.
Context {V : Type}.

Fixpoint get (k : string) (m : list (string * V)) : option V :=
      match m with
      | [] => None
      | (k', v) :: m' => if bool_decide (k' = k) then Some v else get k m'
      end.

Definition has (k : string) (m : list (string * V)) : bool :=
      match get k m with Some _ => true | None => false end.

Fixpoint set (k : string) (v : V) (m : list (string * V)) : list (string * V) :=
      match m with
      | [] => [(k, v)]
      | (k', v') :: m' =>
          if bool_decide (k' = k) then (k', v) :: m' else (k', v') :: set k v m'
      end.

Fixpoint delete (k : string) (m : list (string * V)) : list (string * V) :=
      match m with
      | [] => []
      | (k', v) :: m' =>
          if bool_decide (k' = k) then delete k m' else (k', v) :: delete k m'
      end.

    (** Assignment to a field of the record object stored under [k]. *)
Fixpoint alter (f : V -> V) (k : string) (m : list (string * V))
      : list (string * V) :=
      match m with
      | [] => []
      | (k', v) :: m' =>
          if bool_decide (k' = k) then (k', f v) :: m' else (k', v) :: alter f k m'
      end.

Definition keys (m : list (string * V)) : list string := map fst m.
End Ops.

End JSMap.

(** ** Sockets, peer records and wire messages *)

Definition SocketRef := nat.

Module Socket.
Record t := mk {
    peerId : option string;
    isOutgoing : bool;
    remoteAddress : string
  }.

Definition set_peerId (v : option string) (k : t) : t :=
    {| peerId := v; isOutgoing := isOutgoing k; remoteAddress := remoteAddress k |}.
End Socket.

Module Peer.
  (** [handshakeSent] and [handshakeReceived] are absent from a fresh
      record and only ever tested for truth: [false] stands for absent. *)
Record t := mk {
    id : string;
    host : string;
    port : N;
    socket : option SocketRef;
    availablePieces : list N;
    busy : bool;
    handshakeSent : bool;
    handshakeReceived : bool
  }.

Definition fresh (id host : string) (port : N) (socket : option SocketRef) : t :=
    {| id := id; host := host; port := port; socket := socket;
       availablePieces := []; busy := false;
       handshakeSent := false; handshakeReceived := false |}.

Definition set_socket (v : option SocketRef) (p : t) : t :=
    {| id := id p; host := host p; port := port p; socket := v;
       availablePieces := availablePieces p; busy := busy p;
       handshakeSent := handshakeSent p; handshakeReceived := handshakeReceived p |}.

Definition set_availablePieces (v : list N) (p : t) : t :=
    {| id := id p; host := host p; port := port p; socket := socket p;
       availablePieces := v; busy := busy p;
       handshakeSent := handshakeSent p; handshakeReceived := handshakeReceived p |}.

Definition set_busy (v : bool) (p : t) : t :=
    {| id := id p; host := host p; port := port p; socket := socket p;
       availablePieces := availablePieces p; busy := v;
       handshakeSent := handshakeSent p; handshakeReceived := handshakeReceived p |}.

Definition set_handshakeSent (v : bool) (p : t) : t :=
    {| id := id p; host := host p; port := port p; socket := socket p;
       availablePieces := availablePieces p; busy := busy p;
       handshakeSent := v; handshakeReceived := handshakeReceived p |}.

Definition set_handshakeReceived (v : bool) (p : t) : t :=
    {| id := id p; host := host p; port := port p; socket := socket p;
       availablePieces := availablePieces p; busy := busy p;
       handshakeSent := handshakeSent p; handshakeReceived := v |}.
End Peer.

Module Wire.
Record handshake := mkHandshake {
    id : string;
    fileName : option string;
    fileSize : option N;
    fileHash : option string;
    pieceSize : option N;
    port : N
  }.

Record peer := mkPeer {
    peer_id : string;
    peer_host : string;
    peer_port : N
  }.

  (** [data] of a [piece] message is the base64 text. *)
Inductive message :=
  | Handshake (h : handshake)
  | Bitfield (pieces : list N)
  | Request (index : N)
  | Piece (index : N) (data : string)
  | Have (index : N)
  | Peers (peers : list peer).
End Wire.

(** ** node.js *)

Module Node.

(** What a handler does to the outside world, in program order. *)
Inductive action :=
| Write (socket : SocketRef) (m : Wire.message)
| End (socket : SocketRef)
| Connect (host : string) (port : N).

Record t := mk {
  port : N;
  fileName : option string;
  fileSize : option N;
  fileHash : option string;
  pieceSize : option N;
  numPieces : option JS.number;
  id : string;
  knownPeers : list (string * Peer.t);
  fileManager : Manager.t;
  havePieces : list N;
  missingPieces : gset N;
  pendingPieces : gset N;
  progressInterval : bool;
  startTime : option N;
  isSeed : bool;
  bytesDownloaded : option N;
  sockets : SocketRef -> Socket.t
}.

Definition set_knownPeers (v : list (string * Peer.t)) (s : t) : t :=
  {| port := port s; fileName := fileName s; fileSize := fileSize s;
     fileHash := fileHash s; pieceSize := pieceSize s; numPieces := numPieces s;
     id := id s; knownPeers := v; fileManager := fileManager s;
     havePieces := havePieces s; missingPieces := missingPieces s;
     pendingPieces := pendingPieces s; progressInterval := progressInterval s;
     startTime := startTime s; isSeed := isSeed s;
     bytesDownloaded := bytesDownloaded s; sockets := sockets s |}.

Definition set_sockets (v : SocketRef -> Socket.t) (s : t) : t :=
  {| port := port s; fileName := fileName s; fileSize := fileSize s;
     fileHash := fileHash s; pieceSize := pieceSize s; numPieces := numPieces s;
     id := id s; knownPeers := knownPeers s; fileManager := fileManager s;
     havePieces := havePieces s; missingPieces := missingPieces s;
     pendingPieces := pendingPieces s; progressInterval := progressInterval s;
     startTime := startTime s; isSeed := isSeed s;
     bytesDownloaded := bytesDownloaded s; sockets := v |}.

Definition set_fileManager (v : Manager.t) (s : t) : t :=
  {| port := port s; fileName := fileName s; fileSize := fileSize s;
     fileHash := fileHash s; pieceSize := pieceSize s; numPieces := numPieces s;
     id := id s; knownPeers := knownPeers s; fileManager := v;
     havePieces := havePieces s; missingPieces := missingPieces s;
     pendingPieces := pendingPieces s; progressInterval := progressInterval s;
     startTime := startTime s; isSeed := isSeed s;
     bytesDownloaded := bytesDownloaded s; sockets := sockets s |}.

(** The three sets of piece indices. *)
Definition set_pieces (have : list N) (missing pending : gset N) (s : t) : t :=
  {| port := port s; fileName := fileName s; fileSize := fileSize s;
     fileHash := fileHash s; pieceSize := pieceSize s; numPieces := numPieces s;
     id := id s; knownPeers := knownPeers s; fileManager := fileManager s;
     havePieces := have; missingPieces := missing;
     pendingPieces := pending; progressInterval := progressInterval s;
     startTime := startTime s; isSeed := isSeed s;
     bytesDownloaded := bytesDownloaded s; sockets := sockets s |}.

(** The file metadata. *)
Definition set_metadata (name : option string) (size : option N)
    (hash : option string) (psize : option N) (n : option JS.number) (s : t) : t :=
  {| port := port s; fileName := name; fileSize := size;
     fileHash := hash; pieceSize := psize; numPieces := n;
     id := id s; knownPeers := knownPeers s; fileManager := fileManager s;
     havePieces := havePieces s; missingPieces := missingPieces s;
     pendingPieces := pendingPieces s; progressInterval := progressInterval s;
     startTime := startTime s; isSeed := isSeed s;
     bytesDownloaded := bytesDownloaded s; sockets := sockets s |}.

(** The download bookkeeping. *)
Definition set_progress (interval : bool) (start : option N) (seed : bool)
    (bytes : option N) (s : t) : t :=
  {| port := port s; fileName := fileName s; fileSize := fileSize s;
     fileHash := fileHash s; pieceSize := pieceSize s; numPieces := numPieces s;
     id := id s; knownPeers := knownPeers s; fileManager := fileManager s;
     havePieces := havePieces s; missingPieces := missingPieces s;
     pendingPieces := pendingPieces s; progressInterval := interval;
     startTime := start; isSeed := seed;
     bytesDownloaded := bytes; sockets := sockets s |}.

(** The fields that sending a request leaves alone: all but
    [pendingPieces] and the peer records. *)
Definition outside_requests (s : t) :=
  (port s, fileName s, fileSize s, fileHash s, pieceSize s, numPieces s, id s,
   fileManager s, havePieces s, missingPieces s, progressInterval s,
   startTime s, isSeed s, bytesDownloaded s, sockets s).

(** [socket.peerId = v]. *)
Definition assign_peerId (socket : SocketRef) (v : option string) (s : t) : t :=
  set_sockets
    (fun k => if bool_decide (k = socket)
              then Socket.set_peerId v (sockets s k) else sockets s k) s.

(** [socket.peerId && this.knownPeers.has(socket.peerId)], with the id. *)
Definition known_peer_of (s : t) (socket : SocketRef) : option string :=
  match Socket.peerId (sockets s socket) with
  | Some pid =>
      if JS.truthy pid && JSMap.has pid (knownPeers s) then Some pid else None
  | None => None
  end.

(** Assignment to a field of the record of a known peer. *)
Definition update_peer (pid : string) (f : Peer.t -> Peer.t) (s : t) : t :=
  set_knownPeers (JSMap.alter f pid (knownPeers s)) s.

(** The shape of [crypto.randomBytes(8).toString('hex')]: sixteen
    characters out of [0-9a-f]. *)
Definition is_hex (c : ascii) : bool :=
  let n := N_of_ascii c in
  ((48 <=? n) && (n <=? 57)) || ((97 <=? n) && (n <=? 102)).

Definition is_peer_id (s : string) : bool :=
  (String.length s =? 16)%nat && forallb is_hex (list_ascii_of_string s).

(** The default piece size, 64 KiB. *)
Definition default_pieceSize : N := 65536.

Section Platform.

(** Library functions the node calls and the embedding leaves open:
    base64 in both directions and the SHA-1 digest in hex. *)
Variable base64_decode : string -> list byte.
Variable base64_encode : list byte -> string.
Variable sha1_hex : list byte -> string.

(** *** Startup *)

(** The synchronous part of the constructor. [exists_] is
    [fs.existsSync(filePath)], [basename] the last component of the path,
    [randomId] the hex of the eight random bytes. *)
Definition constructor (port : N) (basename randomId : string) (exists_ : bool) : t :=
  {| port := port; fileName := Some basename; fileSize := None;
     fileHash := None; pieceSize := Some default_pieceSize; numPieces := None;
     id := randomId; knownPeers := [];
     fileManager :=
       Manager.constructor (if exists_ then Manager.r else Manager.w_plus)
                           default_pieceSize;
     havePieces := []; missingPieces := ∅; pendingPieces := ∅;
     progressInterval := false; startTime := None; isSeed := exists_;
     bytesDownloaded := None;
     sockets := fun _ => Socket.mk None false "" |}.

(** The continuation of [openFile()], up to the point where the seed
    awaits its hash. [disk] is the content found at [filePath]. [None]
    stands for a loop that does not end. *)
Definition opened (s : t) (disk : list byte) : option t :=
  let fm := Manager.openFile (fileManager s) disk in
  let s := set_fileManager fm s in
  if isSeed s then
    let fileSize := Manager.fileSize fm in
    let collapse :=
      JS.to_number fileSize <? JS.to_number (pieceSize s) in
    let pieceSize := if collapse then fileSize else pieceSize s in
    let fm :=
      if collapse
      then Manager.mk (JS.to_number fileSize) (Manager.fileHandle fm)
                      (Manager.fileSize fm) (Manager.mode fm)
      else fm in
    let numPieces := JS.ceil_div (JS.to_number fileSize) (JS.to_number pieceSize) in
    match JS.loop_indices numPieces with
    | None => None
    | Some idxs =>
        Some (set_pieces (foldl (fun h i => JS.set_add i h) (havePieces s) idxs)
                (missingPieces s) (pendingPieces s)
                (set_fileManager fm
                   (set_metadata (fileName s) fileSize (fileHash s) pieceSize
                      (Some numPieces) s)))
    end
  else Some s.

(** The continuation of [computeHash()] on a seed. *)
Definition hashed (s : t) : t :=
  match Manager.fileHandle (fileManager s) with
  | Some file =>
      set_metadata (fileName s) (fileSize s) (Some (sha1_hex file))
                   (pieceSize s) (numPieces s) s
  | None => s
  end.

(** The whole of startup on a seed whose file is [disk]. *)
Definition startup_seed (port : N) (basename randomId : string) (disk : list byte)
  : option t :=
  hashed <$> opened (constructor port basename randomId true) disk.

(** *** Sending *)

Definition handshakeMsg (s : t) : Wire.message :=
  Wire.Handshake
    {| Wire.id := id s; Wire.fileName := fileName s; Wire.fileSize := fileSize s;
       Wire.fileHash := fileHash s; Wire.pieceSize := pieceSize s;
       Wire.port := port s |}.

Definition _sendHandshake (s : t) (socket : SocketRef) : t * list action :=
  let out := [Write socket (handshakeMsg s)] in
  match known_peer_of s socket with
  | Some pid => (update_peer pid (Peer.set_handshakeSent true) s, out)
  | None => (s, out)
  end.

Definition _sendBitfield (s : t) (socket : SocketRef) : list action :=
  [Write socket (Wire.Bitfield (havePieces s))].

(** [_sendRequest] is only ever called with a socket that is not [null]. *)
Definition _sendRequest (s : t) (socket : SocketRef) (index : N) : t * list action :=
  let s := set_pieces (havePieces s) (missingPieces s) ({[index]} ∪ pendingPieces s) s in
  let s :=
    match known_peer_of s socket with
    | Some pid => update_peer pid (Peer.set_busy true) s
    | None => s
    end in
  (s, [Write socket (Wire.Request index)]).

(** The first index, in the iteration order of the peer's set, that is
    missing and not pending. *)
Definition pick_piece (s : t) (availablePieces : list N) : option N :=
  List.find (fun pieceIndex =>
               bool_decide (pieceIndex ∈ missingPieces s)
               && negb (bool_decide (pieceIndex ∈ pendingPieces s)))
            availablePieces.

(** The loop over [knownPeers.entries()]: the keys do not change while it
    runs, the records are read when their turn comes. *)
Fixpoint schedule_loop (peerIds : list string) (s : t) (out : list action)
  : t * list action :=
  match peerIds with
  | [] => (s, out)
  | peerId :: rest =>
      match JSMap.get peerId (knownPeers s) with
      | None => schedule_loop rest s out
      | Some peerInfo =>
          match Peer.socket peerInfo with
          | None => schedule_loop rest s out
          | Some socket =>
              if Peer.busy peerInfo then schedule_loop rest s out
              else match pick_piece s (Peer.availablePieces peerInfo) with
                   | Some pieceIndex =>
                       let '(s', o) := _sendRequest s socket pieceIndex in
                       schedule_loop rest s' (out ++ o)
                   | None => schedule_loop rest s out
                   end
          end
      end
  end.

Definition _scheduleRequests (s : t) : t * list action :=
  if negb (JS.truthy_opt (fileHash s)) || bool_decide (missingPieces s = ∅)
  then (s, [])
  else schedule_loop (JSMap.keys (knownPeers s)) s [].

Definition _shouldInitiateConnection (s : t) (otherPeerId : string) : bool :=
  JS.truthy otherPeerId && JS.truthy (id s) && JS.string_gt (id s) otherPeerId.

(** *** Connection set-up and tear-down *)

(** The callback of [net.createServer]. *)
Definition accepted (s : t) (socket : SocketRef) (remoteAddress : string) : t :=
  set_sockets
    (fun k => if bool_decide (k = socket)
              then Socket.mk None false remoteAddress else sockets s k) s.

(** The callback of [net.connect] in [connectToPeer]. *)
Definition connected (s : t) (socket : SocketRef) (remoteAddress : string)
  : t * list action :=
  _sendHandshake
    (set_sockets
       (fun k => if bool_decide (k = socket)
                 then Socket.mk None true remoteAddress else sockets s k) s)
    socket.

(** The ['close'] listener. *)
Definition closed (s : t) (socket : SocketRef) : t * list action :=
  let s :=
    match known_peer_of s socket with
    | Some pid =>
        update_peer pid (fun p => Peer.set_busy false (Peer.set_socket None p)) s
    | None => s
    end in
  _scheduleRequests (set_pieces (havePieces s) (missingPieces s) ∅ s).

(** *** Message handlers *)

(** How a handler ends: it returns, an exception escapes it (the effects up
    to that point stay), or it is caught in a loop without end. *)
Inductive outcome :=
| Returns (s : t) (out : list action)
| Throws (s : t) (out : list action)
| Loops.

(** A field of the record stored under [pid] ([d] if there is none). *)
Definition peer_flag (f : Peer.t -> bool) (d : bool) (pid : string) (s : t) : bool :=
  match JSMap.get pid (knownPeers s) with
  | Some p => f p
  | None => d
  end.

(** The entries of [knownPeers] other than [remoteId] that have a socket. *)
Definition other_connected (remoteId : string) (s : t) : list (string * Peer.t) :=
  List.filter (fun '(pid, pinfo) =>
                 negb (bool_decide (pid = remoteId))
                 && bool_decide (is_Some (Peer.socket pinfo)))
              (knownPeers s).

(** [pinfo.host || pinfo.socket.remoteAddress]. *)
Definition advertised_host (s : t) (pinfo : Peer.t) : string :=
  if JS.truthy (Peer.host pinfo) then Peer.host pinfo
  else match Peer.socket pinfo with
       | Some k => Socket.remoteAddress (sockets s k)
       | None => ""
       end.

(** The peer exchange at the end of an inbound handshake. *)
Definition peer_exchange (s : t) (socket : SocketRef) (remoteId : string)
    (remotePort : N) : list action :=
  let others := other_connected remoteId s in
  let otherPeers :=
    map (fun '(pid, pinfo) =>
           Wire.mkPeer pid (advertised_host s pinfo) (Peer.port pinfo)) others in
  let newPeerInfo :=
    Wire.mkPeer remoteId (Socket.remoteAddress (sockets s socket)) remotePort in
  (if bool_decide (otherPeers = []) then []
   else [Write socket (Wire.Peers otherPeers)])
  ++ omap (fun '(_, pinfo) =>
             (fun k => Write k (Wire.Peers [newPeerInfo])) <$> Peer.socket pinfo)
          others.

(** The part of [_handleHandshake] after the metadata has been settled. *)
Definition handshake_reply (s : t) (socket : SocketRef) (remoteId : string)
    (remotePort : N) : t * list action :=
  let inbound := negb (Socket.isOutgoing (sockets s socket)) in
  let '(s, out1) :=
    if inbound && negb (peer_flag Peer.handshakeSent false remoteId s)
    then _sendHandshake s socket else (s, []) in
  let s := update_peer remoteId (Peer.set_handshakeReceived true) s in
  let out2 := if bool_decide (havePieces s = []) then [] else _sendBitfield s socket in
  let out3 := if inbound then peer_exchange s socket remoteId remotePort else [] in
  (s, out1 ++ out2 ++ out3).

(** [now] is the value of [Date.now()]. *)
Definition _handleHandshake (s : t) (socket : SocketRef) (message : Wire.handshake)
    (now : N) : outcome :=
  let remoteId := Wire.id message in
  let remoteFileName := JS.or_null_string (Wire.fileName message) in
  let remoteFileSize := JS.or_null_number (Wire.fileSize message) in
  let remoteFileHash := JS.or_null_string (Wire.fileHash message) in
  let remotePieceSize := JS.or_null_number (Wire.pieceSize message) in
  let remotePort := Wire.port message in
  if bool_decide (remoteId = id s) then Returns s []
  else
    let s :=
      if JSMap.has remoteId (knownPeers s)
      then update_peer remoteId (Peer.set_socket (Some socket)) s
      else set_knownPeers
             (JSMap.set remoteId
                (Peer.fresh remoteId (Socket.remoteAddress (sockets s socket))
                            remotePort (Some socket))
                (knownPeers s)) s in
    let s := assign_peerId socket (Some remoteId) s in
    if isSeed s then
      if JS.truthy_opt remoteFileHash && JS.truthy_opt (fileHash s)
         && negb (bool_decide (remoteFileHash = fileHash s))
      then Returns (set_knownPeers (JSMap.delete remoteId (knownPeers s)) s)
                   [End socket]
      else let '(s, out) := handshake_reply s socket remoteId remotePort in
           Returns s out
    else
      match remoteFileHash with
      | Some _ =>
          let numPieces :=
            JS.ceil_div (JS.to_number remoteFileSize) (JS.to_number remotePieceSize) in
          let s := set_metadata remoteFileName remoteFileSize remoteFileHash
                     remotePieceSize (Some numPieces) s in
          match JS.loop_indices numPieces with
          | None => Loops
          | Some idxs =>
              let s := set_pieces [] (list_to_set idxs ∪ missingPieces s)
                                  (pendingPieces s) s in
              let '(fm, settled) := Manager.setSize (fileManager s) (fileSize s) in
              let s := set_fileManager fm s in
              match settled with
              | Manager.Rejected => Throws s []
              | Manager.Resolved _ =>
                  let s := set_progress true (Some now) (isSeed s)
                             (bytesDownloaded s) s in
                  let '(s, out) := handshake_reply s socket remoteId remotePort in
                  Returns s out
              end
          end
      | None =>
          Returns (set_knownPeers (JSMap.delete remoteId (knownPeers s)) s)
                  [End socket]
      end.

Definition _handleBitfield (s : t) (socket : SocketRef) (pieces : list N)
  : t * list action :=
  match known_peer_of s socket with
  | None => (s, [])
  | Some pid =>
      _scheduleRequests
        (update_peer pid (Peer.set_availablePieces (JS.set_of_array pieces)) s)
  end.

(** The reply is written when [readPiece] settles; a rejection is logged. *)
Definition _handleRequest (s : t) (socket : SocketRef) (index : N)
  : t * list action :=
  if negb (JS.set_has index (havePieces s)) then (s, [])
  else match Manager.readPiece (fileManager s) index with
       | Manager.Resolved buffer =>
           (s, [Write socket (Wire.Piece index (base64_encode buffer))])
       | Manager.Rejected => (s, [])
       end.

(** The [have] messages that announce piece [index]: one for every record
    with a socket whose key is not the [peerId] of the sending socket. *)
Definition broadcast_have (s : t) (socket : SocketRef) (index : N) : list action :=
  omap (fun '(peerId, peer) =>
          match Peer.socket peer with
          | Some k =>
              if bool_decide (Some peerId = Socket.peerId (sockets s socket))
              then None else Some (Write k (Wire.Have index))
          | None => None
          end)
       (knownPeers s).

(** The bookkeeping of [_handlePiece] between the write and the
    broadcast. *)
Definition record_piece (s : t) (socket : SocketRef) (index : N)
    (dataBuffer : list byte) : t :=
  let s := set_pieces (JS.set_add index (havePieces s))
                      (missingPieces s ∖ {[index]})
                      (pendingPieces s ∖ {[index]}) s in
  let s :=
    match known_peer_of s socket with
    | Some pid => update_peer pid (Peer.set_busy false) s
    | None => s
    end in
  set_progress (progressInterval s) (startTime s) (isSeed s)
    (Some (JS.to_number (bytesDownloaded s) + N.of_nat (List.length dataBuffer))) s.

(** The end of [_handlePiece]: completion when nothing is missing, the
    scheduler otherwise.  The program sets [isSeed] after it has awaited
    [computeHash()]; here completion is one step. *)
Definition after_piece (s : t) : t * list action :=
  if bool_decide (missingPieces s = ∅)
  then (set_progress false (startTime s) true (bytesDownloaded s) s, [])
  else _scheduleRequests s.

Definition _handlePiece (s : t) (socket : SocketRef) (index : N) (dataBase64 : string)
  : t * list action :=
  let dataBuffer := base64_decode dataBase64 in
  match Manager.writePiece (fileManager s) index dataBuffer with
  | (_, Manager.Rejected) => (s, [])
  | (fm, Manager.Resolved _) =>
      let s := record_piece (set_fileManager fm s) socket index dataBuffer in
      let out := broadcast_have s socket index in
      let '(s, out') := after_piece s in
      (s, out ++ out')
  end.

Definition _handleHave (s : t) (socket : SocketRef) (index : N) : t * list action :=
  match known_peer_of s socket with
  | None => (s, [])
  | Some pid =>
      let s := update_peer pid
                 (fun p => Peer.set_availablePieces
                             (JS.set_add index (Peer.availablePieces p)) p) s in
      if bool_decide (index ∈ missingPieces s)
         && negb (bool_decide (index ∈ pendingPieces s))
         && negb (peer_flag Peer.busy true pid s)
      then _scheduleRequests s
      else (s, [])
  end.

(** [connectToPeer] asks for a connection; its callback is [connected]. *)
Fixpoint _handlePeers (s : t) (peersList : list Wire.peer) : t * list action :=
  match peersList with
  | [] => (s, [])
  | peer :: rest =>
      let peerId := Wire.peer_id peer in
      if bool_decide (peerId = id s) then _handlePeers s rest
      else if JSMap.has peerId (knownPeers s) then _handlePeers s rest
      else
        let s := set_knownPeers
                   (JSMap.set peerId
                      (Peer.fresh peerId (Wire.peer_host peer) (Wire.peer_port peer) None)
                      (knownPeers s)) s in
        let out := if _shouldInitiateConnection s peerId
                   then [Connect (Wire.peer_host peer) (Wire.peer_port peer)]
                   else [] in
        let '(s', out') := _handlePeers s rest in
        (s', out ++ out')
  end.

Definition returns (r : t * list action) : outcome :=
  Returns (fst r) (snd r).

Definition _handleMessage (s : t) (socket : SocketRef) (message : Wire.message)
    (now : N) : outcome :=
  match message with
  | Wire.Handshake h => _handleHandshake s socket h now
  | Wire.Bitfield pieces => returns (_handleBitfield s socket pieces)
  | Wire.Request index => returns (_handleRequest s socket index)
  | Wire.Piece index data => returns (_handlePiece s socket index data)
  | Wire.Have index => returns (_handleHave s socket index)
  | Wire.Peers peers => returns (_handlePeers s peers)
  end.

(** *** The event loop *)

Inductive event :=
| Opened (disk : list byte)
| Hashed
| Accepted (socket : SocketRef) (remoteAddress : string)
| Connected (socket : SocketRef) (remoteAddress : string)
| Received (socket : SocketRef) (message : Wire.message) (now : N)
| Closed (socket : SocketRef).

(** The state a callback leaves behind, run to its end before the next
    one starts; [None] when it does not come back. *)
Definition handle (s : t) (e : event) : option t :=
  match e with
  | Opened disk => opened s disk
  | Hashed => Some (if isSeed s then hashed s else s)
  | Accepted socket a => Some (accepted s socket a)
  | Connected socket a => Some (fst (connected s socket a))
  | Received socket message now =>
      match _handleMessage s socket message now with
      | Returns s' _ | Throws s' _ => Some s'
      | Loops => None
      end
  | Closed socket => Some (fst (closed s socket))
  end.

(** The states of a node: those of the constructor and those a callback
    leads to. *)
Inductive reachable : t -> Prop :=
| reach_new port basename randomId exists_ :
    reachable (constructor port basename randomId exists_)
| reach_step s e s' :
    reachable s -> handle s e = Some s' -> reachable s'.

(** A sequence of events, from the first on. *)
Definition run (s : t) (events : list event) : option t :=
  foldl (fun st e => st ≫= fun s => handle s e) (Some s) events.

End Platform.

End Node.

(** ** node.js: the frame decoder of a socket

    The ['data'] listener of [_setupSocketHandlers] appends what arrived to
    [socket.buffer] and takes the complete lines off its front.  The
    stream is a list of characters. *)

Module Framing.

Definition newline : ascii := "010"%char.

(** [s.indexOf(c)]; [-1] is [None]. *)
Fixpoint indexOf (c : ascii) (s : list ascii) : option nat :=
  match s with
  | [] => None
  | a :: s' => if bool_decide (a = c) then Some 0%nat else S <$> indexOf c s'
  end.

Definition inspect {A} (a : A) : {b | a = b} := exist _ a eq_refl.

(** The [while] loop when it runs to its end, that is when no call of
    [_handleMessage] throws: the raw messages it goes on to parse, in
    order, and what it leaves in the buffer.  An empty line is skipped. *)
Equations? drain (buffer : list ascii) : list (list ascii) * list ascii
  by wf (List.length buffer) lt :=
  drain buffer with inspect (indexOf newline buffer) := {
    | exist _ (Some newlineIndex) H =>
        let rawMessage := take newlineIndex buffer in
        let rest := drain (drop (S newlineIndex) buffer) in
        if bool_decide (rawMessage = []) then rest
        else (rawMessage :: fst rest, snd rest);
    | exist _ None _ => ([], buffer) }.
Proof.
  assert (Hlt : forall s i, indexOf newline s = Some i -> (i < List.length s)%nat).
  { clear. induction s as [|a s IH]; intros i; simpl; [done|].
    case_bool_decide; [intros [= <-]; lia|].
    destruct (indexOf newline s) as [j|]; [|done]. intros [= <-].
    specialize (IH j eq_refl). lia. }
  apply Hlt in H. rewrite length_drop. lia.
Qed.

Section Listener.

(** [JSON.parse] followed by the reading of the fields; [None] when it
    throws, and for a message whose [type] is none of the six. *)
Variable parse : list ascii -> option Wire.message.

(** One ['data'] event whose loop runs to its end: the messages handed to
    [_handleMessage], in order, and the new buffer.  A line that does not
    parse is dropped. *)
Definition on_data (buffer data : list ascii)
  : list Wire.message * list ascii :=
  let r := drain (buffer ++ data) in
  (omap parse (fst r), snd r).

End Listener.

End Framing.

(** ** peer.js: the command line *)

Module Launcher.

Record options := mkOptions {
  port : option Z;
  filePath : option string;
  peerAddress : option string
}.

(** How the script ends: [process.exit(1)], or a node that listens on
    [port], shares [filePath] and dials [dial] when there is one. *)
Inductive result :=
| Exit
| Run (port : Z) (filePath : string) (dial : option (string * Z)).

(** [s.lastIndexOf(c)]; [-1] is [None]. *)
Fixpoint lastIndexOf (c : ascii) (s : string) : option nat :=
  match s with
  | EmptyString => None
  | String a s' =>
      match lastIndexOf c s' with
      | Some i => Some (S i)
      | None => if bool_decide (a = c) then Some 0%nat else None
      end
  end.

(** [s.substring(from)]. *)
Definition substring_from (from : nat) (s : string) : string :=
  String.substring from (String.length s - from) s.

(** The two halves of [host:port], cut at the last colon. *)
Definition split_peer (peerAddress : string) : option (string * string) :=
  match lastIndexOf ":" peerAddress with
  | None => None
  | Some sepIndex =>
      Some (String.substring 0 sepIndex peerAddress,
            substring_from (sepIndex + 1) peerAddress)
  end.

Section Main.

(** [parseInt(s, 10)]; [NaN] is [None]. *)
Variable parseInt : string -> option Z.

(** [!n] on a number that may be [null] or [NaN]. *)
Definition falsy_number (n : option Z) : bool :=
  match n with
  | Some k => bool_decide (k = 0%Z)
  | None => true
  end.

(** The loop over [process.argv.slice(2)]; [None] is
    [printUsageAndExit()]. A flag in last position has no value and ends
    in the [else] branch. *)
Fixpoint scan (args : list string) (o : options) : option options :=
  match args with
  | [] => Some o
  | arg :: rest =>
      match rest with
      | value :: rest' =>
          if bool_decide (arg = "--port")
          then scan rest' (mkOptions (parseInt value) (filePath o) (peerAddress o))
          else if bool_decide (arg = "--file")
          then scan rest' (mkOptions (port o) (Some value) (peerAddress o))
          else if bool_decide (arg = "--peer")
          then scan rest' (mkOptions (port o) (filePath o) (Some value))
          else None
      | [] => None
      end
  end.

Definition main (args : list string) : result :=
  match scan args (mkOptions None None None) with
  | None => Exit
  | Some o =>
      if falsy_number (port o) || negb (JS.truthy_opt (filePath o)) then Exit
      else
        match port o, filePath o with
        | Some port, Some filePath =>
            if JS.truthy_opt (peerAddress o) then
              match peerAddress o ≫= split_peer with
              | None => Exit
              | Some (peerHost, portText) =>
                  let peerPort := parseInt portText in
                  if falsy_number peerPort then Exit
                  else match peerPort with
                       | Some p =>
                           Run port filePath
                               (if JS.truthy peerHost then Some (peerHost, p)
                                else None)
                       | None => Exit
                       end
              end
            else Run port filePath None
        | _, _ => Exit
        end
  end.

End Main.

End Launcher.

(** ** node.js: the progress line and the requests of a pass *)

Module Report.

(** [bytesDone] of the timer of [_startProgressInterval]; nothing is
    printed while [fileSize] is falsy. *)
Definition bytesDone (s : Node.t) : option Z :=
  if JS.to_number (Node.fileSize s) =? 0 then None
  else Some (Z.of_N (JS.to_number (Node.fileSize s))
             - Z.of_nat (size (Node.missingPieces s))
               * Z.of_N (JS.to_number (Node.pieceSize s)))%Z.

(** The indices of the [request] messages in what a handler wrote. *)
Definition requests_of (out : list Node.action) : list N :=
  omap (fun a => match a with
                 | Node.Write _ (Wire.Request index) => Some index
                 | _ => None
                 end) out.

(** What holds of the piece sets and the peer map in every state of a
    node. *)
Record consistent (s : Node.t) : Prop := {
  seed_complete : Node.isSeed s = true -> Node.missingPieces s = ∅;
  have_not_missing : forall i, i ∈ Node.havePieces s -> i ∉ Node.missingPieces s;
  self_unknown : JSMap.has (Node.id s) (Node.knownPeers s) = false;
  read_only_seed :
    Manager.mode (Node.fileManager s) = Manager.r -> Node.isSeed s = true
}.

End Report.

(** * Sample inputs *)

Module Sample.

(** A four-byte file cut in pieces of two bytes. *)
Definition four_bytes : Manager.t :=
  Manager.mk 2 (Some [x61; x62; x63; x64]) (Some 4) Manager.r.

(** A five-byte file cut in pieces of two bytes. *)
Definition five_bytes : Manager.t :=
  Manager.mk 2 (Some [x61; x62; x63; x64; x65]) (Some 5) Manager.r.

(** A leecher that has opened its destination file. *)
Definition leecher : Node.t :=
  default (Node.constructor 6882 "out.bin" "00000000000000aa" false)
          (Node.opened (Node.constructor 6882 "out.bin" "00000000000000aa" false) []).

(** The handshake of a seed of a file of two pieces. *)
Definition seed_handshake (id : string) : Wire.handshake :=
  Wire.mkHandshake id (Some "in.bin") (Some 65537) (Some "da39a3ee") (Some 65536) 6881.

(** A seed of a three-byte file, with a stand-in for the digest. *)
Definition seed : Node.t :=
  default (Node.constructor 6881 "in.bin" "ffffffffffffffff" true)
          (Node.startup_seed (fun _ => "da39a3ee") 6881 "in.bin" "ffffffffffffffff"
                             [x61; x62; x63]).

(** A handshake for another file. *)
Definition other_file_handshake : Wire.handshake :=
  Wire.mkHandshake "00000000000000bb" (Some "b.bin") (Some 7) (Some "0beec7b5")
                   (Some 7) 6883.

(** A handshake that carries the id of [leecher]. *)
Definition own_handshake : Wire.handshake :=
  seed_handshake "00000000000000aa".

(** Two connections. *)
Definition socket1 : SocketRef := 1%nat.
Definition socket2 : SocketRef := 2%nat.

(** The handshake of a peer that shares a three-byte file in pieces of
    two bytes. *)
Definition small_handshake : Wire.handshake :=
  Wire.mkHandshake "ffffffffffffffff" (Some "in.bin") (Some 3) (Some "da39a3ee")
                   (Some 2) 6881.

(** A leecher that has accepted a connection, adopted the metadata of
    [small_handshake] and, on the bitfield of its peer, requested piece 0.
    The platform functions are stand-ins. *)
Definition requesting_events : list Node.event :=
  [Node.Opened []; Node.Accepted socket1 "10.0.0.1";
   Node.Received socket1 (Wire.Handshake small_handshake) 0;
   Node.Received socket1 (Wire.Bitfield [0; 1]) 0].

Definition requesting : Node.t :=
  default leecher
    (Node.run (fun _ => []) (fun _ => "") (fun _ => "")
       (Node.constructor 6882 "out.bin" "00000000000000aa" false)
       requesting_events).

(** A leecher in the middle of a download: it accepted the connection of
    a seed and adopted the metadata of [seed_handshake]; then it received
    piece 0. *)
Definition adopted : Node.t :=
  match Node._handleHandshake (Node.accepted leecher socket1 "10.0.0.1") socket1
          (seed_handshake "ffffffffffffffff") 0 with
  | Node.Returns s _ => s
  | _ => leecher
  end.

Definition downloading (base64_decode : string -> list byte) (data : string)
  : Node.t :=
  fst (Node._handlePiece base64_decode adopted socket1 0 data).

(** The same leecher once a second peer has connected. *)
Definition second_peer (base64_decode : string -> list byte) (data : string)
  : Node.t :=
  Node.accepted (downloading base64_decode data) socket2 "10.0.0.2".

(** Two nodes that learn of each other through peer exchange. *)
Definition node_ff : Node.t :=
  Node.constructor 6881 "a.bin" "ffffffffffffffff" true.

Definition node_00 : Node.t :=
  Node.constructor 6882 "a.bin" "0000000000000000" false.

(** A leecher of a file of one piece of two bytes that has requested the
    piece from its peer. *)
Definition one_piece_handshake : Wire.handshake :=
  Wire.mkHandshake "ffffffffffffffff" (Some "in.bin") (Some 2) (Some "da39a3ee")
                   (Some 2) 6881.

Definition last_request : Node.t :=
  default leecher
    (Node.run (fun _ => []) (fun _ => "") (fun _ => "")
       (Node.constructor 6882 "out.bin" "00000000000000aa" false)
       [Node.Opened []; Node.Accepted socket1 "10.0.0.1";
        Node.Received socket1 (Wire.Handshake one_piece_handshake) 0;
        Node.Received socket1 (Wire.Bitfield [0]) 0]).

End Sample.

(** * Properties *)

(** ** The file manager *)

Section ManagerFacts.

Import Manager.

Lemma ceil_div_Num (a b n : N) :
  JS.ceil_div a b = JS.Num n ->
  b <> 0 /\ n = (if a mod b =? 0 then a / b else a / b + 1).
Proof.
  unfold JS.ceil_div. destruct (N.eqb_spec b 0) as [->|Hb].
  - destruct (a =? 0); discriminate.
  - intros [= <-]. auto.
Qed.

(** An index below the number of pieces starts inside the file. *)
Lemma in_range_offset (a b n index : N) :
  JS.ceil_div a b = JS.Num n -> index < n -> index * b < a.
Proof.
  intros [Hb ->]%ceil_div_Num Hi.
  pose proof (N.div_mod a b Hb) as Hdm.
  pose proof (N.mod_lt a b Hb) as Hlt.
  set (q := a / b) in *. set (rem := a mod b) in *.
  destruct (N.eqb_spec rem 0) as [H0|H0].
  - assert (index * b + b <= q * b) by nia. lia.
  - assert (index * b <= q * b) by nia. lia.
Qed.

Lemma readPiece_within (m : t) (file : list byte) (index : N) :
  fileHandle m = Some file ->
  fileSize m = Some (N.of_nat (List.length file)) ->
  index * pieceSize m <= N.of_nat (List.length file) ->
  readPiece m index =
    Resolved
      (take (N.to_nat (N.min (pieceSize m)
                             (N.of_nat (List.length file) - index * pieceSize m)))
            (drop (N.to_nat (index * pieceSize m)) file)).
Proof.
  intros Hh Hs Hoff. unfold readPiece. rewrite Hh, Hs. simpl.
  set (off := index * pieceSize m) in *.
  set (fsz := N.of_nat (List.length file)) in *.
  assert (Hlen : List.length (drop (N.to_nat off) file)
                 = N.to_nat (fsz - off)).
  { rewrite length_drop. subst fsz. lia. }
  destruct (Z.gtb_spec (Z.of_N off + Z.of_N (pieceSize m)) (Z.of_N fsz)) as [Hgt|Hle].
  - unfold JS.Buffer_alloc.
    destruct (Z.ltb_spec (Z.of_N fsz - Z.of_N off) 0) as [Hneg|_]; [lia|].
    unfold fh_read.
    replace (Z.to_N (Z.of_N fsz - Z.of_N off)) with (fsz - off) by lia.
    replace (N.min (pieceSize m) (fsz - off)) with (fsz - off) by lia.
    set (got := take _ (drop _ file)).
    rewrite (drop_ge (replicate _ _)); [by rewrite app_nil_r|].
    subst got. rewrite length_replicate, length_take, Hlen. lia.
  - unfold JS.Buffer_alloc.
    destruct (Z.ltb_spec (Z.of_N (pieceSize m)) 0) as [Hneg|_]; [lia|].
    unfold fh_read. rewrite N2Z.id.
    replace (N.min (pieceSize m) (fsz - off)) with (pieceSize m) by lia.
    set (got := take _ (drop _ file)).
    rewrite (drop_ge (replicate _ _)); [by rewrite app_nil_r|].
    subst got. rewrite length_replicate, length_take, Hlen. lia.
Qed.

Lemma readPiece_beyond (m : t) (index : N) :
  JS.to_number (fileSize m) < index * pieceSize m ->
  readPiece m index = Rejected.
Proof.
  intros Hoff. unfold readPiece.
  destruct (Z.gtb_spec (Z.of_N (index * pieceSize m) + Z.of_N (pieceSize m))
                       (Z.of_N (JS.to_number (fileSize m)))) as [_|Hle]; [|lia].
  unfold JS.Buffer_alloc.
  destruct (Z.ltb_spec (Z.of_N (JS.to_number (fileSize m))
                        - Z.of_N (index * pieceSize m)) 0); [done|lia].
Qed.

Lemma readPiece_not_open (m : t) (index : N) :
  fileHandle m = None -> readPiece m index = Rejected.
Proof.
  intros Hh. unfold readPiece. rewrite Hh.
  by destruct (JS.Buffer_alloc _).
Qed.

End ManagerFacts.

(** C4, as the code has it.  On an open file of [fileSize] bytes, for a
    piece index below [numPieces = ceil(fileSize / pieceSize)], [readPiece]
    resolves with the [min(pieceSize, fileSize - index * pieceSize)] bytes
    that start at offset [index * pieceSize]; when [fileSize] is not a
    multiple of [pieceSize] the last piece has exactly
    [fileSize - (numPieces - 1) * pieceSize] bytes.  [readPiece] rejects when
    the file is not open and when [index * pieceSize] lies beyond the end of
    the file; at [index * pieceSize = fileSize] it resolves with an empty
    buffer. *)
Theorem readPiece_spec (m : Manager.t) (index : N) :
  (Manager.fileHandle m = None ->
   Manager.readPiece m index = Manager.Rejected)
  /\ (forall file : list byte,
        Manager.fileHandle m = Some file ->
        Manager.fileSize m = Some (N.of_nat (List.length file)) ->
        let fileSize := N.of_nat (List.length file) in
        let pieceSize := Manager.pieceSize m in
        (forall numPieces,
           JS.ceil_div fileSize pieceSize = JS.Num numPieces ->
           index < numPieces ->
           exists buffer,
             Manager.readPiece m index = Manager.Resolved buffer
             /\ buffer = take (List.length buffer)
                              (drop (N.to_nat (index * pieceSize)) file)
             /\ N.of_nat (List.length buffer)
                = N.min pieceSize (fileSize - index * pieceSize))
        /\ (forall numPieces,
              JS.ceil_div fileSize pieceSize = JS.Num numPieces ->
              fileSize mod pieceSize <> 0 ->
              exists buffer,
                Manager.readPiece m (numPieces - 1) = Manager.Resolved buffer
                /\ N.of_nat (List.length buffer)
                   = fileSize - (numPieces - 1) * pieceSize)
        /\ (fileSize < index * pieceSize ->
            Manager.readPiece m index = Manager.Rejected)
        /\ (index * pieceSize = fileSize ->
            Manager.readPiece m index = Manager.Resolved [])).
Proof.
  split; [apply readPiece_not_open|].
  intros file Hh Hs fileSize pieceSize.
  assert (Hlen : forall i, i * pieceSize <= fileSize ->
            N.of_nat (List.length
              (take (N.to_nat (N.min pieceSize (fileSize - i * pieceSize)))
                    (drop (N.to_nat (i * pieceSize)) file)))
            = N.min pieceSize (fileSize - i * pieceSize)).
  { intros i Hi. rewrite length_take, length_drop. subst fileSize. lia. }
  assert (Hin : forall i numPieces,
            JS.ceil_div fileSize pieceSize = JS.Num numPieces -> i < numPieces ->
            exists buffer,
              Manager.readPiece m i = Manager.Resolved buffer
              /\ buffer = take (List.length buffer)
                               (drop (N.to_nat (i * pieceSize)) file)
              /\ N.of_nat (List.length buffer)
                 = N.min pieceSize (fileSize - i * pieceSize)).
  { intros i n Hn Hi.
    pose proof (in_range_offset _ _ _ _ Hn Hi) as Hoff.
    eexists. split; [apply (readPiece_within m file i Hh Hs); fold pieceSize fileSize; lia|].
    fold pieceSize fileSize. split; [|apply Hlen; lia].
    rewrite length_take, length_drop.
    f_equal. subst fileSize. lia. }
  split; [intros n; apply Hin|]. split; [|split].
  - intros n Hn Hmod.
    destruct (ceil_div_Num _ _ _ Hn) as [Hb Hnq].
    rewrite (proj2 (N.eqb_neq _ _) Hmod) in Hnq.
    pose proof (N.div_mod fileSize pieceSize Hb) as Hdm.
    pose proof (N.mod_lt fileSize pieceSize Hb) as Hlt.
    set (q := fileSize / pieceSize) in *. set (rem := fileSize mod pieceSize) in *.
    clearbody q rem.
    assert (Hpos : n - 1 < n) by lia.
    destruct (Hin (n - 1) n Hn Hpos) as (buffer & Hr & _ & Hl).
    exists buffer. split; [done|]. rewrite Hl.
    replace (n - 1) with q by lia. nia.
  - intros Hoff. apply readPiece_beyond. by rewrite Hs.
  - intros Hoff.
    rewrite (readPiece_within m file index Hh Hs); fold pieceSize fileSize; [|lia].
    rewrite Hoff, N.sub_diag, N.min_0_r. done.
Qed.

Lemma readPiece_spec_witness :
  (exists buffer,
     Manager.readPiece Sample.five_bytes 2 = Manager.Resolved buffer
     /\ N.of_nat (List.length buffer) = 1)
  /\ Manager.readPiece Sample.five_bytes 3 = Manager.Rejected.
Proof.
  pose proof (readPiece_spec Sample.five_bytes 2) as [_ H2].
  pose proof (readPiece_spec Sample.five_bytes 3) as [_ H3].
  specialize (H2 _ eq_refl eq_refl). specialize (H3 _ eq_refl eq_refl).
  destruct H2 as [Hin _]. destruct H3 as (_ & _ & Hout & _).
  split.
  - destruct (Hin 3 eq_refl eq_refl) as (buffer & Hr & _ & Hl).
    exists buffer. split; [exact Hr | exact Hl].
  - apply Hout. reflexivity.
Defined.

(** C4 as stated fails: index 2 of a four-byte file in pieces of two bytes
    is out of range, and [readPiece] resolves with an empty buffer. *)
Lemma readPiece_out_of_range_resolves :
  JS.ceil_div 4 2 = JS.Num 2
  /\ Manager.readPiece Sample.four_bytes 2 = Manager.Resolved [].
Proof. split; reflexivity. Qed.

(** ** The initiate rule *)

Lemma string_gt_asym (a b : string) :
  a <> b -> JS.string_gt a b = negb (JS.string_gt b a).
Proof.
  intros Hab. unfold JS.string_gt. rewrite String.compare_antisym.
  destruct (String.compare b a) eqn:Hc; try reflexivity.
  apply String.compare_eq_iff in Hc. congruence.
Qed.

Lemma is_peer_id_truthy (s : string) :
  Node.is_peer_id s = true -> JS.truthy s = true.
Proof. destruct s; [discriminate|reflexivity]. Qed.

(** C5.  Of two nodes whose ids are distinct peer ids (sixteen hex
    characters, hence not empty), exactly one decides to dial the other. *)
Theorem shouldInitiate_exactly_one (a b : Node.t) :
  Node.is_peer_id (Node.id a) = true ->
  Node.is_peer_id (Node.id b) = true ->
  Node.id a <> Node.id b ->
  (Node._shouldInitiateConnection a (Node.id b) = true
   /\ Node._shouldInitiateConnection b (Node.id a) = false)
  \/ (Node._shouldInitiateConnection a (Node.id b) = false
      /\ Node._shouldInitiateConnection b (Node.id a) = true).
Proof.
  intros Ha%is_peer_id_truthy Hb%is_peer_id_truthy Hab.
  unfold Node._shouldInitiateConnection. rewrite Ha, Hb. simpl.
  rewrite (string_gt_asym (Node.id a) (Node.id b) Hab).
  destruct (JS.string_gt (Node.id b) (Node.id a)); auto.
Qed.

Lemma shouldInitiate_exactly_one_witness :
  (Node._shouldInitiateConnection Sample.node_ff (Node.id Sample.node_00) = true
   /\ Node._shouldInitiateConnection Sample.node_00 (Node.id Sample.node_ff) = false)
  \/ (Node._shouldInitiateConnection Sample.node_ff (Node.id Sample.node_00) = false
      /\ Node._shouldInitiateConnection Sample.node_00 (Node.id Sample.node_ff) = true).
Proof.
  apply (shouldInitiate_exactly_one Sample.node_ff Sample.node_00).
  - reflexivity.
  - reflexivity.
  - simpl. discriminate.
Defined.

(** ** Startup of a seed *)

Lemma ceil_div_diag (n : N) : 0 < n -> JS.ceil_div n n = JS.Num 1.
Proof.
  intros Hn. unfold JS.ceil_div.
  destruct (N.eqb_spec n 0) as [|Hn0]; [lia|].
  rewrite N.Div0.mod_same, N.div_same by lia. reflexivity.
Qed.

(** A file that is not empty and shorter than the default piece size is
    one piece: the piece size of the node and of its file manager collapse
    to the file size. *)
Lemma startup_seed_small_file (sha1_hex : list byte -> string) (port : N)
    (basename randomId : string) (disk : list byte) :
  let size := N.of_nat (List.length disk) in
  0 < size < Node.default_pieceSize ->
  exists s,
    Node.startup_seed sha1_hex port basename randomId disk = Some s
    /\ Node.fileSize s = Some size
    /\ Node.pieceSize s = Some size
    /\ Manager.pieceSize (Node.fileManager s) = size
    /\ Node.numPieces s = Some (JS.Num 1)
    /\ Node.havePieces s = [0].
Proof.
  intros size [Hpos Hlt].
  unfold Node.startup_seed, Node.opened, Node.constructor. cbn -[N.ltb JS.ceil_div].
  fold size. destruct (N.ltb_spec size Node.default_pieceSize) as [_|]; [|lia].
  cbn -[JS.ceil_div]. rewrite (ceil_div_diag size Hpos). cbn.
  eexists. split; [reflexivity|]. by cbn.
Qed.

(** C8, at the empty file.  The seed sets [pieceSize = fileSize = 0], and
    [Math.ceil(0 / 0)] makes [numPieces] [NaN], not [1]; no index enters
    [havePieces]. *)
Theorem startup_seed_empty_file (sha1_hex : list byte -> string) (port : N)
    (basename randomId : string) :
  exists s,
    Node.startup_seed sha1_hex port basename randomId [] = Some s
    /\ Node.fileSize s = Some 0
    /\ Node.pieceSize s = Some 0
    /\ Node.numPieces s = Some JS.NaN
    /\ Node.havePieces s = [].
Proof. eexists. split; [reflexivity|]. by cbn. Qed.

(** ** Handshakes *)

(** C2, as the code has it.  A handshake that carries the node's own id is
    ignored: the handler returns at once, the state is the one it found, no
    peer record is made or dropped, nothing is written and the connection
    is not ended. *)
Theorem self_handshake_ignored (s : Node.t) (socket : SocketRef)
    (message : Wire.handshake) (now : N) :
  Wire.id message = Node.id s ->
  Node._handleHandshake s socket message now = Node.Returns s [].
Proof.
  intros Hid. unfold Node._handleHandshake.
  by rewrite bool_decide_eq_true_2.
Qed.

Lemma self_handshake_ignored_witness :
  Node._handleHandshake Sample.leecher Sample.socket1 Sample.own_handshake 0
  = Node.Returns Sample.leecher [].
Proof. apply self_handshake_ignored. reflexivity. Defined.

(** C2 as stated fails: the handler does not end the connection on which
    the handshake with the node's own id arrived. *)
Lemma self_handshake_not_closed :
  Wire.id Sample.own_handshake = Node.id Sample.leecher
  /\ exists s out,
       Node._handleHandshake Sample.leecher Sample.socket1 Sample.own_handshake 0
       = Node.Returns s out
       /\ Node.End Sample.socket1 ∉ out.
Proof.
  split; [reflexivity|]. exists Sample.leecher, []. split; [reflexivity|].
  apply not_elem_of_nil.
Qed.

(** Facts on the map of known peers. *)
Section JSMapFacts.
Context {V : Type}.
Implicit Types (m : list (string * V)) (k : string).

Lemma has_delete k m : JSMap.has k (JSMap.delete k m) = false.
Proof.
  unfold JSMap.has. induction m as [|[k' v] m IH]; [done|]. simpl.
  case_bool_decide as Hk; [done|]. simpl. by rewrite bool_decide_eq_false_2.
Qed.

Lemma delete_set k v m : JSMap.delete k (JSMap.set k v m) = JSMap.delete k m.
Proof.
  induction m as [|[k' v'] m IH]; simpl.
  - by rewrite bool_decide_eq_true_2.
  - case_bool_decide as Hk; simpl.
    + by rewrite bool_decide_eq_true_2.
    + rewrite bool_decide_eq_false_2 by done. by rewrite IH.
Qed.

Lemma delete_alter f k m : JSMap.delete k (JSMap.alter f k m) = JSMap.delete k m.
Proof.
  induction m as [|[k' v'] m IH]; simpl; [done|].
  case_bool_decide as Hk; simpl.
  - by rewrite bool_decide_eq_true_2.
  - rewrite bool_decide_eq_false_2 by done. by rewrite IH.
Qed.

Lemma keys_alter f k m : JSMap.keys (JSMap.alter f k m) = JSMap.keys m.
Proof.
  unfold JSMap.keys. induction m as [|[k' v'] m IH]; simpl; [done|].
  case_bool_decide; simpl; [done|]. by rewrite IH.
Qed.

End JSMapFacts.

(** C9.  A [bitfield] or a [have] that arrives on a socket without a peer
    id, or with a peer id that is not a key of [knownPeers], leaves the node
    as it was (peer records and sockets included) and produces no output:
    nothing is written and the connection is not ended. *)
Theorem bitfield_have_before_handshake (s : Node.t) (socket : SocketRef)
    (pieces : list N) (index : N) :
  Socket.peerId (Node.sockets s socket) = None
  \/ (exists pid, Socket.peerId (Node.sockets s socket) = Some pid
                  /\ JSMap.has pid (Node.knownPeers s) = false) ->
  Node._handleBitfield s socket pieces = (s, [])
  /\ Node._handleHave s socket index = (s, []).
Proof.
  intros Hno.
  assert (Hk : Node.known_peer_of s socket = None).
  { unfold Node.known_peer_of. destruct Hno as [->|(pid & -> & ->)]; [done|].
    by rewrite andb_false_r. }
  unfold Node._handleBitfield, Node._handleHave. by rewrite Hk.
Qed.

Lemma bitfield_have_before_handshake_witness :
  Node._handleBitfield Sample.leecher Sample.socket1 [0; 1] = (Sample.leecher, [])
  /\ Node._handleHave Sample.leecher Sample.socket1 0 = (Sample.leecher, []).
Proof.
  apply bitfield_have_before_handshake. left. reflexivity.
Defined.

(** C7.  A seed that knows its hash and receives, from a peer with another
    id than its own, a handshake whose [fileHash] is present and differs
    from that hash ends the connection and deletes the record of the remote
    id: [knownPeers] becomes what it was without that key, and no other
    field of the node changes; of the sockets only the one that carried the
    handshake is touched. *)
Theorem wrong_file_rejected (s : Node.t) (socket : SocketRef)
    (message : Wire.handshake) (now : N) (own remote : string) :
  Node.isSeed s = true ->
  Node.fileHash s = Some own -> own <> "" ->
  Wire.fileHash message = Some remote -> remote <> "" ->
  remote <> own ->
  Wire.id message <> Node.id s ->
  exists s',
    Node._handleHandshake s socket message now = Node.Returns s' [Node.End socket]
    /\ JSMap.has (Wire.id message) (Node.knownPeers s') = false
    /\ Node.knownPeers s' = JSMap.delete (Wire.id message) (Node.knownPeers s)
    /\ (forall k, k <> socket -> Node.sockets s' k = Node.sockets s k)
    /\ Node.port s' = Node.port s /\ Node.id s' = Node.id s
    /\ Node.fileName s' = Node.fileName s /\ Node.fileSize s' = Node.fileSize s
    /\ Node.fileHash s' = Node.fileHash s /\ Node.pieceSize s' = Node.pieceSize s
    /\ Node.numPieces s' = Node.numPieces s
    /\ Node.fileManager s' = Node.fileManager s
    /\ Node.havePieces s' = Node.havePieces s
    /\ Node.missingPieces s' = Node.missingPieces s
    /\ Node.pendingPieces s' = Node.pendingPieces s
    /\ Node.progressInterval s' = Node.progressInterval s
    /\ Node.startTime s' = Node.startTime s
    /\ Node.isSeed s' = Node.isSeed s
    /\ Node.bytesDownloaded s' = Node.bytesDownloaded s.
Proof.
  intros Hseed Hown Hown_ne Hrem Hrem_ne Hdiff Hid.
  assert (Htr : forall x : string, x <> "" -> JS.truthy x = true).
  { intros x Hx. unfold JS.truthy. by destruct (String.eqb_spec x ""). }
  assert (Hr : JS.or_null_string (Wire.fileHash message) = Some remote).
  { rewrite Hrem. simpl. by rewrite (Htr remote Hrem_ne). }
  unfold Node._handleHandshake. rewrite Hr, bool_decide_eq_false_2 by done.
  destruct (JSMap.has (Wire.id message) (Node.knownPeers s)) eqn:Hhas;
    cbn -[JS.truthy]; rewrite Hseed, Hown; cbn -[JS.truthy];
    rewrite (Htr remote Hrem_ne), (Htr own Hown_ne);
    rewrite bool_decide_eq_false_2 by congruence; cbn.
  - eexists. split; [reflexivity|]. cbn.
    rewrite delete_alter, has_delete.
    repeat split; try done. intros k Hk. by rewrite bool_decide_eq_false_2.
  - eexists. split; [reflexivity|]. cbn.
    rewrite delete_set, has_delete.
    repeat split; try done. intros k Hk. by rewrite bool_decide_eq_false_2.
Qed.

Lemma wrong_file_rejected_witness :
  exists s',
    Node._handleHandshake Sample.seed Sample.socket1 Sample.other_file_handshake 0
    = Node.Returns s' [Node.End Sample.socket1]
    /\ JSMap.has "00000000000000bb" (Node.knownPeers s') = false.
Proof.
  destruct (wrong_file_rejected Sample.seed Sample.socket1
              Sample.other_file_handshake 0 "da39a3ee" "0beec7b5")
    as (s' & Hr & Hhas & _).
  - reflexivity.
  - reflexivity.
  - discriminate.
  - reflexivity.
  - discriminate.
  - discriminate.
  - simpl. discriminate.
  - exists s'. split; [exact Hr | exact Hhas].
Defined.

(** ** The scheduler *)

Section Scheduler.

Import Node.

Lemma outside_requests_fields (s s' : t) :
  outside_requests s' = outside_requests s ->
  fileName s' = fileName s /\ fileSize s' = fileSize s
  /\ fileHash s' = fileHash s /\ pieceSize s' = pieceSize s
  /\ numPieces s' = numPieces s /\ id s' = id s
  /\ fileManager s' = fileManager s /\ havePieces s' = havePieces s
  /\ missingPieces s' = missingPieces s /\ startTime s' = startTime s
  /\ isSeed s' = isSeed s /\ bytesDownloaded s' = bytesDownloaded s.
Proof.
  unfold outside_requests. intros Heq. injection Heq. intros.
  repeat split; assumption.
Qed.

Lemma pick_piece_spec (s : t) (available : list N) (index : N) :
  pick_piece s available = Some index ->
  index ∈ available /\ index ∈ missingPieces s /\ (index ∉ pendingPieces s).
Proof.
  unfold pick_piece. intros [Hin Hf]%find_some.
  apply andb_true_iff in Hf as [Hm Hp].
  apply bool_decide_eq_true in Hm. apply negb_true_iff, bool_decide_eq_false in Hp.
  by rewrite list_elem_of_In.
Qed.

Lemma sendRequest_frame (s : t) (socket : SocketRef) (index : N) :
  outside_requests (fst (_sendRequest s socket index)) = outside_requests s
  /\ pendingPieces (fst (_sendRequest s socket index))
     = {[index]} ∪ pendingPieces s
  /\ JSMap.keys (knownPeers (fst (_sendRequest s socket index)))
     = JSMap.keys (knownPeers s).
Proof.
  unfold _sendRequest, known_peer_of. cbn.
  destruct (Socket.peerId (sockets s socket)) as [pid|]; [|done].
  destruct (JS.truthy pid && JSMap.has pid (knownPeers s)); [|done].
  cbn -[JSMap.keys JSMap.alter]. by rewrite keys_alter.
Qed.

(** One pass of the scheduler changes nothing but the busy flags and
    [pendingPieces], which it extends with missing indices only. *)
Lemma schedule_loop_frame (peerIds : list string) (s : t) (out : list action) :
  outside_requests (fst (schedule_loop peerIds s out)) = outside_requests s
  /\ pendingPieces s ⊆ pendingPieces (fst (schedule_loop peerIds s out))
  /\ pendingPieces (fst (schedule_loop peerIds s out))
     ⊆ pendingPieces s ∪ missingPieces s.
Proof.
  revert s out. induction peerIds as [|peerId rest IH]; intros s out;
    cbn [schedule_loop].
  - simpl. split; [done|]. set_solver.
  - destruct (JSMap.get peerId (knownPeers s)) as [peerInfo|]; [|apply IH].
    destruct (Peer.socket peerInfo) as [socket|]; [|apply IH].
    destruct (Peer.busy peerInfo); [apply IH|].
    destruct (pick_piece s (Peer.availablePieces peerInfo)) as [index|] eqn:Hpick;
      [|apply IH].
    apply pick_piece_spec in Hpick as (_ & Hmiss & _).
    destruct (sendRequest_frame s socket index) as (Hout & Hpend & _).
    destruct (_sendRequest s socket index) as [s1 o] eqn:Hsend.
    cbn [fst] in Hout, Hpend. lazy beta iota.
    destruct (IH s1 (out ++ o)) as (Hout' & Hsub & Hsup).
    assert (Hm1 : missingPieces s1 = missingPieces s).
    { unfold outside_requests in Hout. congruence. }
    rewrite Hout', Hout. split; [done|].
    rewrite Hpend, Hm1 in *. clear -Hsub Hsup Hmiss. set_solver.
Qed.

Lemma scheduleRequests_frame (s : t) :
  outside_requests (fst (_scheduleRequests s)) = outside_requests s
  /\ pendingPieces s ⊆ pendingPieces (fst (_scheduleRequests s))
  /\ pendingPieces (fst (_scheduleRequests s))
     ⊆ pendingPieces s ∪ missingPieces s.
Proof.
  unfold _scheduleRequests.
  destruct (negb (JS.truthy_opt (fileHash s)) || bool_decide (missingPieces s = ∅)).
  - simpl. split; [done|]. set_solver.
  - apply schedule_loop_frame.
Qed.

End Scheduler.

(** ** [pending ⊆ missing] *)

Section Invariant.

Import Node.

Variable base64_decode : string -> list byte.
Variable base64_encode : list byte -> string.
Variable sha1_hex : list byte -> string.

(** The end of a handshake writes messages and marks the record of the
    peer; it touches nothing else. *)
Lemma handshake_reply_frame (s : t) (socket : SocketRef) (remoteId : string)
    (remotePort : N) :
  outside_requests (fst (handshake_reply s socket remoteId remotePort))
  = outside_requests s
  /\ pendingPieces (fst (handshake_reply s socket remoteId remotePort))
     = pendingPieces s.
Proof.
  unfold handshake_reply, _sendHandshake.
  destruct (negb (Socket.isOutgoing (sockets s socket))
            && negb (peer_flag Peer.handshakeSent false remoteId s)); [|done].
  by destruct (known_peer_of s socket).
Qed.

(** A handshake never touches [pendingPieces] and never shrinks
    [missingPieces], whether the handler returns or throws. *)
Lemma handleHandshake_pieces (s s' : t) (socket : SocketRef)
    (message : Wire.handshake) (now : N) (out : list action) :
  _handleHandshake s socket message now = Returns s' out
  \/ _handleHandshake s socket message now = Throws s' out ->
  pendingPieces s' = pendingPieces s /\ missingPieces s ⊆ missingPieces s'.
Proof.
  unfold _handleHandshake.
  set (s1 := assign_peerId socket _ _).
  assert (Hs1 : outside_requests s1
                = (port s, fileName s, fileSize s, fileHash s, pieceSize s,
                   numPieces s, id s, fileManager s, havePieces s,
                   missingPieces s, progressInterval s, startTime s, isSeed s,
                   bytesDownloaded s, sockets s1)
                /\ pendingPieces s1 = pendingPieces s).
  { subst s1. by destruct (JSMap.has _ _). }
  destruct Hs1 as [Hs1 Hp1].
  assert (Hm1 : missingPieces s1 = missingPieces s).
  { unfold outside_requests in Hs1. congruence. }
  clearbody s1.
  destruct (bool_decide (Wire.id message = id s)).
  { intros [[= <- _]|[=]]. split; [done|set_solver]. }
  destruct (isSeed s1).
  - destruct (_ && _ && _).
    + intros [[= <- _]|[=]]. cbn. rewrite Hp1, Hm1. split; [done|set_solver].
    + destruct (handshake_reply_frame s1 socket (Wire.id message) (Wire.port message))
        as [Hf Hp].
      destruct (handshake_reply _ _ _ _) as [s2 o2]. cbn [fst] in *.
      intros [[= <- _]|[=]]. unfold outside_requests in Hf.
      rewrite Hp, Hp1. split; [done|]. set_solver by congruence.
  - destruct (JS.or_null_string (Wire.fileHash message)) as [h|].
    + destruct (JS.loop_indices _) as [idxs|]; [|intros [[=]|[=]]].
      destruct (Manager.setSize _ _) as [fm [[]|]].
      * set (s2 := set_progress _ _ _ _ _).
        destruct (handshake_reply_frame s2 socket (Wire.id message) (Wire.port message))
          as [Hf Hp].
        destruct (handshake_reply s2 _ _ _) as [s3 o3]. cbn [fst] in *.
        intros [[= <- _]|[=]]. unfold outside_requests in Hf.
        assert (Hm : missingPieces s3 = missingPieces s2) by congruence.
        rewrite Hp, Hm. subst s2. cbn. rewrite Hp1, Hm1.
        split; [done|]. set_solver.
      * intros [[=]|[= <- _]]. cbn. rewrite Hp1, Hm1. split; [done|]. set_solver.
    + intros [[= <- _]|[=]]. cbn. rewrite Hp1, Hm1. split; [done|set_solver].
Qed.

Lemma scheduleRequests_inv (s : t) :
  pendingPieces s ⊆ missingPieces s ->
  let s' := fst (_scheduleRequests s) in
  pendingPieces s' ⊆ missingPieces s'.
Proof.
  intros Hinv s'; subst s'. destruct (scheduleRequests_frame s) as (Hf & _ & Hsup).
  unfold outside_requests in Hf.
  assert (Hm : missingPieces (fst (_scheduleRequests s)) = missingPieces s)
    by congruence.
  rewrite Hm. clear -Hinv Hsup. set_solver.
Qed.

Lemma handleBitfield_inv (s : t) (socket : SocketRef) (pieces : list N) :
  pendingPieces s ⊆ missingPieces s ->
  let s' := fst (_handleBitfield s socket pieces) in
  pendingPieces s' ⊆ missingPieces s'.
Proof.
  intros Hinv s'; subst s'. unfold _handleBitfield.
  destruct (known_peer_of s socket); [|done].
  by apply scheduleRequests_inv.
Qed.

Lemma handleHave_inv (s : t) (socket : SocketRef) (index : N) :
  pendingPieces s ⊆ missingPieces s ->
  let s' := fst (_handleHave s socket index) in
  pendingPieces s' ⊆ missingPieces s'.
Proof.
  intros Hinv s'; subst s'. unfold _handleHave.
  destruct (known_peer_of s socket); [|done].
  destruct (_ && _ && _); [|done].
  by apply scheduleRequests_inv.
Qed.

Lemma handleRequest_inv (s : t) (socket : SocketRef) (index : N) :
  fst (_handleRequest base64_encode s socket index) = s.
Proof.
  unfold _handleRequest. destruct (negb _); [done|].
  by destruct (Manager.readPiece _ _).
Qed.

Lemma handlePeers_inv (s : t) (peersList : list Wire.peer) :
  pendingPieces (fst (_handlePeers s peersList)) = pendingPieces s
  /\ missingPieces (fst (_handlePeers s peersList)) = missingPieces s.
Proof.
  revert s. induction peersList as [|peer rest IH]; intros s; [done|].
  cbn [_handlePeers].
  destruct (bool_decide _); [apply IH|].
  destruct (JSMap.has _ _); [apply IH|].
  set (s1 := set_knownPeers _ s).
  destruct (IH s1) as [Hp Hm].
  destruct (_handlePeers s1 rest) as [s2 o2]. by cbn [fst] in *.
Qed.

Lemma record_piece_pieces (s : t) (socket : SocketRef) (index : N)
    (dataBuffer : list byte) :
  havePieces (record_piece s socket index dataBuffer)
  = JS.set_add index (havePieces s)
  /\ missingPieces (record_piece s socket index dataBuffer)
     = missingPieces s ∖ {[index]}
  /\ pendingPieces (record_piece s socket index dataBuffer)
     = pendingPieces s ∖ {[index]}
  /\ bytesDownloaded (record_piece s socket index dataBuffer)
     = Some (JS.to_number (bytesDownloaded s) + N.of_nat (List.length dataBuffer))
  /\ fileManager (record_piece s socket index dataBuffer) = fileManager s
  /\ isSeed (record_piece s socket index dataBuffer) = isSeed s.
Proof.
  unfold record_piece. cbn.
  by destruct (known_peer_of _ socket).
Qed.

(** Completion or scheduling keeps the piece sets, but for the requests
    the scheduler adds; they are for missing pieces. *)
Lemma after_piece_pieces (s : t) :
  havePieces (fst (after_piece s)) = havePieces s
  /\ missingPieces (fst (after_piece s)) = missingPieces s
  /\ pendingPieces (fst (after_piece s)) ⊆ pendingPieces s ∪ missingPieces s
  /\ bytesDownloaded (fst (after_piece s)) = bytesDownloaded s
  /\ fileManager (fst (after_piece s)) = fileManager s.
Proof.
  unfold after_piece. destruct (bool_decide _).
  - cbn. repeat split; try done. set_solver.
  - destruct (scheduleRequests_frame s) as (Hf & _ & Hsup).
    unfold outside_requests in Hf.
    repeat split; try congruence. done.
Qed.

Lemma handlePiece_inv (s : t) (socket : SocketRef) (index : N) (data : string) :
  pendingPieces s ⊆ missingPieces s ->
  let s' := fst (_handlePiece base64_decode s socket index data) in
  pendingPieces s' ⊆ missingPieces s'.
Proof.
  intros Hinv s'; subst s'. unfold _handlePiece.
  destruct (Manager.writePiece _ _ _) as [fm [[]|]]; [|done].
  destruct (record_piece_pieces (set_fileManager fm s) socket index
              (base64_decode data)) as (_ & Hm & Hp & _).
  set (s1 := record_piece _ _ _ _) in *. clearbody s1. cbn in Hm, Hp.
  destruct (after_piece_pieces s1) as (_ & Hm' & Hp' & _).
  destruct (after_piece s1) as [s2 o2]. cbn [fst] in *.
  rewrite Hm', Hm. rewrite Hm, Hp in Hp'. clear -Hinv Hp'. set_solver.
Qed.

Lemma closed_inv (s : t) (socket : SocketRef) :
  let s' := fst (closed s socket) in
  pendingPieces s' ⊆ missingPieces s'.
Proof.
  intros s'; subst s'. unfold closed. apply scheduleRequests_inv. cbn. set_solver.
Qed.

Lemma opened_pieces (s s' : t) (disk : list byte) :
  opened s disk = Some s' ->
  pendingPieces s' = pendingPieces s /\ missingPieces s' = missingPieces s.
Proof.
  unfold opened. cbn. destruct (isSeed s); [|by intros [= <-]].
  destruct (JS.loop_indices _); [|done]. by intros [= <-].
Qed.

Lemma handle_inv (s s' : t) (e : event) :
  pendingPieces s ⊆ missingPieces s ->
  handle base64_decode base64_encode sha1_hex s e = Some s' ->
  pendingPieces s' ⊆ missingPieces s'.
Proof.
  intros Hinv. destruct e as [disk| |k a|k a|k m now|k]; cbn [handle].
  - intros [-> ->]%opened_pieces. done.
  - intros [= <-]. destruct (isSeed s); [|done].
    unfold hashed. by destruct (Manager.fileHandle _).
  - by intros [= <-].
  - intros [= <-]. unfold connected, _sendHandshake.
    by destruct (known_peer_of _ _).
  - destruct m as [h|pieces|index|index data|index|peers]; cbn [_handleMessage returns].
    + destruct (_handleHandshake s k h now) as [s1 o|s1 o|] eqn:Hh; [| |done].
      * intros [= <-].
        destruct (handleHandshake_pieces s s1 k h now o) as [-> Hm]; [by left|].
        clear -Hinv Hm. set_solver.
      * intros [= <-].
        destruct (handleHandshake_pieces s s1 k h now o) as [-> Hm]; [by right|].
        clear -Hinv Hm. set_solver.
    + intros [= <-]. by apply handleBitfield_inv.
    + intros [= <-]. by rewrite handleRequest_inv.
    + intros [= <-]. by apply handlePiece_inv.
    + intros [= <-]. by apply handleHave_inv.
    + intros [= <-]. by destruct (handlePeers_inv s peers) as [-> ->].
  - intros [= <-]. apply closed_inv.
Qed.

(** C3.  [pendingPieces] is a subset of [missingPieces] in every state of
    the node: in the state the constructor builds (both empty), and after
    every callback of the event loop: a request sent by the scheduler, a
    piece received, a connection closed, and every other event. *)
Theorem pending_subset_missing (s : t) :
  reachable base64_decode base64_encode sha1_hex s ->
  pendingPieces s ⊆ missingPieces s.
Proof.
  induction 1 as [port basename randomId exists_|s e s' _ IH Hstep].
  - done.
  - by apply (handle_inv s s' e).
Qed.

Lemma reachable_run (s s' : t) (events : list event) :
  reachable base64_decode base64_encode sha1_hex s ->
  run base64_decode base64_encode sha1_hex s events = Some s' ->
  reachable base64_decode base64_encode sha1_hex s'.
Proof.
  unfold run. revert s. induction events as [|e events IH]; intros s Hs; simpl.
  - by intros [= <-].
  - destruct (handle base64_decode base64_encode sha1_hex s e) as [s1|] eqn:He.
    + apply IH. by eapply reach_step.
    + clear. induction events as [|e' events IH']; [done|]. apply IH'.
Qed.

End Invariant.

Lemma pending_subset_missing_witness :
  0 ∈ Node.pendingPieces Sample.requesting
  /\ Node.pendingPieces Sample.requesting ⊆ Node.missingPieces Sample.requesting.
Proof.
  split; [apply (bool_decide_unpack _); vm_compute; exact I|].
  apply (pending_subset_missing (fun _ => []) (fun _ => "") (fun _ => "")).
  apply (reachable_run _ _ _
           (Node.constructor 6882 "out.bin" "00000000000000aa" false)
           Sample.requesting Sample.requesting_events).
  - apply Node.reach_new.
  - vm_compute. reflexivity.
Defined.

(** ** Receiving a piece *)

Section Pieces.

Import Node.

Variable base64_decode : string -> list byte.

Lemma fh_write_read (file data : list byte) (position : N) :
  take (List.length data) (drop (N.to_nat position) (Manager.fh_write file data position))
  = data.
Proof.
  unfold Manager.fh_write. set (p := N.to_nat position).
  rewrite (app_assoc (take p file)).
  rewrite drop_app_length'; [by rewrite take_app_length|].
  rewrite length_app, length_take, length_replicate. lia.
Qed.

(** A handle opened with ['w+'] takes every write. *)
Lemma writePiece_writable (m : Manager.t) (index : N) (data file : list byte) :
  Manager.fileHandle m = Some file ->
  Manager.mode m = Manager.w_plus ->
  exists fm file',
    Manager.writePiece m index data = (fm, Manager.Resolved tt)
    /\ Manager.fileHandle fm = Some file'
    /\ Manager.mode fm = Manager.w_plus
    /\ Manager.pieceSize fm = Manager.pieceSize m
    /\ take (List.length data)
            (drop (N.to_nat (index * Manager.pieceSize m)) file') = data.
Proof.
  intros Hh Hm. unfold Manager.writePiece. rewrite Hh, Hm.
  case_bool_decide as Hd.
  - exists m, file. subst data. by rewrite take_0.
  - eexists _, _. split; [reflexivity|]. cbn. repeat split; try done.
    apply fh_write_read.
Qed.

(** The shape of [_handlePiece] once the write has gone through. *)
Lemma handlePiece_resolved (s : t) (socket : SocketRef) (index : N) (data : string)
    (fm : Manager.t) :
  Manager.writePiece (fileManager s) index (base64_decode data)
  = (fm, Manager.Resolved tt) ->
  let s1 := record_piece (set_fileManager fm s) socket index (base64_decode data) in
  _handlePiece base64_decode s socket index data
  = (fst (after_piece s1), broadcast_have s1 socket index ++ snd (after_piece s1)).
Proof.
  intros Hw s1. unfold _handlePiece. rewrite Hw. fold s1.
  by destruct (after_piece s1).
Qed.

Lemma set_add_elem (x : N) (l : list N) : x ∈ JS.set_add x l.
Proof.
  unfold JS.set_add, JS.set_has. case_bool_decide; [done|].
  apply elem_of_app. right. apply list_elem_of_singleton. done.
Qed.

(** [record_piece] touches the records only to clear the busy flag of the
    sender. *)
Lemma record_piece_peers (s : t) (socket : SocketRef) (index : N)
    (dataBuffer : list byte) :
  sockets (record_piece s socket index dataBuffer) = sockets s
  /\ knownPeers (record_piece s socket index dataBuffer)
     = match known_peer_of s socket with
       | Some pid => JSMap.alter (Peer.set_busy false) pid (knownPeers s)
       | None => knownPeers s
       end.
Proof.
  unfold record_piece.
  change (known_peer_of (set_pieces _ _ _ s) socket) with (known_peer_of s socket).
  by destruct (known_peer_of s socket).
Qed.

Lemma get_alter_same {V} (f : V -> V) (k : string) (m : list (string * V)) :
  JSMap.get k (JSMap.alter f k m) = f <$> JSMap.get k m.
Proof.
  induction m as [|[k' v] m IH]; [done|]. simpl.
  case_bool_decide as Hk; simpl.
  - by rewrite bool_decide_eq_true_2.
  - by rewrite bool_decide_eq_false_2.
Qed.

Lemma omap_alter {V B} (g : string * V -> option B) (f : V -> V) (k : string)
    (m : list (string * V)) :
  (forall k' v, g (k', f v) = g (k', v)) ->
  omap g (JSMap.alter f k m) = omap g m.
Proof.
  intros Hg. induction m as [|[k' v] m IH]; [done|]. cbn.
  case_bool_decide; cbn; [by rewrite Hg|]. by rewrite IH.
Qed.

(** The [have] messages only depend on the keys and sockets of the records. *)
Lemma broadcast_have_alter (s : t) (socket : SocketRef) (index : N)
    (f : Peer.t -> Peer.t) (pid : string) :
  (forall p, Peer.socket (f p) = Peer.socket p) ->
  broadcast_have (update_peer pid f s) socket index = broadcast_have s socket index.
Proof.
  intros Hf. unfold broadcast_have, update_peer.
  change (sockets (set_knownPeers _ s)) with (sockets s).
  change (knownPeers (set_knownPeers ?m s)) with m.
  apply omap_alter. intros k' v. by rewrite Hf.
Qed.

Lemma broadcast_have_elem (s : t) (socket : SocketRef) (index : N) (a : action) :
  a ∈ broadcast_have s socket index <->
  exists peerId peer k,
    (peerId, peer) ∈ knownPeers s
    /\ Peer.socket peer = Some k
    /\ Some peerId <> Socket.peerId (sockets s socket)
    /\ a = Write k (Wire.Have index).
Proof.
  unfold broadcast_have. rewrite list_elem_of_omap. split.
  - intros ([peerId peer] & Hin & Hsome).
    destruct (Peer.socket peer) as [k|] eqn:Hk; [|done].
    case_bool_decide; [done|]. injection Hsome as <-.
    by exists peerId, peer, k.
  - intros (peerId & peer & k & Hin & Hk & Hne & ->).
    exists (peerId, peer). split; [done|]. rewrite Hk.
    by rewrite bool_decide_eq_false_2.
Qed.

(** [record_piece] leaves the metadata alone. *)
Lemma record_piece_metadata (s : t) (socket : SocketRef) (index : N)
    (dataBuffer : list byte) :
  fileHash (record_piece s socket index dataBuffer) = fileHash s
  /\ fileSize (record_piece s socket index dataBuffer) = fileSize s
  /\ id (record_piece s socket index dataBuffer) = id s.
Proof.
  unfold record_piece. cbn. by destruct (known_peer_of _ socket).
Qed.

(** While pieces are missing, the end of [_handlePiece] is the scheduler. *)
Lemma after_piece_missing (s : t) :
  missingPieces s <> ∅ ->
  outside_requests (fst (after_piece s)) = outside_requests s.
Proof.
  intros Hne. unfold after_piece. rewrite bool_decide_eq_false_2 by done.
  apply scheduleRequests_frame.
Qed.

(** C6.  When the decoded data of a [piece] message has been written, the
    handler reaches its completion test in a state [s1] in which [index] is
    in [havePieces] and out of [missingPieces] and [pendingPieces], the busy
    flag of the record of the sender is off and [bytesDownloaded] has grown
    by the number of decoded bytes; by then it has written [have index] to
    the socket of every record of [knownPeers] that has one and whose key is
    not the peer id of the sending socket, and to no one else.  What follows
    (completion, or the scheduler) keeps the piece sets and the byte count
    as they are in [s1], so they hold when the handler returns. *)
Theorem piece_recorded (s : t) (socket : SocketRef) (index : N) (data : string)
    (fm : Manager.t) :
  Manager.writePiece (fileManager s) index (base64_decode data)
  = (fm, Manager.Resolved tt) ->
  let s' := fst (_handlePiece base64_decode s socket index data) in
  let bytes :=
    Some (JS.to_number (bytesDownloaded s)
          + N.of_nat (List.length (base64_decode data))) in
  exists s1 haves,
    _handlePiece base64_decode s socket index data
    = (fst (after_piece s1), haves ++ snd (after_piece s1))
    /\ index ∈ havePieces s1 /\ (index ∉ missingPieces s1)
    /\ (index ∉ pendingPieces s1)
    /\ (forall pid p,
          Socket.peerId (sockets s socket) = Some pid -> pid <> "" ->
          JSMap.get pid (knownPeers s1) = Some p -> Peer.busy p = false)
    /\ bytesDownloaded s1 = bytes
    /\ (forall a,
          a ∈ haves <->
          exists peerId peer k,
            (peerId, peer) ∈ knownPeers s
            /\ Peer.socket peer = Some k
            /\ Some peerId <> Socket.peerId (sockets s socket)
            /\ a = Write k (Wire.Have index))
    /\ index ∈ havePieces s' /\ (index ∉ missingPieces s')
    /\ (index ∉ pendingPieces s')
    /\ bytesDownloaded s' = bytes.
Proof.
  intros Hw s' bytes. subst s'.
  rewrite (handlePiece_resolved s socket index data fm Hw). cbn [fst].
  set (s0 := set_fileManager fm s).
  set (s1 := record_piece s0 socket index (base64_decode data)).
  destruct (record_piece_pieces s0 socket index (base64_decode data))
    as (Hh & Hm & Hp & Hb & _).
  destruct (record_piece_peers s0 socket index (base64_decode data)) as [Hk Hpeers].
  destruct (after_piece_pieces s1) as (Hh' & Hm' & Hp' & Hb' & _).
  fold s1 in Hh, Hm, Hp, Hb, Hk, Hpeers.
  assert (Hin : index ∈ havePieces s1) by (rewrite Hh; apply set_add_elem).
  assert (Hnm : index ∉ missingPieces s1) by (rewrite Hm; set_solver).
  assert (Hnp : index ∉ pendingPieces s1) by (rewrite Hp; set_solver).
  exists s1, (broadcast_have s1 socket index).
  split; [done|]. split; [done|]. split; [done|]. split; [done|].
  split; [|split; [done|split]].
  - intros pid p Hpid Hne. rewrite Hpeers.
    unfold known_peer_of. change (sockets s0) with (sockets s). rewrite Hpid.
    assert (Htr : JS.truthy pid = true).
    { unfold JS.truthy. by destruct (String.eqb_spec pid ""). }
    rewrite Htr. cbn [andb]. unfold JSMap.has.
    destruct (JSMap.get pid (knownPeers s0)) as [p0|] eqn:Hget.
    + rewrite get_alter_same, Hget. by intros [= <-].
    + by rewrite Hget.
  - intros a.
    assert (Hbc : broadcast_have s1 socket index = broadcast_have s socket index).
    { unfold broadcast_have. rewrite Hk, Hpeers. change (sockets s0) with (sockets s).
      destruct (known_peer_of s0 socket); [|done]. by apply omap_alter. }
    rewrite Hbc. apply broadcast_have_elem.
  - rewrite Hh', Hm', Hb'. repeat split; try done.
    clear -Hp' Hnm Hnp. set_solver.
Qed.


End Pieces.

Lemma piece_recorded_witness :
  0 ∈ Node.havePieces
        (fst (Node._handlePiece (fun _ => [x61]) Sample.requesting Sample.socket1 0 "YQ=="))
  /\ (0 ∉ Node.pendingPieces
            (fst (Node._handlePiece (fun _ => [x61]) Sample.requesting
                    Sample.socket1 0 "YQ=="))).
Proof.
  destruct (piece_recorded (fun _ => [x61]) Sample.requesting Sample.socket1 0 "YQ=="
              (fst (Manager.writePiece (Node.fileManager Sample.requesting) 0 [x61])))
    as (s1 & haves & _ & _ & _ & _ & _ & _ & _ & Hin & _ & Hnp & _).
  - vm_compute. reflexivity.
  - split; [exact Hin | exact Hnp].
Defined.



(** ** Adoption of metadata *)

Section Adoption.

Import Node.

Variable base64_decode : string -> list byte.
Variable base64_encode : list byte -> string.
Variable sha1_hex : list byte -> string.

(** What a handshake with a file hash does to a node that is not a seed
    and whose file is open for writing: whatever the node knew before, it
    takes the metadata of the handshake, empties [havePieces], adds every
    index to [missingPieces] and resizes the file. *)
Lemma handshake_adopts (s : t) (socket : SocketRef) (message : Wire.handshake)
    (now : N) (h : string) (n : N) (file : list byte) (idxs : list N) :
  let remotePieceSize := JS.or_null_number (Wire.pieceSize message) in
  isSeed s = false ->
  Wire.id message <> id s ->
  JS.or_null_string (Wire.fileHash message) = Some h ->
  JS.or_null_number (Wire.fileSize message) = Some n ->
  JS.loop_indices (JS.ceil_div n (JS.to_number remotePieceSize)) = Some idxs ->
  Manager.fileHandle (fileManager s) = Some file ->
  Manager.mode (fileManager s) = Manager.w_plus ->
  exists s' out,
    _handleHandshake s socket message now = Returns s' out
    /\ fileName s' = JS.or_null_string (Wire.fileName message)
    /\ fileSize s' = Some n
    /\ fileHash s' = Some h
    /\ pieceSize s' = remotePieceSize
    /\ numPieces s' = Some (JS.ceil_div n (JS.to_number remotePieceSize))
    /\ havePieces s' = []
    /\ missingPieces s' = list_to_set idxs ∪ missingPieces s
    /\ pendingPieces s' = pendingPieces s
    /\ isSeed s' = false
    /\ startTime s' = Some now
    /\ id s' = id s
    /\ fileManager s'
       = Manager.mk (Manager.pieceSize (fileManager s))
                    (Some (Manager.fh_truncate file n)) (Some n) Manager.w_plus.
Proof.
  intros remotePieceSize Hseed Hid Hh Hn Hidx Hfile Hmode.
  unfold _handleHandshake. rewrite bool_decide_eq_false_2 by done.
  set (s1 := assign_peerId socket _ _).
  assert (Hs1 : fileManager s1 = fileManager s
                /\ missingPieces s1 = missingPieces s
                /\ pendingPieces s1 = pendingPieces s
                /\ isSeed s1 = isSeed s
                /\ id s1 = id s).
  { subst s1. by destruct (JSMap.has _ _). }
  destruct Hs1 as (Hfm1 & Hm1 & Hp1 & Hseed1 & Hid1).
  clearbody s1. rewrite Hseed1, Hseed, Hh, Hn. fold remotePieceSize.
  change (JS.to_number (Some n)) with n. rewrite Hidx.
  unfold Manager.setSize. cbn -[JS.ceil_div]. rewrite Hfm1, Hfile, Hmode.
  set (s2 := set_progress _ _ _ _ _).
  destruct (handshake_reply_frame s2 socket (Wire.id message) (Wire.port message))
    as [Hf Hp].
  destruct (handshake_reply s2 _ _ _) as [s3 o3]. cbn [fst] in *.
  apply outside_requests_fields in Hf
    as (Hname & Hsize & Hhash & Hps & Hnp & Hid3 & Hfm & Hhave & Hmiss & Hstart & Hsd & _).
  exists s3, o3. split; [done|].
  rewrite Hname, Hsize, Hhash, Hps, Hnp, Hid3, Hfm, Hhave, Hmiss, Hstart, Hsd, Hp.
  subst s2. cbn -[JS.ceil_div]. rewrite Hm1, Hp1, Hseed1, Hseed, Hid1. done.
Qed.

(** The leecher of [Sample.adopted] after the handshake of its seed. *)
Lemma adopted_spec :
  exists out,
    _handleHandshake (accepted Sample.leecher Sample.socket1 "10.0.0.1")
      Sample.socket1 (Sample.seed_handshake "ffffffffffffffff") 0
    = Returns Sample.adopted out
    /\ fileHash Sample.adopted = Some "da39a3ee"
    /\ fileSize Sample.adopted = Some 65537
    /\ havePieces Sample.adopted = []
    /\ missingPieces Sample.adopted = list_to_set [0; 1] ∪ ∅
    /\ isSeed Sample.adopted = false
    /\ id Sample.adopted = "00000000000000aa"
    /\ Manager.fileHandle (fileManager Sample.adopted)
       = Some (Manager.fh_truncate [] 65537)
    /\ Manager.mode (fileManager Sample.adopted) = Manager.w_plus.
Proof.
  destruct (handshake_adopts (accepted Sample.leecher Sample.socket1 "10.0.0.1")
              Sample.socket1 (Sample.seed_handshake "ffffffffffffffff") 0
              "da39a3ee" 65537 [] [0; 1])
    as (s' & out & Heq & _ & Hsize & Hhash & _ & _ & Hhave & Hmiss & _ & Hseed
        & _ & Hid & Hfm).
  { reflexivity. }
  { simpl. discriminate. }
  { reflexivity. }
  { reflexivity. }
  { vm_compute. reflexivity. }
  { reflexivity. }
  { reflexivity. }
  assert (Hs' : Sample.adopted = s') by (unfold Sample.adopted; by rewrite Heq).
  rewrite Hs'. exists out. rewrite Hfm.
  repeat split; assumption.
Qed.

(** C1, at a second handshake.  A leecher that has adopted the metadata of
    its seed and holds piece 0 accepts a second peer that shares the same
    file.  The handshake of that peer is adopted anew: the metadata are
    assigned again, [havePieces] is emptied and piece 0 is missing again. *)
Theorem second_handshake_resets_download (data : string) (now : N) :
  let s := Sample.second_peer base64_decode data in
  reachable base64_decode base64_encode sha1_hex s
  /\ fileHash s = Some "da39a3ee"
  /\ 0 ∈ havePieces s
  /\ (0 ∉ missingPieces s)
  /\ exists s' out,
       _handleHandshake s Sample.socket2
         (Sample.seed_handshake "00000000000000bb") now
       = Returns s' out
       /\ fileHash s' = Some "da39a3ee"
       /\ havePieces s' = []
       /\ 0 ∈ missingPieces s'.
Proof.
  intros s.
  destruct adopted_spec
    as (out0 & Hadopt & Hhash0 & Hsize0 & Hhave0 & Hmiss0 & Hseed0 & Hid0 & Hfile0
        & Hmode0).
  (* the piece *)
  destruct (writePiece_writable (fileManager Sample.adopted) 0 (base64_decode data)
              _ Hfile0 Hmode0) as (fm & file' & Hw & Hfile1 & Hmode1 & _ & _).
  pose proof (handlePiece_resolved base64_decode Sample.adopted Sample.socket1 0
                data fm Hw) as Hpiece. cbn zeta in Hpiece.
  destruct (record_piece_pieces (set_fileManager fm Sample.adopted) Sample.socket1
              0 (base64_decode data)) as (Hh1 & Hm1 & _ & _ & Hfm1 & Hsd1).
  destruct (record_piece_metadata (set_fileManager fm Sample.adopted)
              Sample.socket1 0 (base64_decode data)) as (Hhash1 & _ & Hid1).
  cbn [set_fileManager missingPieces havePieces fileManager isSeed fileHash id]
    in Hh1, Hm1, Hfm1, Hsd1, Hhash1, Hid1.
  set (s1 := record_piece _ Sample.socket1 0 (base64_decode data)) in *.
  rewrite Hmiss0 in Hm1. rewrite Hhave0 in Hh1.
  assert (Hne : missingPieces s1 <> ∅).
  { rewrite Hm1. intros Hempty.
    assert (H1 : (1 : N) ∈ (list_to_set [0; 1] ∪ ∅ : gset N) ∖ {[0]})
      by (clear; set_solver).
    rewrite Hempty in H1. clear -H1. set_solver. }
  apply after_piece_missing, outside_requests_fields in Hne
    as (_ & _ & Hhash2 & _ & _ & Hid2 & Hfm2 & Hh2 & Hm2 & _ & Hsd2 & _).
  assert (Hdown : Sample.downloading base64_decode data = fst (after_piece s1)).
  { unfold Sample.downloading. by rewrite Hpiece. }
  assert (Hfields :
            fileHash s = Some "da39a3ee" /\ havePieces s = [0]
            /\ missingPieces s = (list_to_set [0; 1] ∪ ∅) ∖ {[0]}
            /\ isSeed s = false /\ id s = "00000000000000aa"
            /\ fileManager s = fm).
  { subst s. unfold Sample.second_peer, accepted, set_sockets.
    cbn [fileHash havePieces missingPieces isSeed id fileManager].
    rewrite Hdown, Hhash2, Hh2, Hm2, Hsd2, Hid2, Hfm2.
    rewrite Hhash1, Hh1, Hm1, Hsd1, Hid1, Hfm1, Hhash0, Hseed0, Hid0.
    repeat split; reflexivity. }
  destruct Hfields as (Hhash & Hhave & Hmiss & Hseed & Hid & Hfm).
  split; [|split; [exact Hhash|split; [|split]]].
  - (* the run that leads to [s] *)
    subst s. unfold Sample.second_peer.
    apply (reach_step _ _ _ (Sample.downloading base64_decode data)
             (Accepted Sample.socket2 "10.0.0.2")); [|reflexivity].
    apply (reach_step _ _ _ Sample.adopted
             (Received Sample.socket1 (Wire.Piece 0 data) 0));
      [|cbn [handle _handleMessage returns]; reflexivity].
    apply (reach_step _ _ _ (accepted Sample.leecher Sample.socket1 "10.0.0.1")
             (Received Sample.socket1
                (Wire.Handshake (Sample.seed_handshake "ffffffffffffffff")) 0));
      [|cbn [handle _handleMessage]; rewrite Hadopt; reflexivity].
    apply (reach_step _ _ _ Sample.leecher (Accepted Sample.socket1 "10.0.0.1"));
      [|reflexivity].
    apply (reach_step _ _ _ (constructor 6882 "out.bin" "00000000000000aa" false)
             (Opened [])); [apply reach_new|vm_compute; reflexivity].
  - rewrite Hhave. clear. set_solver.
  - rewrite Hmiss. clear. set_solver.
  - destruct (handshake_adopts s Sample.socket2
                (Sample.seed_handshake "00000000000000bb") now
                "da39a3ee" 65537 file' [0; 1])
      as (s' & out & Heq & _ & _ & Hhash' & _ & _ & Hhave' & Hmiss' & _).
    + exact Hseed.
    + rewrite Hid. simpl. discriminate.
    + reflexivity.
    + reflexivity.
    + vm_compute. reflexivity.
    + rewrite Hfm. exact Hfile1.
    + rewrite Hfm. exact Hmode1.
    + exists s', out. split; [exact Heq|]. split; [exact Hhash'|].
      split; [exact Hhave'|]. rewrite Hmiss'. clear. set_solver.
Qed.

End Adoption.

(** * Further properties *)

(** ** The file manager: what is written is what is read *)

Section ManagerRoundTrip.

Import Manager.

(** A byte of a file, zero beyond its end. *)
Local Abbreviation byte_at f p := (default x00 (f !! p)).

Lemma fh_read_zeros (file : list byte) (length position : N) :
  fh_read file (replicate (N.to_nat length) x00) length position
  = (fun k => byte_at file (N.to_nat position + k)%nat) <$> seq 0 (N.to_nat length).
Proof.
  unfold fh_read. set (len := N.to_nat length). set (pos := N.to_nat position).
  apply list_eq. intros k. rewrite list_lookup_fmap.
  destruct (decide (k < len)%nat) as [Hk|Hk].
  - rewrite lookup_seq_lt by done. simpl.
    destruct (decide (pos + k < List.length file)%nat) as [Hin|Hout].
    + rewrite lookup_app_l by (rewrite length_take, length_drop; lia).
      rewrite lookup_take_lt by done. rewrite lookup_drop.
      destruct (lookup_lt_is_Some_2 file (pos + k)%nat Hin) as [b ->]. done.
    + rewrite (lookup_ge_None_2 file (pos + k)%nat) by lia. simpl.
      rewrite lookup_app_r by (rewrite length_take, length_drop; lia).
      rewrite lookup_drop, lookup_replicate_2; [done|].
      rewrite length_take, length_drop. lia.
  - rewrite lookup_seq_ge by lia. simpl.
    apply lookup_ge_None_2.
    repeat (rewrite length_app || rewrite length_take || rewrite length_drop
            || rewrite length_replicate). lia.
Qed.

Lemma fh_write_byte_at (file data : list byte) (position : N) (p : nat) :
  byte_at (fh_write file data position) p
  = if decide (N.to_nat position <= p < N.to_nat position + List.length data)%nat
    then byte_at data (p - N.to_nat position)%nat
    else byte_at file p.
Proof.
  unfold fh_write. set (pos := N.to_nat position).
  destruct (decide (p < pos)%nat) as [Hlow|Hge].
  - rewrite decide_False by lia.
    destruct (decide (p < List.length file)%nat) as [Hin|Hout].
    + rewrite lookup_app_l by (rewrite length_take; lia).
      by rewrite lookup_take_lt.
    + rewrite lookup_app_r by (rewrite length_take; lia).
      rewrite lookup_app_l by (rewrite length_take, length_replicate; lia).
      rewrite lookup_replicate_2 by (rewrite length_take; lia).
      by rewrite (lookup_ge_None_2 file p) by lia.
  - rewrite lookup_app_r by (rewrite length_take; lia).
    rewrite lookup_app_r by (rewrite length_take, length_replicate; lia).
    rewrite length_take, length_replicate.
    replace (p - _ - _)%nat with (p - pos)%nat by lia.
    destruct (decide (p < pos + List.length data)%nat) as [Hin|Hout].
    + rewrite decide_True by lia. by rewrite lookup_app_l by lia.
    + rewrite decide_False by lia. rewrite lookup_app_r by lia.
      rewrite lookup_drop. f_equal. f_equal. lia.
Qed.

(** What [readPiece] computes on an open file, byte by byte. *)
Lemma readPiece_bytes (m : t) (file : list byte) (index : N) :
  fileHandle m = Some file ->
  index * pieceSize m <= JS.to_number (fileSize m) ->
  readPiece m index
  = Resolved ((fun k => byte_at file (N.to_nat (index * pieceSize m) + k)%nat)
              <$> seq 0 (N.to_nat (N.min (pieceSize m)
                                     (JS.to_number (fileSize m) - index * pieceSize m)))).
Proof.
  intros Hh Hoff. unfold readPiece. rewrite Hh.
  set (off := index * pieceSize m) in *. set (fsz := JS.to_number (fileSize m)) in *.
  assert (Hlen : (if (Z.of_N off + Z.of_N (pieceSize m) >? Z.of_N fsz)%Z
                  then (Z.of_N fsz - Z.of_N off)%Z else Z.of_N (pieceSize m))
                 = Z.of_N (N.min (pieceSize m) (fsz - off))).
  { destruct (Z.gtb_spec (Z.of_N off + Z.of_N (pieceSize m)) (Z.of_N fsz)); lia. }
  rewrite Hlen. unfold JS.Buffer_alloc.
  destruct (Z.ltb_spec (Z.of_N (N.min (pieceSize m) (fsz - off))) 0); [lia|].
  rewrite N2Z.id.
  replace (Z.to_nat (Z.of_N (N.min (pieceSize m) (fsz - off))))
    with (N.to_nat (N.min (pieceSize m) (fsz - off))) by lia.
  by rewrite fh_read_zeros.
Qed.

(** X1.  A piece written to a file that is open for writing is the piece
    read back under the same index, when its length is the one [readPiece]
    expects for that index: [min(pieceSize, fileSize - index * pieceSize)]. *)
Theorem write_then_read (m : t) (index : N) (data file : list byte) (size : N) :
  fileHandle m = Some file ->
  mode m = w_plus ->
  fileSize m = Some size ->
  index * pieceSize m <= size ->
  N.of_nat (List.length data) = N.min (pieceSize m) (size - index * pieceSize m) ->
  readPiece (fst (writePiece m index data)) index = Resolved data.
Proof.
  intros Hh Hm Hs Hoff Hlen.
  assert (Hread : forall file',
            readPiece (mk (pieceSize m) (Some file') (fileSize m) (mode m)) index
            = Resolved ((fun k => byte_at file' (N.to_nat (index * pieceSize m) + k)%nat)
                        <$> seq 0 (List.length data))).
  { intros file'.
    rewrite (readPiece_bytes (mk (pieceSize m) (Some file') (fileSize m) (mode m))
               file' index); [|reflexivity|by (cbn; rewrite Hs)].
    cbn. rewrite Hs. cbn. by rewrite <- Hlen, Nat2N.id. }
  unfold writePiece. rewrite Hh, Hm. case_bool_decide as Hd.
  - cbn. subst data. destruct m as [ps fh fs md]. cbn in *. subst fh.
    by rewrite (Hread file).
  - cbn. rewrite Hm in Hread. rewrite Hread. f_equal.
    apply list_eq. intros k. rewrite list_lookup_fmap.
    destruct (decide (k < List.length data)%nat) as [Hk|Hk].
    + rewrite lookup_seq_lt by done. cbn. rewrite fh_write_byte_at.
      rewrite decide_True by lia.
      replace (N.to_nat (index * pieceSize m) + k - N.to_nat (index * pieceSize m))%nat
        with k by lia.
      destruct (lookup_lt_is_Some_2 data k Hk) as [b ->]. done.
    + rewrite lookup_seq_ge by lia. cbn. symmetry. apply lookup_ge_None_2. lia.
Qed.

Lemma write_then_read_witness :
  readPiece (fst (writePiece (mk 2 (Some [x00; x00; x00]) (Some 3) w_plus) 1 [x63])) 1
  = Resolved [x63].
Proof.
  apply (write_then_read _ 1 [x63] [x00; x00; x00] 3); try reflexivity.
  vm_compute. discriminate.
Defined.

(** X2.  Writing a piece of at most [pieceSize] bytes changes what
    [readPiece] returns for no other index, whether the write goes through
    or not. *)
Theorem write_keeps_other_pieces (m : t) (index other : N) (data : list byte) :
  other <> index ->
  N.of_nat (List.length data) <= pieceSize m ->
  readPiece (fst (writePiece m index data)) other = readPiece m other.
Proof.
  intros Hne Hlen. unfold writePiece.
  destruct (fileHandle m) as [file|] eqn:Hh; [|done].
  case_bool_decide; [done|]. destruct (mode m) eqn:Hm; [done|]. cbn [fst].
  set (m' := mk _ _ _ _).
  destruct (decide (other * pieceSize m <= JS.to_number (fileSize m))) as [Hin|Hout].
  - rewrite (readPiece_bytes m' (fh_write file data (index * pieceSize m)) other)
      by done.
    rewrite (readPiece_bytes m file other Hh) by done. cbn. f_equal.
    apply list_fmap_ext. intros i k Hk. apply lookup_seq in Hk as [Hki Hk].
    cbn in Hki. subst k.
    cbn. rewrite fh_write_byte_at. rewrite decide_False; [done|].
    assert (Hcase : other < index \/ index < other) by lia.
    assert (Hk' : (N.of_nat i < pieceSize m)) by lia.
    destruct Hcase as [Hlt|Hgt].
    + assert (other * pieceSize m + pieceSize m <= index * pieceSize m) by nia. lia.
    + assert (index * pieceSize m + pieceSize m <= other * pieceSize m) by nia. lia.
  - rewrite !readPiece_beyond; [done|lia|cbn; lia].
Qed.

Lemma write_keeps_other_pieces_witness :
  readPiece (fst (writePiece (mk 2 (Some [x61; x62; x63]) (Some 3) w_plus) 0
                             [x41; x42])) 1
  = readPiece (mk 2 (Some [x61; x62; x63]) (Some 3) w_plus) 1.
Proof.
  apply write_keeps_other_pieces; [discriminate|]. vm_compute. discriminate.
Defined.

Lemma take_add {A} (l : list A) (a b : nat) :
  take (a + b) l = take a l ++ take b (drop a l).
Proof.
  revert l. induction a as [|a IH]; intros l; [done|].
  destruct l as [|x l]; [by destruct b|]. cbn. by rewrite IH.
Qed.

Lemma concat_chunks {A} (l : list A) (chunk n : nat) :
  concat ((fun i => take chunk (drop (i * chunk) l)) <$> seq 0 n) = take (n * chunk) l.
Proof.
  induction n as [|n IH]; [done|].
  rewrite seq_S, fmap_app, concat_app, IH. cbn. rewrite app_nil_r.
  replace (chunk + n * chunk)%nat with (n * chunk + chunk)%nat by lia.
  by rewrite take_add.
Qed.

(** X3.  On an open file whose recorded size is its length, [readPiece]
    resolves for every index below [numPieces], and the pieces, put one
    after the other, are the file. *)
Theorem pieces_make_the_file (m : t) (file : list byte) (numPieces : N) :
  fileHandle m = Some file ->
  fileSize m = Some (N.of_nat (List.length file)) ->
  JS.ceil_div (N.of_nat (List.length file)) (pieceSize m) = JS.Num numPieces ->
  exists pieces,
    Forall2 (fun index piece => readPiece m index = Resolved piece)
            (JS.indices numPieces) pieces
    /\ concat pieces = file.
Proof.
  intros Hh Hs Hn. set (ps := N.to_nat (pieceSize m)).
  exists ((fun i => take ps (drop (i * ps) file)) <$> seq 0 (N.to_nat numPieces)).
  split.
  - unfold JS.indices. apply Forall2_fmap, Forall_Forall2_diag, Forall_forall.
    intros i [_ Hi]%elem_of_seq. cbn in Hi.
    assert (Hlt : N.of_nat i < numPieces) by lia.
    pose proof (in_range_offset _ _ _ _ Hn Hlt) as Hoff.
    rewrite (readPiece_within m file (N.of_nat i) Hh Hs) by lia. f_equal.
    replace (N.to_nat (N.of_nat i * pieceSize m)) with (i * ps)%nat by (subst ps; lia).
    destruct (decide (pieceSize m
                      <= N.of_nat (List.length file) - N.of_nat i * pieceSize m)).
    + by replace (N.min _ _) with (pieceSize m) by lia.
    + rewrite !take_ge; [done|rewrite length_drop; subst ps; lia
                        |rewrite length_drop; subst ps; lia].
  - rewrite concat_chunks. apply take_ge.
    destruct (ceil_div_Num _ _ _ Hn) as [Hb ->].
    pose proof (N.div_mod (N.of_nat (List.length file)) (pieceSize m) Hb) as Hdm.
    pose proof (N.mod_lt (N.of_nat (List.length file)) (pieceSize m) Hb) as Hlt.
    set (q := N.of_nat (List.length file) / pieceSize m) in *.
    set (rem := N.of_nat (List.length file) mod pieceSize m) in *.
    destruct (N.eqb_spec rem 0); subst ps; nia.
Qed.

End ManagerRoundTrip.

Lemma pieces_make_the_file_witness :
  exists pieces,
    Forall2 (fun index piece =>
               Manager.readPiece Sample.five_bytes index = Manager.Resolved piece)
            (JS.indices 3) pieces
    /\ concat pieces = [x61; x62; x63; x64; x65].
Proof.
  apply (pieces_make_the_file Sample.five_bytes [x61; x62; x63; x64; x65] 3);
    reflexivity.
Defined.

(** [setSize] records the size and leaves [pieceSize] alone, whether the
    truncation goes through or not. *)
Lemma setSize_fields (m : Manager.t) (size : option N) :
  Manager.fileSize (fst (Manager.setSize m size)) = size
  /\ Manager.pieceSize (fst (Manager.setSize m size)) = Manager.pieceSize m.
Proof.
  unfold Manager.setSize.
  by destruct (Manager.fileHandle m), size, (Manager.mode m).
Qed.

(** ** What every state of a node satisfies *)

Section MapKeys.
Context {V : Type}.
Implicit Types (m : list (string * V)) (k : string).

Lemma has_keys k m : JSMap.has k m = bool_decide (k ∈ JSMap.keys m).
Proof.
  unfold JSMap.has, JSMap.keys. induction m as [|[k' v] m IH]; cbn.
  - symmetry. apply bool_decide_eq_false_2, not_elem_of_nil.
  - destruct (decide (k' = k)) as [->|Hne].
    + rewrite (bool_decide_eq_true_2 (k = k)) by done.
      symmetry. apply bool_decide_eq_true_2. left.
    + rewrite (bool_decide_eq_false_2 (k' = k)) by done. rewrite IH.
      apply bool_decide_ext. rewrite elem_of_cons. naive_solver.
Qed.

Lemma has_same_keys k m (m' : list (string * V)) :
  JSMap.keys m' = JSMap.keys m -> JSMap.has k m' = JSMap.has k m.
Proof. intros Hk. by rewrite !has_keys, Hk. Qed.

Lemma has_set k k' v m :
  JSMap.has k (JSMap.set k' v m) = bool_decide (k = k') || JSMap.has k m.
Proof.
  unfold JSMap.has. induction m as [|[k0 v0] m IH]; cbn.
  - destruct (decide (k = k')) as [->|Hne].
    + by rewrite !bool_decide_eq_true_2.
    + rewrite (bool_decide_eq_false_2 (k' = k)) by congruence.
      by rewrite (bool_decide_eq_false_2 (k = k')).
  - destruct (decide (k0 = k')) as [->|Hne0].
    + rewrite (bool_decide_eq_true_2 (k' = k')) by done. cbn.
      destruct (decide (k' = k)) as [->|Hne].
      * by rewrite !bool_decide_eq_true_2.
      * rewrite (bool_decide_eq_false_2 (k' = k)) by done.
        by rewrite (bool_decide_eq_false_2 (k = k')) by congruence.
    + rewrite (bool_decide_eq_false_2 (k0 = k')) by done. cbn.
      destruct (decide (k0 = k)) as [->|Hne].
      * rewrite (bool_decide_eq_true_2 (k = k)) by done. by rewrite orb_true_r.
      * rewrite (bool_decide_eq_false_2 (k0 = k)) by done. apply IH.
Qed.

Lemma has_delete_false k k' m :
  JSMap.has k m = false -> JSMap.has k (JSMap.delete k' m) = false.
Proof.
  unfold JSMap.has. induction m as [|[k0 v0] m IH]; cbn; [done|].
  destruct (decide (k0 = k)) as [->|Hne].
  - by rewrite (bool_decide_eq_true_2 (k = k)).
  - rewrite (bool_decide_eq_false_2 (k0 = k)) by done. intros Hk.
    destruct (bool_decide (k0 = k')); [by apply IH|]. cbn.
    rewrite (bool_decide_eq_false_2 (k0 = k)) by done. by apply IH.
Qed.

Lemma get_set_same k v m : JSMap.get k (JSMap.set k v m) = Some v.
Proof.
  induction m as [|[k0 v0] m IH]; cbn.
  - by rewrite bool_decide_eq_true_2.
  - destruct (decide (k0 = k)) as [->|Hne].
    + rewrite (bool_decide_eq_true_2 (k = k)) by done. cbn.
      by rewrite bool_decide_eq_true_2.
    + rewrite (bool_decide_eq_false_2 (k0 = k)) by done. cbn.
      by rewrite (bool_decide_eq_false_2 (k0 = k)).
Qed.

Lemma get_alter_other (f : V -> V) k k' m :
  k <> k' -> JSMap.get k (JSMap.alter f k' m) = JSMap.get k m.
Proof.
  intros Hne. induction m as [|[k0 v0] m IH]; cbn; [done|].
  destruct (decide (k0 = k')) as [->|Hne0].
  - rewrite (bool_decide_eq_true_2 (k' = k')) by done. cbn.
    by rewrite !(bool_decide_eq_false_2 (k' = k)) by congruence.
  - rewrite (bool_decide_eq_false_2 (k0 = k')) by done. cbn.
    destruct (bool_decide (k0 = k)); [done|apply IH].
Qed.

Lemma get_set_other k k' v m :
  k <> k' -> JSMap.get k (JSMap.set k' v m) = JSMap.get k m.
Proof.
  intros Hne. induction m as [|[k0 v0] m IH]; cbn.
  - by rewrite bool_decide_eq_false_2 by congruence.
  - destruct (decide (k0 = k')) as [->|Hne0].
    + rewrite (bool_decide_eq_true_2 (k' = k')) by done. cbn.
      by rewrite !(bool_decide_eq_false_2 (k' = k)) by congruence.
    + rewrite (bool_decide_eq_false_2 (k0 = k')) by done. cbn.
      destruct (bool_decide (k0 = k)); [done|apply IH].
Qed.

End MapKeys.

Section NodeFacts.

Import Node.

Variable base64_decode : string -> list byte.
Variable base64_encode : list byte -> string.
Variable sha1_hex : list byte -> string.

(** A handler that leaves [outside_requests] and the keys of the peer map
    alone keeps a consistent state consistent. *)
Lemma consistent_frame (s s' : t) :
  outside_requests s' = outside_requests s ->
  JSMap.keys (knownPeers s') = JSMap.keys (knownPeers s) ->
  Report.consistent s -> Report.consistent s'.
Proof.
  intros Hf Hk [H1 H2 H3 H4].
  pose proof (has_same_keys (id s) _ _ Hk) as Hhas.
  apply outside_requests_fields in Hf
    as (_ & _ & _ & _ & _ & Hid & Hfm & Hhave & Hmiss & _ & Hsd & _).
  split.
  - rewrite Hsd, Hmiss. exact H1.
  - intros i. rewrite Hhave, Hmiss. apply H2.
  - by rewrite Hid, Hhas.
  - by rewrite Hfm, Hsd.
Qed.

Lemma schedule_loop_keys (peerIds : list string) (s : t) (out : list action) :
  JSMap.keys (knownPeers (fst (schedule_loop peerIds s out)))
  = JSMap.keys (knownPeers s).
Proof.
  revert s out. induction peerIds as [|peerId rest IH]; intros s out;
    cbn [schedule_loop]; [done|].
  destruct (JSMap.get peerId (knownPeers s)) as [peerInfo|]; [|apply IH].
  destruct (Peer.socket peerInfo) as [socket|]; [|apply IH].
  destruct (Peer.busy peerInfo); [apply IH|].
  destruct (pick_piece s (Peer.availablePieces peerInfo)) as [index|]; [|apply IH].
  destruct (sendRequest_frame s socket index) as (_ & _ & Hk).
  destruct (_sendRequest s socket index) as [s1 o]. cbn [fst] in Hk.
  lazy beta iota. by rewrite IH.
Qed.

Lemma scheduleRequests_keys (s : t) :
  JSMap.keys (knownPeers (fst (_scheduleRequests s))) = JSMap.keys (knownPeers s).
Proof.
  unfold _scheduleRequests. destruct (_ || _); [done|]. apply schedule_loop_keys.
Qed.

Lemma scheduleRequests_consistent (s : t) :
  Report.consistent s -> Report.consistent (fst (_scheduleRequests s)).
Proof.
  apply consistent_frame; [apply scheduleRequests_frame|apply scheduleRequests_keys].
Qed.

Lemma update_peer_consistent (pid : string) (f : Peer.t -> Peer.t) (s : t) :
  Report.consistent s -> Report.consistent (update_peer pid f s).
Proof.
  apply consistent_frame; [done|]. unfold update_peer. cbn -[JSMap.keys JSMap.alter].
  apply keys_alter.
Qed.

Lemma handshake_reply_keys (s : t) (socket : SocketRef) (remoteId : string)
    (remotePort : N) :
  JSMap.keys (knownPeers (fst (handshake_reply s socket remoteId remotePort)))
  = JSMap.keys (knownPeers s).
Proof.
  unfold handshake_reply, _sendHandshake.
  destruct (negb _ && negb _); cbn -[JSMap.keys JSMap.alter].
  - destruct (known_peer_of s socket); cbn -[JSMap.keys JSMap.alter];
      by rewrite !keys_alter.
  - by rewrite keys_alter.
Qed.

(** What a handshake can do to the fields the invariants speak of. *)
Lemma handleHandshake_effect (s s' : t) (socket : SocketRef)
    (message : Wire.handshake) (now : N) (out : list action) :
  _handleHandshake s socket message now = Returns s' out
  \/ _handleHandshake s socket message now = Throws s' out ->
  id s' = id s
  /\ isSeed s' = isSeed s
  /\ Manager.mode (fileManager s') = Manager.mode (fileManager s)
  /\ (JSMap.has (id s) (knownPeers s) = false ->
      JSMap.has (id s) (knownPeers s') = false)
  /\ ((fileManager s' = fileManager s /\ havePieces s' = havePieces s
       /\ missingPieces s' = missingPieces s
       /\ fileName s' = fileName s /\ fileSize s' = fileSize s
       /\ fileHash s' = fileHash s /\ pieceSize s' = pieceSize s
       /\ numPieces s' = numPieces s)
      \/ (isSeed s = false /\ havePieces s' = [])).
Proof.
  unfold _handleHandshake.
  destruct (decide (Wire.id message = id s)) as [Heq|Hne].
  { rewrite bool_decide_eq_true_2 by done. intros [[= <- _]|[=]]. tauto. }
  rewrite bool_decide_eq_false_2 by done.
  set (s1 := assign_peerId socket _ _).
  assert (Hs1 : outside_requests s1
                = (port s, fileName s, fileSize s, fileHash s, pieceSize s,
                   numPieces s, id s, fileManager s, havePieces s,
                   missingPieces s, progressInterval s, startTime s, isSeed s,
                   bytesDownloaded s, sockets s1)
                /\ (JSMap.has (id s) (knownPeers s) = false ->
                    JSMap.has (id s) (knownPeers s1) = false)).
  { subst s1. destruct (JSMap.has _ _) eqn:Hhas; (split; [done|]).
    - cbn -[JSMap.has JSMap.alter]. intros Hno.
      rewrite (has_same_keys _ _ _ (keys_alter _ _ _)). done.
    - cbn -[JSMap.has JSMap.set]. intros Hno. rewrite has_set, Hno.
      by rewrite bool_decide_eq_false_2 by congruence. }
  destruct Hs1 as [Hs1 Hhas1]. clearbody s1. unfold outside_requests in Hs1.
  injection Hs1 as _ Hname1 Hsize1 Hhash1 Hps1 Hnp1 Hid1 Hfm1 Hhave1 Hmiss1 _ _
    Hseed1 _.
  rewrite Hseed1.
  assert (Hreply : forall s2 s3 o3,
            handshake_reply s2 socket (Wire.id message) (Wire.port message) = (s3, o3) ->
            outside_requests s3 = outside_requests s2
            /\ JSMap.keys (knownPeers s3) = JSMap.keys (knownPeers s2)).
  { intros s2 s3 o3 Hr.
    pose proof (handshake_reply_frame s2 socket (Wire.id message) (Wire.port message))
      as [Hf _].
    pose proof (handshake_reply_keys s2 socket (Wire.id message) (Wire.port message))
      as Hk. rewrite Hr in Hf, Hk. done. }
  destruct (isSeed s) eqn:Hseed.
  - destruct (_ && _ && _).
    + intros [[= <- _]|[=]]. cbn -[JSMap.has JSMap.delete].
      rewrite Hid1, Hseed1, Hfm1, Hhave1, Hmiss1, Hname1, Hsize1, Hhash1, Hps1, Hnp1.
      repeat split; try done.
      * intros Hno. by apply has_delete_false, Hhas1.
      * left. done.
    + destruct (handshake_reply s1 _ _ _) as [s3 o3] eqn:Hr.
      destruct (Hreply _ _ _ Hr) as [Hf Hk].
      apply outside_requests_fields in Hf
        as (Hname & Hsize & Hhash & Hps & Hnp & Hid3 & Hfm & Hhave & Hmiss & _ & Hsd & _).
      intros [[= <- _]|[=]].
      rewrite Hid3, Hsd, Hfm, Hhave, Hmiss, Hname, Hsize, Hhash, Hps, Hnp.
      rewrite Hid1, Hseed1, Hfm1, Hhave1, Hmiss1, Hname1, Hsize1, Hhash1, Hps1, Hnp1.
      repeat split; try done.
      * intros Hno. rewrite (has_same_keys _ _ _ Hk). by apply Hhas1.
      * left. done.
  - destruct (JS.or_null_string (Wire.fileHash message)) as [h|].
    + destruct (JS.loop_indices _) as [idxs|]; [|intros [[=]|[=]]].
      destruct (Manager.setSize _ _) as [fm settled] eqn:Hset.
      assert (Hmode : Manager.mode fm = Manager.mode (fileManager s)).
      { revert Hset. unfold Manager.setSize. cbn. rewrite Hfm1.
        destruct (Manager.fileHandle _); [|by intros [= <- _]].
        destruct (JS.or_null_number _); [|by intros [= <- _]].
        destruct (Manager.mode _); by intros [= <- _]. }
      destruct settled as [[]|].
      * set (s2 := set_progress _ _ _ _ _).
        destruct (handshake_reply s2 _ _ _) as [s3 o3] eqn:Hr.
        destruct (Hreply _ _ _ Hr) as [Hf Hk].
        apply outside_requests_fields in Hf
          as (_ & _ & _ & _ & _ & Hid3 & Hfm & Hhave & _ & _ & Hsd & _).
        intros [[= <- _]|[=]]. rewrite Hid3, Hsd, Hfm, Hhave.
        subst s2. cbn -[JSMap.has]. rewrite Hid1, Hseed1.
        repeat split; try done.
        -- intros Hno. rewrite (has_same_keys _ _ _ Hk). by apply Hhas1.
        -- right. done.
      * intros [[=]|[= <- _]]. cbn -[JSMap.has]. rewrite Hid1, Hseed1.
        repeat split; try done. right. done.
    + intros [[= <- _]|[=]]. cbn -[JSMap.has JSMap.delete].
      rewrite Hid1, Hseed1, Hfm1, Hhave1, Hmiss1, Hname1, Hsize1, Hhash1, Hps1, Hnp1.
      repeat split; try done.
      * intros Hno. by apply has_delete_false, Hhas1.
      * left. done.
Qed.

Lemma writePiece_mode (m : Manager.t) (index : N) (data : list byte) :
  Manager.mode (fst (Manager.writePiece m index data)) = Manager.mode m
  /\ (Manager.mode m = Manager.r -> fst (Manager.writePiece m index data) = m).
Proof.
  unfold Manager.writePiece. destruct (Manager.fileHandle m); [|done].
  destruct (bool_decide _); [done|]. by destruct (Manager.mode m) eqn:Hm.
Qed.

Lemma after_piece_effect (s : t) :
  id (fst (after_piece s)) = id s
  /\ JSMap.keys (knownPeers (fst (after_piece s))) = JSMap.keys (knownPeers s)
  /\ (fileName (fst (after_piece s)), fileSize (fst (after_piece s)),
      fileHash (fst (after_piece s)), pieceSize (fst (after_piece s)),
      numPieces (fst (after_piece s)))
     = (fileName s, fileSize s, fileHash s, pieceSize s, numPieces s)
  /\ ((missingPieces s = ∅ /\ isSeed (fst (after_piece s)) = true)
      \/ (missingPieces s <> ∅ /\ isSeed (fst (after_piece s)) = isSeed s)).
Proof.
  unfold after_piece. case_bool_decide as Hm.
  - cbn. repeat split; try done. by left.
  - destruct (scheduleRequests_frame s) as (Hf & _).
    apply outside_requests_fields in Hf
      as (-> & -> & -> & -> & -> & -> & _ & _ & _ & _ & -> & _).
    split; [done|]. split; [apply scheduleRequests_keys|]. split; [done|]. by right.
Qed.

Lemma set_add_inv (x y : N) (l : list N) : x ∈ JS.set_add y l -> x = y \/ x ∈ l.
Proof.
  unfold JS.set_add. destruct (JS.set_has y l); [by right|].
  intros [?|Hx%list_elem_of_singleton]%elem_of_app; [by right|by left].
Qed.

(** What a piece message can do. *)
Lemma handlePiece_effect (s : t) (socket : SocketRef) (index : N) (data : string) :
  let s' := fst (_handlePiece base64_decode s socket index data) in
  id s' = id s
  /\ (isSeed s = true -> isSeed s' = true)
  /\ (Report.consistent s -> Report.consistent s')
  /\ (Manager.mode (fileManager s) = Manager.r -> fileManager s' = fileManager s)
  /\ (fileName s', fileSize s', fileHash s', pieceSize s', numPieces s')
     = (fileName s, fileSize s, fileHash s, pieceSize s, numPieces s).
Proof.
  clear base64_encode sha1_hex.
  intros s'. subst s'. unfold _handlePiece.
  destruct (writePiece_mode (fileManager s) index (base64_decode data)) as [Hmode Hro].
  destruct (Manager.writePiece _ _ _) as [fm [[]|]]; [|done]. cbn [fst] in Hmode, Hro.
  set (s0 := set_fileManager fm s).
  set (s1 := record_piece s0 socket index (base64_decode data)).
  destruct (record_piece_pieces s0 socket index (base64_decode data))
    as (Hh & Hm & _ & _ & Hfm & Hsd).
  destruct (record_piece_peers s0 socket index (base64_decode data)) as [_ Hpeers].
  assert (Hmeta : (fileName s1, fileSize s1, fileHash s1, pieceSize s1, numPieces s1, id s1)
                  = (fileName s, fileSize s, fileHash s, pieceSize s, numPieces s, id s)).
  { subst s1 s0. unfold record_piece. cbn. by destruct (known_peer_of _ socket). }
  assert (Hkeys : JSMap.keys (knownPeers s1) = JSMap.keys (knownPeers s)).
  { fold s1 in Hpeers. rewrite Hpeers.
    destruct (known_peer_of s0 socket); [apply keys_alter|done]. }
  fold s1 in Hh, Hm, Hfm, Hsd. clear Hpeers. clearbody s1. cbn in Hh, Hm, Hfm, Hsd.
  injection Hmeta as Hname Hsize Hhash Hps Hnp Hid.
  destruct (after_piece_effect s1) as (Hid' & Hkeys' & Hmeta' & Hseed').
  destruct (after_piece_pieces s1) as (Hh' & Hm' & _ & _ & Hfm').
  destruct (after_piece s1) as [s2 o2].
  cbn [fst] in Hid', Hkeys', Hmeta', Hseed', Hh', Hm', Hfm' |- *.
  injection Hmeta' as Hname' Hsize' Hhash' Hps' Hnp'.
  split; [congruence|]. split; [|split; [|split]].
  - intros Hs. destruct Hseed' as [[_ ->]|[_ ->]]; congruence.
  - intros [H1 H2 H3 H4]. split.
    + intros Hs2. rewrite Hm'. destruct Hseed' as [[Hempty _]|[Hne Heq]]; [done|].
      exfalso. apply Hne. rewrite Hm, H1 by congruence. set_solver.
    + intros i. rewrite Hh', Hm', Hh, Hm. intros [->|Hi]%set_add_inv; [set_solver|].
      specialize (H2 i Hi). set_solver.
    + rewrite Hid', Hid, (has_same_keys _ _ _ Hkeys'), (has_same_keys _ _ _ Hkeys).
      exact H3.
    + rewrite Hfm', Hfm, Hmode. intros Hr. specialize (H4 Hr).
      destruct Hseed' as [[_ ->]|[_ ->]]; congruence.
  - intros Hr. rewrite Hfm', Hfm. by apply Hro.
  - congruence.
Qed.

Lemma handlePeers_effect (s : t) (peersList : list Wire.peer) :
  outside_requests (fst (_handlePeers s peersList)) = outside_requests s
  /\ (JSMap.has (id s) (knownPeers s) = false ->
      JSMap.has (id s) (knownPeers (fst (_handlePeers s peersList))) = false).
Proof.
  revert s. induction peersList as [|peer rest IH]; intros s; [done|].
  cbn [_handlePeers].
  destruct (decide (Wire.peer_id peer = id s)) as [Heq|Hne].
  { rewrite bool_decide_eq_true_2 by done. apply IH. }
  rewrite bool_decide_eq_false_2 by done.
  destruct (JSMap.has _ _); [apply IH|].
  set (s1 := set_knownPeers _ s).
  destruct (IH s1) as [Hf Hhas].
  destruct (_handlePeers s1 rest) as [s2 o2]. cbn [fst] in *.
  split; [by rewrite Hf|]. intros Hno. apply Hhas. subst s1.
  cbn -[JSMap.has JSMap.set]. rewrite has_set, Hno.
  by rewrite bool_decide_eq_false_2 by congruence.
Qed.

Lemma foldl_set_add_elem (x : N) (xs l : list N) :
  x ∈ foldl (fun h i => JS.set_add i h) l xs -> x ∈ l \/ x ∈ xs.
Proof.
  revert l. induction xs as [|y xs IH]; intros l; cbn; [by left|].
  intros [[->|?]%set_add_inv|?]%IH; [right; left|by left|by right; right].
Qed.

(** Every callback keeps a consistent state consistent, keeps the id of
    the node, and never takes the seed status away. *)
Lemma handle_effect (s s' : t) (e : event) :
  handle base64_decode base64_encode sha1_hex s e = Some s' ->
  id s' = id s
  /\ (isSeed s = true -> isSeed s' = true)
  /\ (Report.consistent s -> Report.consistent s').
Proof.
  destruct e as [disk| |k a|k a|k m now|k]; cbn [handle].
  - unfold opened. cbn. destruct (isSeed s) eqn:Hseed.
    + destruct (JS.loop_indices _) as [idxs|]; [|done]. intros [= <-]. cbn.
      split; [done|]. split; [done|]. intros [H1 H2 H3 H4]. split; cbn; try done.
      intros i _. rewrite H1 by done. set_solver.
    + intros [= <-]. split; [done|]. split; [done|].
      intros [H1 H2 H3 H4]. split; cbn; try done.
      unfold Manager.openFile. intros Hr. apply H4. revert Hr.
      by destruct (Manager.mode (fileManager s)).
  - intros [= <-]. destruct (isSeed s) eqn:Hseed; [|done].
    unfold hashed. destruct (Manager.fileHandle _); [|done].
    split; [done|]. split; [done|]. by intros [H1 H2 H3 H4].
  - intros [= <-]. split; [done|]. split; [done|]. by intros [H1 H2 H3 H4].
  - intros [= <-]. unfold connected, _sendHandshake.
    destruct (known_peer_of _ _); cbn [fst].
    + split; [done|]. split; [done|]. intros Hc. apply update_peer_consistent.
      by destruct Hc.
    + split; [done|]. split; [done|]. by intros [H1 H2 H3 H4].
  - destruct m as [h|pieces|index|index data|index|peers];
      cbn [_handleMessage returns].
    + destruct (_handleHandshake s k h now) as [s1 o|s1 o|] eqn:Hh; [| |done].
      all: intros [= <-].
      all: destruct (handleHandshake_effect s s1 k h now o) as (Hid & Hsd & Hmode & Hhas & Hcase);
        [by (left + right)|].
      all: split; [done|]; split; [congruence|]; intros [H1 H2 H3 H4]; split.
      all: try (rewrite Hid; by apply Hhas).
      all: try (rewrite Hmode, Hsd; exact H4).
      all: try (rewrite Hsd; intros Hs; destruct Hcase as [(_ & _ & -> & _)|[Hf _]];
                [by apply H1|congruence]).
      all: intros i; destruct Hcase as [(_ & -> & -> & _)|[_ ->]];
        [apply H2|by intros ?%elem_of_nil].
    + intros [= <-]. unfold _handleBitfield. destruct (known_peer_of s k); [|done].
      pose proof (scheduleRequests_frame
                    (update_peer s0 (Peer.set_availablePieces (JS.set_of_array pieces)) s))
        as [Hf _].
      apply outside_requests_fields in Hf
        as (_ & _ & _ & _ & _ & Hid & _ & _ & _ & _ & Hsd & _).
      split; [by rewrite Hid|]. split; [by rewrite Hsd|].
      intros Hc. by apply scheduleRequests_consistent, update_peer_consistent.
    + intros [= <-]. by rewrite handleRequest_inv.
    + intros [= <-].
      destruct (handlePiece_effect s k index data) as (Hid & Hsd & Hc & _). done.
    + intros [= <-]. unfold _handleHave. destruct (known_peer_of s k); [|done].
      set (s1 := update_peer _ _ s).
      destruct (_ && _ && _).
      * pose proof (scheduleRequests_frame s1) as [Hf _].
        apply outside_requests_fields in Hf
          as (_ & _ & _ & _ & _ & Hid & _ & _ & _ & _ & Hsd & _).
        split; [by rewrite Hid|]. split; [by rewrite Hsd|].
        intros Hc. by apply scheduleRequests_consistent, update_peer_consistent.
      * split; [done|]. split; [done|]. apply update_peer_consistent.
    + intros [= <-]. destruct (handlePeers_effect s peers) as [Hf Hhas].
      apply outside_requests_fields in Hf
        as (_ & _ & _ & _ & _ & Hid & Hfm & Hhave & Hmiss & _ & Hsd & _).
      split; [done|]. split; [by rewrite Hsd|]. intros [H1 H2 H3 H4]. split.
      * by rewrite Hsd, Hmiss.
      * intros i. rewrite Hhave, Hmiss. apply H2.
      * rewrite Hid. by apply Hhas.
      * by rewrite Hfm, Hsd.
  - intros [= <-]. unfold closed.
    set (s0 := match known_peer_of s k with Some _ => _ | None => _ end).
    assert (Hs0 : id s0 = id s /\ isSeed s0 = isSeed s
                  /\ (Report.consistent s -> Report.consistent s0)).
    { subst s0. destruct (known_peer_of s k) as [pid|]; [|done].
      split; [done|]. split; [done|]. apply update_peer_consistent. }
    destruct Hs0 as (Hid0 & Hsd0 & Hc0). clearbody s0.
    set (s1 := set_pieces _ _ _ s0).
    pose proof (scheduleRequests_frame s1) as [Hf _].
    apply outside_requests_fields in Hf
      as (_ & _ & _ & _ & _ & Hid & _ & _ & _ & _ & Hsd & _).
    split; [by rewrite Hid|]. split; [by rewrite Hsd, <- Hsd0|].
    intros Hc. apply scheduleRequests_consistent.
    destruct (Hc0 Hc) as [H1 H2 H3 H4]. by split.
Qed.

Lemma reachable_consistent (s : t) :
  reachable base64_decode base64_encode sha1_hex s -> Report.consistent s.
Proof.
  induction 1 as [port basename randomId exists_|s e s' _ IH Hstep].
  - split; cbn.
    + done.
    + intros i Hi. by apply elem_of_nil in Hi.
    + done.
    + by destruct exists_.
  - by apply (handle_effect s s' e Hstep).
Qed.

End NodeFacts.

Lemma requesting_reachable :
  Node.reachable (fun _ => []) (fun _ => "") (fun _ => "") Sample.requesting.
Proof.
  apply (reachable_run _ _ _
           (Node.constructor 6882 "out.bin" "00000000000000aa" false)
           Sample.requesting Sample.requesting_events).
  - apply Node.reach_new.
  - vm_compute. reflexivity.
Qed.

Section NodeInvariants.

Import Node.

Variable base64_decode : string -> list byte.
Variable base64_encode : list byte -> string.
Variable sha1_hex : list byte -> string.

(** X5.  In every state of a node no piece index is both held and
    missing. *)
Theorem have_missing_disjoint (s : t) (index : N) :
  reachable base64_decode base64_encode sha1_hex s ->
  index ∈ havePieces s -> index ∉ missingPieces s.
Proof.
  intros Hr%reachable_consistent. apply (Report.have_not_missing s Hr).
Qed.

(** X6.  A node that started on a file it found, and so has it open
    read-only, never misses a piece and never has a request pending. *)
Theorem started_seed_misses_nothing (s : t) :
  reachable base64_decode base64_encode sha1_hex s ->
  Manager.mode (fileManager s) = Manager.r ->
  missingPieces s = ∅ /\ pendingPieces s = ∅.
Proof.
  intros Hr Hmode.
  pose proof (reachable_consistent _ _ _ s Hr) as Hc.
  pose proof (Report.seed_complete s Hc (Report.read_only_seed s Hc Hmode)) as Hm.
  split; [done|].
  assert (Hsub : pendingPieces s ⊆ missingPieces s).
  { clear Hmode Hc Hm. induction Hr as [| s e s' _ IH Hstep]; [done|].
    by apply (handle_inv base64_decode base64_encode sha1_hex s s' e). }
  rewrite Hm in Hsub. clear -Hsub. set_solver.
Qed.

(** X7.  A node never has a record of itself: in every state its own id
    is not a key of [knownPeers]. *)
Theorem own_id_never_known (s : t) :
  reachable base64_decode base64_encode sha1_hex s ->
  JSMap.has (id s) (knownPeers s) = false.
Proof.
  intros Hr%reachable_consistent. apply (Report.self_unknown s Hr).
Qed.

(** X8.  No callback changes the id of the node, and none takes the seed
    status away: once a seed, always a seed. *)
Theorem seed_for_good (s s' : t) (e : event) :
  handle base64_decode base64_encode sha1_hex s e = Some s' ->
  id s' = id s /\ (isSeed s = true -> isSeed s' = true).
Proof.
  intros Hstep.
  destruct (handle_effect base64_decode base64_encode sha1_hex s s' e Hstep)
    as (Hid & Hseed & _).
  done.
Qed.

End NodeInvariants.

Lemma have_missing_disjoint_witness :
  0 ∉ Node.missingPieces
        (default Sample.leecher
           (Node.run (fun _ => [x61; x62]) (fun _ => "") (fun _ => "")
              Sample.last_request
              [Node.Received Sample.socket1 (Wire.Piece 0 "YWI=") 0])).
Proof.
  apply (have_missing_disjoint (fun _ => [x61; x62]) (fun _ => "") (fun _ => "")).
  - apply (reachable_run _ _ _
             (Node.constructor 6882 "out.bin" "00000000000000aa" false) _
             [Node.Opened []; Node.Accepted Sample.socket1 "10.0.0.1";
              Node.Received Sample.socket1 (Wire.Handshake Sample.one_piece_handshake) 0;
              Node.Received Sample.socket1 (Wire.Bitfield [0]) 0;
              Node.Received Sample.socket1 (Wire.Piece 0 "YWI=") 0]).
    + apply Node.reach_new.
    + vm_compute. reflexivity.
  - apply (bool_decide_unpack _). vm_compute. exact I.
Defined.

Lemma started_seed_misses_nothing_witness :
  Node.missingPieces Sample.seed = ∅ /\ Node.pendingPieces Sample.seed = ∅.
Proof.
  apply (started_seed_misses_nothing (fun _ => []) (fun _ => "") (fun _ => "da39a3ee")).
  - apply (reachable_run _ _ _
             (Node.constructor 6881 "in.bin" "ffffffffffffffff" true)
             Sample.seed [Node.Opened [x61; x62; x63]; Node.Hashed]).
    + apply Node.reach_new.
    + vm_compute. reflexivity.
  - vm_compute. reflexivity.
Defined.

Lemma own_id_never_known_witness :
  JSMap.has (Node.id Sample.requesting) (Node.knownPeers Sample.requesting) = false.
Proof.
  apply (own_id_never_known (fun _ => []) (fun _ => "") (fun _ => "")).
  exact requesting_reachable.
Defined.

Lemma seed_for_good_witness :
  Node.isSeed
    (default Sample.seed
       (Node.handle (fun _ => []) (fun _ => "") (fun _ => "") Sample.seed
          (Node.Closed Sample.socket1)))
  = true.
Proof.
  destruct (seed_for_good (fun _ => []) (fun _ => "") (fun _ => "") Sample.seed
              (default Sample.seed
                 (Node.handle (fun _ => []) (fun _ => "") (fun _ => "") Sample.seed
                    (Node.Closed Sample.socket1)))
              (Node.Closed Sample.socket1)) as [_ Hseed].
  - vm_compute. reflexivity.
  - apply Hseed. vm_compute. reflexivity.
Defined.

Section SeedFacts.

Import Node.

Variable base64_decode : string -> list byte.
Variable base64_encode : list byte -> string.
Variable sha1_hex : list byte -> string.

(** What a message can do to a seed. *)
Lemma seed_message_effect (s s' : t) (socket : SocketRef) (message : Wire.message)
    (now : N) :
  isSeed s = true ->
  handle base64_decode base64_encode sha1_hex s (Received socket message now)
  = Some s' ->
  (fileName s', fileSize s', fileHash s', pieceSize s', numPieces s')
  = (fileName s, fileSize s, fileHash s, pieceSize s, numPieces s)
  /\ (Manager.mode (fileManager s) = Manager.r -> fileManager s' = fileManager s).
Proof.
  intros Hseed. cbn [handle].
  destruct message as [h|pieces|index|index data|index|peers];
    cbn [_handleMessage returns].
  - destruct (_handleHandshake s socket h now) as [s1 o|s1 o|] eqn:Hh; [| |done].
    all: intros [= <-].
    all: destruct (handleHandshake_effect s s1 socket h now o)
        as (_ & _ & _ & _ & [(-> & _ & _ & -> & -> & -> & -> & ->)|[Hf _]]);
      [by (left + right)|done|congruence].
  - intros [= <-]. unfold _handleBitfield. destruct (known_peer_of s socket); [|done].
    pose proof (scheduleRequests_frame
                  (update_peer s0 (Peer.set_availablePieces (JS.set_of_array pieces)) s))
      as [Hf _].
    apply outside_requests_fields in Hf
      as (-> & -> & -> & -> & -> & _ & -> & _). done.
  - intros [= <-]. by rewrite handleRequest_inv.
  - intros [= <-].
    destruct (handlePiece_effect base64_decode s socket index data)
      as (_ & _ & _ & Hfm & Hmeta). done.
  - intros [= <-]. unfold _handleHave. destruct (known_peer_of s socket); [|done].
    set (s1 := update_peer _ _ s). destruct (_ && _ && _); [|done].
    pose proof (scheduleRequests_frame s1) as [Hf _].
    apply outside_requests_fields in Hf
      as (-> & -> & -> & -> & -> & _ & -> & _). done.
  - intros [= <-]. destruct (handlePeers_effect s peers) as [Hf _].
    apply outside_requests_fields in Hf
      as (-> & -> & -> & -> & -> & _ & -> & _). done.
Qed.

(** X9.  No message changes the metadata of a seed: [fileName],
    [fileSize], [fileHash], [pieceSize] and [numPieces] are, after any
    message on any socket, what they were. *)
Theorem seed_metadata_fixed (s s' : t) (socket : SocketRef) (message : Wire.message)
    (now : N) :
  isSeed s = true ->
  handle base64_decode base64_encode sha1_hex s (Received socket message now)
  = Some s' ->
  fileName s' = fileName s /\ fileSize s' = fileSize s /\ fileHash s' = fileHash s
  /\ pieceSize s' = pieceSize s /\ numPieces s' = numPieces s.
Proof.
  intros Hseed Hstep.
  destruct (seed_message_effect s s' socket message now Hseed Hstep) as [Hmeta _].
  injection Hmeta as -> -> -> -> ->. done.
Qed.

(** X10.  A node that opened its file read-only never writes to it: in
    every state whose file manager is in mode ['r'], no message on any
    socket changes the file manager, the content of the file included. *)
Theorem read_only_file_untouched (s s' : t) (socket : SocketRef)
    (message : Wire.message) (now : N) :
  reachable base64_decode base64_encode sha1_hex s ->
  Manager.mode (fileManager s) = Manager.r ->
  handle base64_decode base64_encode sha1_hex s (Received socket message now)
  = Some s' ->
  fileManager s' = fileManager s.
Proof.
  intros Hr Hmode Hstep.
  pose proof (Report.read_only_seed s (reachable_consistent _ _ _ s Hr) Hmode) as Hseed.
  destruct (seed_message_effect s s' socket message now Hseed Hstep) as [_ Hfm].
  by apply Hfm.
Qed.

End SeedFacts.

Lemma seed_metadata_fixed_witness :
  Node.fileHash
    (default Sample.seed
       (Node.handle (fun _ => []) (fun _ => "") (fun _ => "") Sample.seed
          (Node.Received Sample.socket1 (Wire.Handshake Sample.small_handshake) 0)))
  = Node.fileHash Sample.seed.
Proof.
  destruct (seed_metadata_fixed (fun _ => []) (fun _ => "") (fun _ => "") Sample.seed
              (default Sample.seed
                 (Node.handle (fun _ => []) (fun _ => "") (fun _ => "") Sample.seed
                    (Node.Received Sample.socket1
                       (Wire.Handshake Sample.small_handshake) 0)))
              Sample.socket1 (Wire.Handshake Sample.small_handshake) 0)
    as (_ & _ & Hhash & _).
  - vm_compute. reflexivity.
  - vm_compute. reflexivity.
  - exact Hhash.
Defined.

Lemma read_only_file_untouched_witness :
  Node.fileManager
    (default Sample.seed
       (Node.handle (fun _ => [x41]) (fun _ => "") (fun _ => "da39a3ee") Sample.seed
          (Node.Received Sample.socket1 (Wire.Piece 0 "QQ==") 0)))
  = Node.fileManager Sample.seed.
Proof.
  apply (read_only_file_untouched (fun _ => [x41]) (fun _ => "") (fun _ => "da39a3ee")
           Sample.seed _ Sample.socket1 (Wire.Piece 0 "QQ==") 0).
  - apply (reachable_run _ _ _
             (Node.constructor 6881 "in.bin" "ffffffffffffffff" true)
             Sample.seed [Node.Opened [x61; x62; x63]; Node.Hashed]).
    + apply Node.reach_new.
    + vm_compute. reflexivity.
  - vm_compute. reflexivity.
  - vm_compute. reflexivity.
Defined.

(** ** Each peer is known once *)

Section KeysOnce.

Import Node.

Variable base64_decode : string -> list byte.
Variable base64_encode : list byte -> string.
Variable sha1_hex : list byte -> string.

Lemma keys_set {V} (k : string) (v : V) (m : list (string * V)) :
  JSMap.keys (JSMap.set k v m)
  = if JSMap.has k m then JSMap.keys m else JSMap.keys m ++ [k].
Proof.
  unfold JSMap.has, JSMap.keys. induction m as [|[k' v'] m IH]; cbn; [done|].
  case_bool_decide as Hk; cbn; [done|]. rewrite IH.
  by destruct (JSMap.get k m).
Qed.

Lemma keys_once_set {V} (k : string) (v : V) (m : list (string * V)) :
  NoDup (JSMap.keys m) -> NoDup (JSMap.keys (JSMap.set k v m)).
Proof.
  intros Hm. rewrite keys_set. destruct (JSMap.has k m) eqn:Hhas; [done|].
  rewrite has_keys in Hhas. apply bool_decide_eq_false_1 in Hhas.
  apply NoDup_app. split; [done|]. split; [|apply NoDup_singleton].
  intros x Hx ->%list_elem_of_singleton. done.
Qed.

Lemma keys_delete_elem {V} (k x : string) (m : list (string * V)) :
  x ∈ JSMap.keys (JSMap.delete k m) -> x ∈ JSMap.keys m.
Proof.
  unfold JSMap.keys. induction m as [|[k' v'] m IH]; cbn; [done|].
  case_bool_decide as Hk; cbn.
  - intros Hx. right. by apply IH.
  - intros [->|Hx]%elem_of_cons; [by left|right; by apply IH].
Qed.

Lemma keys_once_delete {V} (k : string) (m : list (string * V)) :
  NoDup (JSMap.keys m) -> NoDup (JSMap.keys (JSMap.delete k m)).
Proof.
  induction m as [|[k' v'] m IH]; cbn; [done|].
  intros [Hnew Hm]%NoDup_cons. case_bool_decide as Hk; cbn; [by apply IH|].
  apply NoDup_cons. split; [|by apply IH].
  intros Hin. apply Hnew. by apply (keys_delete_elem k).
Qed.

Lemma handleHandshake_keys_once (s s' : t) (socket : SocketRef)
    (message : Wire.handshake) (now : N) (out : list action) :
  NoDup (JSMap.keys (knownPeers s)) ->
  _handleHandshake s socket message now = Returns s' out
  \/ _handleHandshake s socket message now = Throws s' out ->
  NoDup (JSMap.keys (knownPeers s')).
Proof.
  intros Hk. unfold _handleHandshake.
  destruct (bool_decide (Wire.id message = id s)).
  { by intros [[= <- _]|[=]]. }
  set (s1 := assign_peerId socket _ _).
  assert (Hk1 : NoDup (JSMap.keys (knownPeers s1))).
  { subst s1. destruct (JSMap.has _ _).
    - cbn -[JSMap.keys JSMap.alter]. by rewrite keys_alter.
    - cbn -[JSMap.keys JSMap.set]. by apply keys_once_set. }
  clearbody s1.
  assert (Hreply : forall s2 s3 o3,
            handshake_reply s2 socket (Wire.id message) (Wire.port message) = (s3, o3) ->
            JSMap.keys (knownPeers s3) = JSMap.keys (knownPeers s2)).
  { intros s2 s3 o3 Hr.
    pose proof (handshake_reply_keys s2 socket (Wire.id message) (Wire.port message))
      as Hkeys. by rewrite Hr in Hkeys. }
  destruct (isSeed s1).
  - destruct (_ && _ && _).
    + intros [[= <- _]|[=]]. cbn -[JSMap.keys JSMap.delete]. by apply keys_once_delete.
    + destruct (handshake_reply s1 _ _ _) as [s3 o3] eqn:Hr.
      intros [[= <- _]|[=]]. by rewrite (Hreply _ _ _ Hr).
  - destruct (JS.or_null_string (Wire.fileHash message)) as [h|].
    + destruct (JS.loop_indices _) as [idxs|]; [|intros [[=]|[=]]].
      cbn. destruct (Manager.setSize _ _) as [fm [[]|]].
      * set (s2 := set_progress _ _ _ _ _).
        destruct (handshake_reply s2 _ _ _) as [s3 o3] eqn:Hr.
        intros [[= <- _]|[=]]. rewrite (Hreply _ _ _ Hr). subst s2. by cbn.
      * intros [[=]|[= <- _]]. by cbn.
    + intros [[= <- _]|[=]]. cbn -[JSMap.keys JSMap.delete]. by apply keys_once_delete.
Qed.

Lemma handlePeers_keys_once (s : t) (peersList : list Wire.peer) :
  NoDup (JSMap.keys (knownPeers s)) ->
  NoDup (JSMap.keys (knownPeers (fst (_handlePeers s peersList)))).
Proof.
  revert s. induction peersList as [|peer rest IH]; intros s Hk; [done|].
  cbn [_handlePeers]. destruct (bool_decide _); [by apply IH|].
  destruct (JSMap.has _ _); [by apply IH|].
  set (s1 := set_knownPeers _ s).
  assert (Hk1 : NoDup (JSMap.keys (knownPeers s1))).
  { subst s1. cbn -[JSMap.keys JSMap.set]. by apply keys_once_set. }
  clearbody s1. specialize (IH s1 Hk1).
  by destruct (_handlePeers s1 rest).
Qed.

(** No callback makes a key of [knownPeers] appear twice. *)
Lemma handle_keys_once (s s' : t) (e : event) :
  NoDup (JSMap.keys (knownPeers s)) ->
  handle base64_decode base64_encode sha1_hex s e = Some s' ->
  NoDup (JSMap.keys (knownPeers s')).
Proof.
  intros Hk. destruct e as [disk| |k a|k a|k m now|k]; cbn [handle].
  - unfold opened. cbn. destruct (isSeed s).
    + destruct (JS.loop_indices _) as [idxs|]; [|done]. by intros [= <-].
    + by intros [= <-].
  - intros [= <-]. destruct (isSeed s); [|done].
    unfold hashed. by destruct (Manager.fileHandle _).
  - by intros [= <-].
  - intros [= <-]. unfold connected, _sendHandshake.
    destruct (known_peer_of _ _); cbn -[JSMap.keys JSMap.alter]; [|done].
    by rewrite keys_alter.
  - destruct m as [h|pieces|index|index data|index|peers];
      cbn [_handleMessage returns].
    + destruct (_handleHandshake s k h now) as [s1 o|s1 o|] eqn:Hh; [| |done].
      all: intros [= <-].
      all: apply (handleHandshake_keys_once s s1 k h now o Hk); by (left + right).
    + intros [= <-]. unfold _handleBitfield. destruct (known_peer_of s k); [|done].
      rewrite scheduleRequests_keys. cbn -[JSMap.keys JSMap.alter].
      by rewrite keys_alter.
    + intros [= <-]. by rewrite handleRequest_inv.
    + intros [= <-]. unfold _handlePiece.
      destruct (Manager.writePiece _ _ _) as [fm [[]|]]; [|done].
      set (s1 := record_piece _ _ _ _).
      assert (Hk1 : JSMap.keys (knownPeers s1) = JSMap.keys (knownPeers s)).
      { subst s1.
        destruct (record_piece_peers (set_fileManager fm s) k index
                    (base64_decode data)) as [_ ->].
        destruct (known_peer_of _ k); [|done]. cbn -[JSMap.keys JSMap.alter].
        by rewrite keys_alter. }
      destruct (after_piece_effect s1) as (_ & Hk2 & _).
      destruct (after_piece s1) as [s2 o2]. cbn [fst] in *. by rewrite Hk2, Hk1.
    + intros [= <-]. unfold _handleHave. destruct (known_peer_of s k); [|done].
      destruct (_ && _ && _).
      * rewrite scheduleRequests_keys. cbn -[JSMap.keys JSMap.alter].
        by rewrite keys_alter.
      * cbn -[JSMap.keys JSMap.alter]. by rewrite keys_alter.
    + intros [= <-]. by apply handlePeers_keys_once.
  - intros [= <-]. unfold closed. rewrite scheduleRequests_keys.
    destruct (known_peer_of s k); cbn -[JSMap.keys JSMap.alter]; [|done].
    by rewrite keys_alter.
Qed.

(** In every state of a node, [knownPeers] holds each key once, as a
    [Map] does. *)
Lemma reachable_keys_once (s : t) :
  reachable base64_decode base64_encode sha1_hex s ->
  NoDup (JSMap.keys (knownPeers s)).
Proof.
  induction 1 as [| s e s' _ IH Hstep]; [constructor|].
  by apply (handle_keys_once s s' e).
Qed.

End KeysOnce.

(** ** The scheduler, request by request *)

Section SchedulerSpec.

Import Node.

(** [idle s k i]: some record of [s] is connected through socket [k], is
    not busy and has announced piece [i]. *)
Local Abbreviation idle s k i :=
  (exists pid p, JSMap.get pid (knownPeers s) = Some p
                 /\ Peer.socket p = Some k /\ Peer.busy p = false
                 /\ i ∈ Peer.availablePieces p).

Lemma sendRequest_records (s : t) (socket : SocketRef) (index : N) (pid : string)
    (p1 : Peer.t) :
  JSMap.get pid (knownPeers (fst (_sendRequest s socket index))) = Some p1 ->
  exists p, JSMap.get pid (knownPeers s) = Some p
            /\ Peer.socket p1 = Peer.socket p
            /\ Peer.availablePieces p1 = Peer.availablePieces p
            /\ (Peer.busy p1 = false -> Peer.busy p = false).
Proof.
  unfold _sendRequest, known_peer_of. cbn.
  destruct (Socket.peerId (sockets s socket)) as [pid'|]; [|by exists p1].
  destruct (JS.truthy pid' && JSMap.has pid' (knownPeers s)); [|by exists p1].
  cbn. destruct (decide (pid = pid')) as [->|Hne].
  - rewrite get_alter_same. destruct (JSMap.get pid' (knownPeers s)) as [p|]; [|done].
    intros [= <-]. by exists p.
  - rewrite get_alter_other by done. by exists p1.
Qed.

Lemma requests_of_cons_request (k : SocketRef) (i : N) (out : list action) :
  Report.requests_of (Write k (Wire.Request i) :: out) = i :: Report.requests_of out.
Proof. done. Qed.

(** [asked s pid a]: [a] is a request for a piece that is missing and not
    pending in [s], written to the socket of the record of [pid], which in
    [s] is connected, not busy and has announced the piece. *)
Local Abbreviation asked s pid a :=
  (exists p k i, a = Write k (Wire.Request i)
                 /\ i ∈ missingPieces s /\ (i ∉ pendingPieces s)
                 /\ JSMap.get pid (knownPeers s) = Some p
                 /\ Peer.socket p = Some k /\ Peer.busy p = false
                 /\ i ∈ Peer.availablePieces p).

(** One pass of the loop of [_scheduleRequests]: [pids] are the keys at
    which it sends a request, in the order of the loop. *)
Lemma schedule_loop_spec (peerIds : list string) (s : t) (out : list action) :
  exists pids new,
    snd (schedule_loop peerIds s out) = out ++ new
    /\ pids `sublist_of` peerIds
    /\ Forall2 (fun pid a => asked s pid a) pids new
    /\ NoDup (Report.requests_of new)
    /\ pendingPieces (fst (schedule_loop peerIds s out))
       = pendingPieces s ∪ list_to_set (Report.requests_of new)
    /\ forall pid p1,
         JSMap.get pid (knownPeers (fst (schedule_loop peerIds s out))) = Some p1 ->
         exists p, JSMap.get pid (knownPeers s) = Some p
                   /\ Peer.socket p1 = Peer.socket p
                   /\ Peer.availablePieces p1 = Peer.availablePieces p
                   /\ (Peer.busy p1 = false -> Peer.busy p = false).
Proof.
  revert s out. induction peerIds as [|peerId rest IH]; intros s out;
    cbn [schedule_loop].
  { exists [], []. rewrite app_nil_r. cbn. split; [done|]. split; [done|].
    split; [constructor|]. split; [constructor|]. split; [set_solver|].
    intros pid p1 Hp1. by exists p1. }
  assert (Hnext :
    exists pids new,
      snd (schedule_loop rest s out) = out ++ new
      /\ pids `sublist_of` (peerId :: rest)
      /\ Forall2 (fun pid a => asked s pid a) pids new
      /\ NoDup (Report.requests_of new)
      /\ pendingPieces (fst (schedule_loop rest s out))
         = pendingPieces s ∪ list_to_set (Report.requests_of new)
      /\ forall pid p1,
           JSMap.get pid (knownPeers (fst (schedule_loop rest s out))) = Some p1 ->
           exists p, JSMap.get pid (knownPeers s) = Some p
                     /\ Peer.socket p1 = Peer.socket p
                     /\ Peer.availablePieces p1 = Peer.availablePieces p
                     /\ (Peer.busy p1 = false -> Peer.busy p = false)).
  { destruct (IH s out) as (pids & new & H1 & H2 & H3 & H4 & H5 & H6).
    exists pids, new. split; [done|]. split; [by apply sublist_cons|]. done. }
  destruct (JSMap.get peerId (knownPeers s)) as [peerInfo|] eqn:Hget; [|exact Hnext].
  destruct (Peer.socket peerInfo) as [socket|] eqn:Hsock; [|exact Hnext].
  destruct (Peer.busy peerInfo) eqn:Hbusy; [exact Hnext|].
  destruct (pick_piece s (Peer.availablePieces peerInfo)) as [index|] eqn:Hpick;
    [|exact Hnext].
  clear Hnext. apply pick_piece_spec in Hpick as (Havail & Hmiss & Hnpend).
  destruct (sendRequest_frame s socket index) as (Hf & Hpend & _).
  pose proof (sendRequest_records s socket index) as Hrec.
  assert (Hout : snd (_sendRequest s socket index) = [Write socket (Wire.Request index)]).
  { unfold _sendRequest. by destruct (known_peer_of _ _). }
  destruct (_sendRequest s socket index) as [s1 o]. cbn [fst snd] in *. subst o.
  lazy beta iota.
  apply outside_requests_fields in Hf
    as (_ & _ & _ & _ & _ & _ & _ & _ & Hm1 & _).
  destruct (IH s1 (out ++ [Write socket (Wire.Request index)]))
    as (pids & new & H1 & H2 & H3 & H4 & H5 & H6).
  exists (peerId :: pids), (Write socket (Wire.Request index) :: new).
  split; [by rewrite H1, <- app_assoc|].
  assert (Hold : forall i, i ∈ Report.requests_of new -> i <> index).
  { intros i Hi ->. unfold Report.requests_of in Hi.
    apply list_elem_of_omap in Hi as (a & Ha & Hreq).
    apply (Forall2_Forall_r _ (fun a => exists k j, a = Write k (Wire.Request j)
                                        /\ (j ∉ pendingPieces s1))) in H3.
    - rewrite Forall_forall in H3. destruct (H3 a Ha) as (k & j & -> & Hnp).
      injection Hreq as ->. apply Hnp. rewrite Hpend. clear. set_solver.
    - apply Forall_forall. intros pid _ a' (p & k & j & -> & _ & Hnp & _).
      by exists k, j. }
  split; [by apply sublist_skip|]. split; [|split; [|split]].
  - constructor.
    + exists peerInfo, socket, index. done.
    + eapply Forall2_impl; [exact H3|]. cbn.
      intros pid a (p1 & k & i & -> & Hi & Hnp & Hp1 & Hk & Hb & Ha).
      rewrite Hm1 in Hi. rewrite Hpend in Hnp.
      destruct (Hrec pid p1 Hp1) as (p & Hp & Hs & Hav & Hbz).
      exists p, k, i. split; [done|]. split; [done|].
      split; [clear -Hnp; set_solver|]. rewrite <- Hs, <- Hav. auto.
  - rewrite requests_of_cons_request. constructor; [|done].
    intros Hin. by apply (Hold index).
  - rewrite H5, Hpend, requests_of_cons_request. cbn. clear. set_solver.
  - intros pid p2 Hp2. destruct (H6 pid p2 Hp2) as (p1 & Hp1 & Hs1 & Ha1 & Hb1).
    destruct (Hrec pid p1 Hp1) as (p & Hp & Hs & Hav & Hbz).
    exists p. split; [done|]. split; [congruence|]. split; [congruence|]. auto.
Qed.

(** The same for [_scheduleRequests] as a whole. *)
Lemma scheduleRequests_peers (s : t) :
  exists pids,
    pids `sublist_of` JSMap.keys (knownPeers s)
    /\ Forall2 (fun pid a => asked s pid a) pids (snd (_scheduleRequests s))
    /\ NoDup (Report.requests_of (snd (_scheduleRequests s)))
    /\ pendingPieces (fst (_scheduleRequests s))
       = pendingPieces s ∪ list_to_set (Report.requests_of (snd (_scheduleRequests s))).
Proof.
  unfold _scheduleRequests. destruct (_ || _).
  - exists []. cbn. split; [apply sublist_nil_l|]. split; [constructor|].
    split; [constructor|]. set_solver.
  - destruct (schedule_loop_spec (JSMap.keys (knownPeers s)) s [])
      as (pids & new & -> & H2 & H3 & H4 & H5 & _).
    by exists pids.
Qed.

(** What the scheduler requests was missing. *)
Lemma scheduleRequests_requests (s : t) :
  (forall i, i ∈ Report.requests_of (snd (_scheduleRequests s)) -> i ∈ missingPieces s)
  /\ pendingPieces (fst (_scheduleRequests s))
     = pendingPieces s ∪ list_to_set (Report.requests_of (snd (_scheduleRequests s))).
Proof.
  destruct (scheduleRequests_peers s) as (pids & _ & Hall & _ & Hpend).
  split; [|done]. intros i (a & Ha & Hreq)%list_elem_of_omap.
  apply (Forall2_Forall_r _ (fun a => exists k j, a = Write k (Wire.Request j)
                                      /\ j ∈ missingPieces s)) in Hall.
  - rewrite Forall_forall in Hall. destruct (Hall a Ha) as (k & j & -> & Hj).
    by injection Hreq as ->.
  - apply Forall_forall. intros pid _ a' (p & k & j & -> & Hj & _). by exists k, j.
Qed.

End SchedulerSpec.

Section SchedulerFacts.

Import Node.

Variable base64_decode : string -> list byte.
Variable base64_encode : list byte -> string.
Variable sha1_hex : list byte -> string.

(** X11.  What one run of the scheduler writes is [request] messages only,
    at most one per known peer, for pairwise different pieces: the requests
    are, one for one and in the order of the map, those of a selection
    [pids] of the keys of [knownPeers], and in every state of a node no
    peer is selected twice.  The request of a peer is for a piece that was
    missing and not pending and goes to the socket of its record, which was
    connected, not busy and had announced that piece.  Afterwards
    [pendingPieces] is what it was plus the pieces requested. *)
Theorem scheduleRequests_spec (s : t) :
  let s' := fst (_scheduleRequests s) in
  let out := snd (_scheduleRequests s) in
  exists pids,
    pids `sublist_of` JSMap.keys (knownPeers s)
    /\ (reachable base64_decode base64_encode sha1_hex s -> NoDup pids)
    /\ Forall2 (fun pid a =>
                  exists p k i,
                    a = Write k (Wire.Request i)
                    /\ i ∈ missingPieces s /\ (i ∉ pendingPieces s)
                    /\ JSMap.get pid (knownPeers s) = Some p
                    /\ Peer.socket p = Some k /\ Peer.busy p = false
                    /\ i ∈ Peer.availablePieces p) pids out
    /\ NoDup (Report.requests_of out)
    /\ (List.length out <= List.length (knownPeers s))%nat
    /\ pendingPieces s' = pendingPieces s ∪ list_to_set (Report.requests_of out).
Proof.
  intros s' out. subst s' out.
  destruct (scheduleRequests_peers s) as (pids & Hsub & Hall & Hnd & Hpend).
  exists pids. split; [done|].
  split; [intros Hk%reachable_keys_once; by apply (sublist_NoDup _ _ Hk)|].
  split; [done|]. split; [done|]. split; [|done].
  rewrite <- (Forall2_length _ _ _ Hall). apply sublist_length in Hsub.
  unfold JSMap.keys in Hsub. by rewrite length_map in Hsub.
Qed.

(** X12.  When a connection closes, every pending request is given up:
    after the ['close'] listener, the pending pieces are exactly those it
    has just requested again, all of them missing. *)
Theorem closed_releases_pending (s : t) (socket : SocketRef) :
  pendingPieces (fst (closed s socket))
  = list_to_set (Report.requests_of (snd (closed s socket)))
  /\ forall i, i ∈ Report.requests_of (snd (closed s socket)) -> i ∈ missingPieces s.
Proof.
  unfold closed.
  set (s0 := match known_peer_of s socket with Some _ => _ | None => _ end).
  assert (Hm0 : missingPieces s0 = missingPieces s).
  { subst s0. by destruct (known_peer_of s socket). }
  clearbody s0. set (s1 := set_pieces _ _ _ s0).
  destruct (scheduleRequests_requests s1) as (Hall & Hpend).
  split.
  - rewrite Hpend. cbn. clear. set_solver.
  - intros i Hi. rewrite <- Hm0. by apply Hall.
Qed.

(** X13.  The piece that leaves nothing missing ends the download: the
    node becomes a seed, the progress timer is cleared, and apart from the
    [have] announcements nothing is written; in particular no request. *)
Theorem last_piece_completes (s : t) (socket : SocketRef) (index : N) (data : string)
    (fm : Manager.t) :
  Manager.writePiece (fileManager s) index (base64_decode data)
  = (fm, Manager.Resolved tt) ->
  missingPieces s ⊆ {[index]} ->
  let s' := fst (_handlePiece base64_decode s socket index data) in
  let out := snd (_handlePiece base64_decode s socket index data) in
  isSeed s' = true /\ missingPieces s' = ∅ /\ progressInterval s' = false
  /\ Forall (fun a => exists k, a = Write k (Wire.Have index)) out.
Proof.
  intros Hw Hsub s' out. subst s' out.
  rewrite (handlePiece_resolved base64_decode s socket index data fm Hw).
  cbn [fst snd].
  destruct (record_piece_pieces (set_fileManager fm s) socket index
              (base64_decode data)) as (_ & Hm & _).
  set (s1 := record_piece _ _ _ _) in *. clearbody s1. cbn in Hm.
  assert (Hempty : missingPieces s1 = ∅) by (rewrite Hm; clear -Hsub; set_solver).
  unfold after_piece. rewrite bool_decide_eq_true_2 by done. cbn.
  split; [done|]. split; [done|]. split; [done|].
  rewrite app_nil_r. apply Forall_forall. intros a Ha.
  apply broadcast_have_elem in Ha as (_ & _ & k & _ & _ & _ & ->). by exists k.
Qed.

End SchedulerFacts.

Lemma last_piece_completes_witness :
  Node.isSeed
    (fst (Node._handlePiece (fun _ => [x61; x62]) Sample.last_request
            Sample.socket1 0 "YWI="))
  = true.
Proof.
  refine (proj1 (last_piece_completes (fun _ => [x61; x62]) Sample.last_request
                   Sample.socket1 0 "YWI="
                   (fst (Manager.writePiece (Node.fileManager Sample.last_request)
                           0 [x61; x62])) _ _)).
  - vm_compute. reflexivity.
  - apply (bool_decide_unpack _). vm_compute. exact I.
Defined.

(** ** Handshakes and peer exchange *)

Section HandshakeFacts.

Import Node.

(** X14.  A node that is not a seed refuses every handshake without a file
    hash from another id, whether or not it has metadata of its own: it
    ends the connection and deletes the record of the remote id, and its
    metadata, piece sets and file manager stay as they are. *)
Theorem handshake_without_hash_refused (s : t) (socket : SocketRef)
    (message : Wire.handshake) (now : N) :
  isSeed s = false ->
  Wire.id message <> id s ->
  Wire.fileHash message = None \/ Wire.fileHash message = Some "" ->
  exists s',
    _handleHandshake s socket message now = Returns s' [End socket]
    /\ knownPeers s' = JSMap.delete (Wire.id message) (knownPeers s)
    /\ outside_requests s'
       = (port s, fileName s, fileSize s, fileHash s, pieceSize s, numPieces s,
          id s, fileManager s, havePieces s, missingPieces s, progressInterval s,
          startTime s, isSeed s, bytesDownloaded s, sockets s')
    /\ pendingPieces s' = pendingPieces s
    /\ forall k, k <> socket -> sockets s' k = sockets s k.
Proof.
  intros Hseed Hid Hhash.
  assert (Hr : JS.or_null_string (Wire.fileHash message) = None).
  { by destruct Hhash as [->| ->]. }
  unfold _handleHandshake. rewrite Hr, bool_decide_eq_false_2 by done.
  destruct (JSMap.has (Wire.id message) (knownPeers s)) eqn:Hhas;
    cbn -[JSMap.delete JSMap.alter JSMap.set]; rewrite Hseed.
  - eexists. split; [reflexivity|]. cbn -[JSMap.delete JSMap.alter].
    rewrite delete_alter. split; [done|].
    split; [unfold outside_requests; cbn; by rewrite ?Hseed|]. split; [done|].
    intros k Hk. by rewrite bool_decide_eq_false_2.
  - eexists. split; [reflexivity|]. cbn -[JSMap.delete JSMap.set].
    rewrite delete_set. split; [done|].
    split; [unfold outside_requests; cbn; by rewrite ?Hseed|]. split; [done|].
    intros k Hk. by rewrite bool_decide_eq_false_2.
Qed.

(** X15.  A handshake never changes the piece size of the file manager:
    whatever [pieceSize] a leecher adopts, its pieces are still written at
    [index] times the piece size the manager was built with. *)
Theorem handshake_keeps_manager_pieceSize (s s' : t) (socket : SocketRef)
    (message : Wire.handshake) (now : N) (out : list action) :
  _handleHandshake s socket message now = Returns s' out
  \/ _handleHandshake s socket message now = Throws s' out ->
  Manager.pieceSize (fileManager s') = Manager.pieceSize (fileManager s).
Proof.
  unfold _handleHandshake.
  destruct (bool_decide (Wire.id message = id s)).
  { by intros [[= <- _]|[=]]. }
  set (s1 := assign_peerId socket _ _).
  assert (Hfm1 : fileManager s1 = fileManager s).
  { subst s1. by destruct (JSMap.has _ _). }
  clearbody s1.
  assert (Hreply : forall s2 s3 o3,
            handshake_reply s2 socket (Wire.id message) (Wire.port message) = (s3, o3) ->
            fileManager s3 = fileManager s2).
  { intros s2 s3 o3 Hr.
    pose proof (handshake_reply_frame s2 socket (Wire.id message) (Wire.port message))
      as [Hf _]. rewrite Hr in Hf. cbn [fst] in Hf.
    by apply outside_requests_fields in Hf as (_ & _ & _ & _ & _ & _ & Hfm & _). }
  destruct (isSeed s1).
  - destruct (_ && _ && _).
    + intros [[= <- _]|[=]]. cbn. by rewrite Hfm1.
    + destruct (handshake_reply s1 _ _ _) as [s3 o3] eqn:Hr.
      intros [[= <- _]|[=]]. by rewrite (Hreply _ _ _ Hr), Hfm1.
  - destruct (JS.or_null_string (Wire.fileHash message)) as [h|].
    + destruct (JS.loop_indices _) as [idxs|]; [|intros [[=]|[=]]].
      pose proof (setSize_fields (fileManager s1)
                    (JS.or_null_number (Wire.fileSize message))) as (_ & Hps).
      cbn. destruct (Manager.setSize _ _) as [fm [[]|]]; cbn [fst] in Hps.
      * set (s2 := set_progress _ _ _ _ _).
        destruct (handshake_reply s2 _ _ _) as [s3 o3] eqn:Hr.
        intros [[= <- _]|[=]]. rewrite (Hreply _ _ _ Hr). subst s2. cbn.
        by rewrite Hps, Hfm1.
      * intros [[=]|[= <- _]]. cbn. by rewrite Hps, Hfm1.
    + intros [[= <- _]|[=]]. cbn. by rewrite Hfm1.
Qed.

End HandshakeFacts.

Lemma handshake_without_hash_refused_witness :
  exists s',
    Node._handleHandshake (Node.accepted Sample.leecher Sample.socket1 "10.0.0.1")
      Sample.socket1
      (Wire.mkHandshake "00000000000000bb" (Some "out.bin") None None (Some 65536) 6883)
      0
    = Node.Returns s' [Node.End Sample.socket1].
Proof.
  destruct (handshake_without_hash_refused
              (Node.accepted Sample.leecher Sample.socket1 "10.0.0.1")
              Sample.socket1
              (Wire.mkHandshake "00000000000000bb" (Some "out.bin") None None
                                (Some 65536) 6883) 0)
    as (s' & Hs & _).
  - reflexivity.
  - vm_compute. discriminate.
  - left. reflexivity.
  - exists s'. exact Hs.
Defined.

Lemma handshake_keeps_manager_pieceSize_witness :
  Manager.pieceSize (Node.fileManager Sample.adopted)
  = Manager.pieceSize
      (Node.fileManager (Node.accepted Sample.leecher Sample.socket1 "10.0.0.1")).
Proof.
  destruct adopted_spec as (out & Hs & _).
  exact (handshake_keeps_manager_pieceSize
           (Node.accepted Sample.leecher Sample.socket1 "10.0.0.1") Sample.adopted
           Sample.socket1 (Sample.seed_handshake "ffffffffffffffff") 0 out
           (or_introl Hs)).
Defined.

(** ** A seed and its file *)

Section SeedStartup.

Import Node.

Variable base64_encode : list byte -> string.
Variable sha1_hex : list byte -> string.

Lemma foldl_set_add_iff (x : N) (xs l : list N) :
  x ∈ foldl (fun h i => JS.set_add i h) l xs <-> x ∈ l \/ x ∈ xs.
Proof.
  revert l. induction xs as [|y xs IH]; intros l; cbn.
  - split; [by left|]. intros [?|H]; [done|]. by apply elem_of_nil in H.
  - rewrite IH. unfold JS.set_add, JS.set_has. case_bool_decide as Hy.
    + rewrite elem_of_cons. split; [intros [?|?]; auto|].
      intros [?|[->|?]]; auto.
    + rewrite elem_of_app, !elem_of_cons, elem_of_nil. tauto.
Qed.

Lemma indices_elem (i n : N) : i ∈ JS.indices n <-> i < n.
Proof.
  unfold JS.indices. rewrite list_elem_of_In, in_map_iff. split.
  - intros (k & <- & Hk%in_seq). lia.
  - intros Hi. exists (N.to_nat i). split; [lia|]. apply in_seq. lia.
Qed.

Lemma ceil_div_bound (a b n i : N) :
  JS.ceil_div a b = JS.Num n -> i < n <-> i * b < a.
Proof.
  intros Hn. split; [by apply in_range_offset|].
  apply ceil_div_Num in Hn as [Hb ->]. intros Hi.
  pose proof (N.div_mod a b Hb) as Hdm.
  pose proof (N.mod_lt a b Hb) as Hlt.
  set (q := a / b) in *. set (rem := a mod b) in *. clearbody q rem.
  destruct (N.eqb_spec rem 0) as [H0|H0]; nia.
Qed.

(** The state in which a seed of a file that is not empty starts. *)
Lemma startup_seed_state (port : N) (basename randomId : string) (disk : list byte) :
  let size := N.of_nat (List.length disk) in
  let ps := N.min size default_pieceSize in
  0 < size ->
  exists s n,
    startup_seed sha1_hex port basename randomId disk = Some s
    /\ JS.ceil_div size ps = JS.Num n
    /\ fileManager s = Manager.mk ps (Some disk) (Some size) Manager.r
    /\ havePieces s = foldl (fun h i => JS.set_add i h) [] (JS.indices n)
    /\ missingPieces s = ∅ /\ pendingPieces s = ∅
    /\ isSeed s = true
    /\ fileSize s = Some size /\ pieceSize s = Some ps
    /\ numPieces s = Some (JS.Num n)
    /\ fileHash s = Some (sha1_hex disk)
    /\ id s = randomId /\ knownPeers s = [].
Proof.
  intros size ps Hpos.
  assert (Hps : ps <> 0) by (subst ps; unfold default_pieceSize; lia).
  assert (Hn : JS.ceil_div size ps
               = JS.Num (if size mod ps =? 0 then size / ps else size / ps + 1)).
  { unfold JS.ceil_div. by rewrite (proj2 (N.eqb_neq ps 0) Hps). }
  set (n := if size mod ps =? 0 then _ else _) in Hn. clearbody n.
  exists (match startup_seed sha1_hex port basename randomId disk with
          | Some s => s | None => constructor port basename randomId true end), n.
  unfold startup_seed, opened, constructor. cbn -[N.ltb JS.ceil_div N.min].
  fold size. destruct (N.ltb_spec size default_pieceSize) as [Hlt|Hge].
  - replace ps with size in * by (subst ps; lia).
    cbn -[JS.ceil_div]. rewrite Hn. cbn. repeat split.
  - replace ps with default_pieceSize in * by (subst ps; lia).
    cbn -[JS.ceil_div]. rewrite Hn. cbn. repeat split.
Qed.

(** X16.  A seed of a file that is not empty starts with every piece and
    nothing missing; the piece size it announces is the piece size its
    file manager reads with, the smaller of the file size and 64 KiB, and
    the hash it announces is the digest of the whole file. *)
Theorem seed_starts_complete (port : N) (basename randomId : string)
    (disk : list byte) :
  disk <> [] ->
  exists s n,
    startup_seed sha1_hex port basename randomId disk = Some s
    /\ isSeed s = true
    /\ fileSize s = Some (N.of_nat (List.length disk))
    /\ pieceSize s = Some (N.min (N.of_nat (List.length disk)) default_pieceSize)
    /\ Manager.pieceSize (fileManager s)
       = N.min (N.of_nat (List.length disk)) default_pieceSize
    /\ fileHash s = Some (sha1_hex disk)
    /\ numPieces s = Some (JS.Num n)
    /\ (forall i, i ∈ havePieces s <-> i < n)
    /\ (forall i, i < n <-> i * Manager.pieceSize (fileManager s)
                            < N.of_nat (List.length disk))
    /\ missingPieces s = ∅.
Proof.
  intros Hne.
  destruct (startup_seed_state port basename randomId disk)
    as (s & n & Hs & Hn & Hfm & Hhave & Hmiss & _ & Hseed & Hsize & Hps & Hnum
        & Hhash & _).
  { destruct disk; [done|]. cbn. lia. }
  exists s, n. rewrite Hfm. cbn [Manager.pieceSize].
  repeat split; try done.
  - rewrite Hhave. intros [H|H]%foldl_set_add_iff; [by apply elem_of_nil in H|].
    by apply indices_elem.
  - intros Hi. rewrite Hhave. apply foldl_set_add_iff. right. by apply indices_elem.
  - by apply ceil_div_bound.
  - by apply ceil_div_bound.
Qed.

(** What a seed answers to a request. *)
Lemma seed_request (port : N) (basename randomId : string) (disk : list byte)
    (s : t) (socket : SocketRef) (index : N) :
  startup_seed sha1_hex port basename randomId disk = Some s ->
  disk <> [] ->
  let ps := N.min (N.of_nat (List.length disk)) default_pieceSize in
  _handleRequest base64_encode s socket index
  = (s, if bool_decide (index * ps < N.of_nat (List.length disk))
        then [Write socket
                (Wire.Piece index
                   (base64_encode
                      (take (N.to_nat ps) (drop (N.to_nat (index * ps)) disk))))]
        else []).
Proof.
  intros Hstart Hne.
  destruct (startup_seed_state port basename randomId disk)
    as (s0 & n & Hs & Hn & Hfm & Hhave & _).
  { destruct disk; [done|]. cbn. lia. }
  rewrite Hstart in Hs. injection Hs as <-.
  intros ps. fold ps in Hn, Hfm.
  set (size := N.of_nat (List.length disk)) in *.
  unfold _handleRequest, JS.set_has. case_bool_decide as Hin.
  - assert (Hi : index < n).
    { rewrite Hhave in Hin.
      apply foldl_set_add_iff in Hin as [H|H]; [by apply elem_of_nil in H|].
      by apply indices_elem. }
    pose proof (proj1 (ceil_div_bound _ _ _ index Hn) Hi) as Hoff.
    rewrite bool_decide_eq_true_2 by done. cbn [negb].
    rewrite (readPiece_within (fileManager s) disk index);
      rewrite Hfm; cbn [Manager.fileHandle Manager.fileSize Manager.pieceSize];
      [|done|done|fold size; lia].
    fold size. do 4 f_equal.
    destruct (N.le_gt_cases ps (size - index * ps)) as [Hle|Hgt].
    + by replace (N.min ps (size - index * ps)) with ps by lia.
    + replace (N.min ps (size - index * ps)) with (size - index * ps) by lia.
      rewrite !take_ge; [done|..]; rewrite length_drop; subst size; lia.
  - cbn [negb]. rewrite bool_decide_eq_false_2; [done|].
    intros Hoff. apply Hin. rewrite Hhave. apply foldl_set_add_iff. right.
    apply indices_elem. by apply (ceil_div_bound _ _ _ index Hn).
Qed.

(** X17.  A seed answers a request for a piece of its file with one
    [piece] message to the asking socket that carries the bytes of the file
    from [index * pieceSize] on, at most [pieceSize] of them; a request for
    an index past the end of the file gets no answer.  The state of the seed
    does not change. *)
Theorem seed_serves_its_file (port : N) (basename randomId : string)
    (disk : list byte) (socket : SocketRef) (index : N) :
  disk <> [] ->
  exists s,
    startup_seed sha1_hex port basename randomId disk = Some s
    /\ let ps := N.min (N.of_nat (List.length disk)) default_pieceSize in
       _handleRequest base64_encode s socket index
       = (s, if bool_decide (index * ps < N.of_nat (List.length disk))
             then [Write socket
                     (Wire.Piece index
                        (base64_encode
                           (take (N.to_nat ps) (drop (N.to_nat (index * ps)) disk))))]
             else []).
Proof.
  intros Hne.
  destruct (startup_seed_state port basename randomId disk) as (s & n & Hs & _).
  { destruct disk; [done|]. cbn. lia. }
  exists s. split; [done|]. by apply (seed_request port basename randomId).
Qed.

End SeedStartup.

Lemma seed_starts_complete_witness :
  exists s,
    Node.startup_seed (fun _ => "da39a3ee") 6881 "in.bin" "ffffffffffffffff"
                      [x61; x62; x63] = Some s
    /\ Node.isSeed s = true /\ Node.missingPieces s = ∅.
Proof.
  destruct (seed_starts_complete (fun _ => "da39a3ee") 6881 "in.bin"
              "ffffffffffffffff" [x61; x62; x63])
    as (s & n & Hs & Hseed & _ & _ & _ & _ & _ & _ & _ & Hmiss).
  - discriminate.
  - exists s. split; [exact Hs|]. split; [exact Hseed|exact Hmiss].
Defined.

Lemma seed_serves_its_file_witness :
  exists s,
    Node.startup_seed (fun _ => "da39a3ee") 6881 "in.bin" "ffffffffffffffff"
                      [x61; x62; x63] = Some s
    /\ Node._handleRequest (fun _ => "YWJj") s Sample.socket1 0
       = (s, [Node.Write Sample.socket1 (Wire.Piece 0 "YWJj")]).
Proof.
  destruct (seed_serves_its_file (fun _ => "YWJj") (fun _ => "da39a3ee") 6881
              "in.bin" "ffffffffffffffff" [x61; x62; x63] Sample.socket1 0)
    as (s & Hs & Hr).
  - discriminate.
  - exists s. split; [exact Hs|exact Hr].
Defined.

(** ** Peer exchange *)

Section PeerExchange.

Import Node.

(** X18.  A [peers] message never touches the record of a peer the node
    knows already; afterwards the node knows, besides those, exactly the
    listed peers whose id is not its own.  The only actions are connection
    attempts, each to a listed peer that was unknown before and whose id is
    smaller than the id of the node. *)
Theorem handlePeers_spec (s : t) (peersList : list Wire.peer) :
  let s' := fst (_handlePeers s peersList) in
  let out := snd (_handlePeers s peersList) in
  (forall k, JSMap.has k (knownPeers s) = true ->
             JSMap.get k (knownPeers s') = JSMap.get k (knownPeers s))
  /\ (forall k, JSMap.has k (knownPeers s') = true <->
                JSMap.has k (knownPeers s) = true
                \/ (k <> id s /\ exists peer, peer ∈ peersList /\ Wire.peer_id peer = k))
  /\ Forall (fun a => exists peer,
                 peer ∈ peersList
                 /\ a = Connect (Wire.peer_host peer) (Wire.peer_port peer)
                 /\ JSMap.has (Wire.peer_id peer) (knownPeers s) = false
                 /\ JS.string_gt (id s) (Wire.peer_id peer) = true) out.
Proof.
  revert s. induction peersList as [|peer rest IH]; intros s.
  { cbn. split; [done|]. split; [|done]. intros k. split; [by left|].
    intros [?|(_ & p & Hp & _)]; [done|]. by apply elem_of_nil in Hp. }
  cbn [_handlePeers].
  destruct (decide (Wire.peer_id peer = id s)) as [Heq|Hne].
  { rewrite bool_decide_eq_true_2 by done.
    destruct (IH s) as (Hget & Hhas & Hout). split; [done|]. split.
    - intros k. rewrite Hhas. split.
      + intros [?|(Hk & p & Hp & Hpk)]; [by left|right].
        split; [done|]. exists p. split; [by right|done].
      + intros [?|(Hk & p & [->|Hp]%elem_of_cons & Hpk)]; [by left|congruence|right].
        split; [done|]. by exists p.
    - eapply Forall_impl; [exact Hout|]. intros a (p & Hp & Ha).
      exists p. split; [by right|done]. }
  rewrite bool_decide_eq_false_2 by done.
  destruct (JSMap.has (Wire.peer_id peer) (knownPeers s)) eqn:Hknown.
  { destruct (IH s) as (Hget & Hhas & Hout). split; [done|]. split.
    - intros k. rewrite Hhas. split.
      + intros [?|(Hk & p & Hp & Hpk)]; [by left|right].
        split; [done|]. exists p. split; [by right|done].
      + intros [?|(Hk & p & [->|Hp]%elem_of_cons & Hpk)];
          [by left|left; congruence|right].
        split; [done|]. by exists p.
    - eapply Forall_impl; [exact Hout|]. intros a (p & Hp & Ha).
      exists p. split; [by right|done]. }
  set (s1 := set_knownPeers _ s).
  assert (Hid : id s1 = id s) by done.
  assert (Hk1 : forall k, JSMap.has k (knownPeers s1)
                          = bool_decide (k = Wire.peer_id peer)
                            || JSMap.has k (knownPeers s)).
  { intros k. subst s1. cbn -[JSMap.set]. apply has_set. }
  assert (Hg1 : forall k, k <> Wire.peer_id peer ->
                          JSMap.get k (knownPeers s1) = JSMap.get k (knownPeers s)).
  { intros k Hk. subst s1. cbn -[JSMap.set]. by apply get_set_other. }
  assert (Hdial : _shouldInitiateConnection s1 (Wire.peer_id peer) = true ->
                  JS.string_gt (id s) (Wire.peer_id peer) = true).
  { unfold _shouldInitiateConnection. rewrite Hid.
    by intros [_ ?]%andb_true_iff. }
  destruct (IH s1) as (Hget & Hhas & Hout). clearbody s1.
  destruct (_handlePeers s1 rest) as [s2 o2]. cbn [fst snd] in *.
  split; [|split].
  - intros k Hk. rewrite Hget.
    + apply Hg1. intros ->. congruence.
    + rewrite Hk1, Hk. apply orb_true_r.
  - intros k. rewrite Hhas, Hk1, Hid. split.
    + intros [[Hk%bool_decide_eq_true_1|?]%orb_true_iff|(Hk & p & Hp & Hpk)].
      * right. split; [congruence|]. exists peer. split; [by left|done].
      * by left.
      * right. split; [done|]. exists p. split; [by right|done].
    + intros [Hk|(Hk & p & [->|Hp]%elem_of_cons & Hpk)].
      * left. rewrite Hk. apply orb_true_r.
      * left. by rewrite bool_decide_eq_true_2.
      * right. split; [done|]. by exists p.
  - apply Forall_app. split.
    + destruct (_shouldInitiateConnection s1 (Wire.peer_id peer)) eqn:Hd; [|done].
      apply Forall_singleton. exists peer. split; [by left|]. auto.
    + eapply Forall_impl; [exact Hout|]. intros a (p & Hp & Ha & Hnew & Hgt).
      exists p. split; [by right|]. split; [done|]. split; [|by rewrite <- Hid].
      rewrite Hk1 in Hnew. by apply orb_false_iff in Hnew as [_ ?].
Qed.

End PeerExchange.

(** ** The framing of messages *)

Section FramingFacts.

Import Framing.

Lemma drain_unfold (buffer : list ascii) :
  drain buffer
  = match indexOf newline buffer with
    | Some newlineIndex =>
        let rest := drain (drop (S newlineIndex) buffer) in
        if bool_decide (take newlineIndex buffer = []) then rest
        else (take newlineIndex buffer :: fst rest, snd rest)
    | None => ([], buffer)
    end.
Proof.
  simp drain.
  destruct (inspect (indexOf newline buffer)) as [[i|] H]; simp drain; rewrite H;
    [cbn zeta; by rewrite <- !drain_equation_1|done].
Qed.

Lemma indexOf_None (c : ascii) (s : list ascii) :
  indexOf c s = None <-> c ∉ s.
Proof.
  induction s as [|a s IH]; cbn.
  - split; [intros _; apply not_elem_of_nil|done].
  - rewrite not_elem_of_cons. case_bool_decide as Ha.
    + split; [done|]. intros [Hc _]. by destruct Hc.
    + destruct (indexOf c s); cbn.
      * split; [done|]. intros [_ Hs]. by apply IH in Hs.
      * split; [|done]. intros _. split; [done|]. by apply IH.
Qed.

Lemma indexOf_line (c : ascii) (line rest : list ascii) :
  c ∉ line -> indexOf c (line ++ c :: rest) = Some (List.length line).
Proof.
  induction line as [|a line IH]; cbn.
  - intros _. by rewrite bool_decide_eq_true_2.
  - intros [Ha Hl]%not_elem_of_cons. rewrite bool_decide_eq_false_2 by done.
    by rewrite IH.
Qed.

Lemma indexOf_split (c : ascii) (s : list ascii) (i : nat) :
  indexOf c s = Some i ->
  exists line rest, s = line ++ c :: rest /\ c ∉ line /\ List.length line = i.
Proof.
  revert i. induction s as [|a s IH]; intros i; cbn; [done|].
  case_bool_decide as Ha.
  - intros [= <-]. exists [], s. subst a. split; [done|]. split; [|done].
    apply not_elem_of_nil.
  - destruct (indexOf c s) as [j|]; [|done]. intros [= <-].
    destruct (IH j eq_refl) as (line & rest & -> & Hl & <-).
    exists (a :: line), rest. split; [done|]. split; [|done].
    apply not_elem_of_cons. split; [congruence|done].
Qed.

(** One turn of the loop on a buffer that starts with a whole line. *)
Lemma drain_line (line rest : list ascii) :
  newline ∉ line ->
  drain (line ++ newline :: rest)
  = if bool_decide (line = []) then drain rest
    else (line :: fst (drain rest), snd (drain rest)).
Proof.
  intros Hl. rewrite drain_unfold, (indexOf_line _ _ _ Hl). cbn zeta.
  rewrite take_app_length.
  replace (drop (S (List.length line)) (line ++ newline :: rest)) with rest; [done|].
  rewrite drop_app_ge by lia.
  by replace (S (List.length line) - List.length line)%nat with 1%nat by lia.
Qed.

Lemma drain_no_newline (buffer : list ascii) :
  newline ∉ buffer -> drain buffer = ([], buffer).
Proof.
  intros Hb. rewrite drain_unfold. by rewrite (proj2 (indexOf_None _ _) Hb).
Qed.

(** The loop on a buffer that starts with whole lines. *)
Lemma drain_lines_app (lines : list (list ascii)) (rest : list ascii) :
  Forall (fun line => newline ∉ line) lines ->
  drain (concat ((fun line => line ++ [newline]) <$> lines) ++ rest)
  = (List.filter (fun line => negb (bool_decide (line = []))) lines
       ++ fst (drain rest),
     snd (drain rest)).
Proof.
  intros Hlines. induction Hlines as [|line lines Hl _ IH]; cbn.
  - by destruct (drain rest).
  - rewrite <- !app_assoc. cbn. rewrite (drain_line _ _ Hl), IH.
    by case_bool_decide.
Qed.

(** Every buffer is a sequence of whole lines and the start of a line. *)
Lemma buffer_lines (buffer : list ascii) :
  exists lines tail,
    buffer = concat ((fun line => line ++ [newline]) <$> lines) ++ tail
    /\ Forall (fun line => newline ∉ line) lines
    /\ newline ∉ tail.
Proof.
  remember (List.length buffer) as n eqn:Hn.
  revert buffer Hn. induction n as [n IH] using lt_wf_ind. intros buffer ->.
  destruct (indexOf newline buffer) as [i|] eqn:Hi.
  - apply indexOf_split in Hi as (line & rest & -> & Hl & _).
    destruct (IH (List.length rest)) with (buffer := rest)
      as (lines & tail & -> & Hlines & Htail); [|done|].
    { rewrite length_app. cbn. lia. }
    exists (line :: lines), tail. cbn. rewrite <- !app_assoc. cbn.
    split; [done|]. split; [by constructor|done].
  - exists [], buffer. split; [done|]. split; [done|]. by apply indexOf_None.
Qed.

(** X19.  Every message is sent as one line that ends in a newline.  From
    a buffer that holds such lines, followed by the start of a line, the
    loop, when it runs to its end, takes the lines that are not empty, in
    order, and leaves the unfinished line in the buffer. *)
Theorem drain_lines (lines : list (list ascii)) (tail : list ascii) :
  Forall (fun line => newline ∉ line) lines ->
  newline ∉ tail ->
  drain (concat ((fun line => line ++ [newline]) <$> lines) ++ tail)
  = (List.filter (fun line => negb (bool_decide (line = []))) lines, tail).
Proof.
  intros Hlines Htail.
  rewrite (drain_lines_app _ _ Hlines), (drain_no_newline _ Htail). cbn.
  by rewrite app_nil_r.
Qed.

(** X20.  What the loop leaves in the buffer when it runs to its end
    holds no newline, and no raw message that goes on to [JSON.parse] is
    empty or holds one. *)
Theorem drain_leftover (buffer : list ascii) :
  newline ∉ snd (drain buffer)
  /\ Forall (fun rawMessage => rawMessage <> [] /\ newline ∉ rawMessage)
            (fst (drain buffer)).
Proof.
  destruct (buffer_lines buffer) as (lines & tail & -> & Hlines & Htail).
  rewrite (drain_lines_app _ _ Hlines), (drain_no_newline _ Htail). cbn.
  split; [done|]. rewrite app_nil_r. apply Forall_forall.
  intros m [Hm Hne]%list_elem_of_In%filter_In. split.
  - intros ->. by rewrite bool_decide_eq_true_2 in Hne.
  - rewrite Forall_forall in Hlines. by apply Hlines, list_elem_of_In.
Qed.

Lemma drain_app (buffer data : list ascii) :
  drain (buffer ++ data)
  = (fst (drain buffer) ++ fst (drain (snd (drain buffer) ++ data)),
     snd (drain (snd (drain buffer) ++ data))).
Proof.
  destruct (buffer_lines buffer) as (lines & tail & -> & Hlines & Htail).
  rewrite <- app_assoc, !(drain_lines_app _ _ Hlines), (drain_no_newline _ Htail).
  cbn. by rewrite app_nil_r.
Qed.

Section Chunks.

Variable parse : list ascii -> option Wire.message.

(** X21.  The messages a connection delivers do not depend on how the
    stream is cut into ['data'] events: as long as no handler throws, two
    events in a row hand on the messages, and leave the buffer, of one event
    with the joined data. *)
Theorem on_data_chunks (buffer data1 data2 : list ascii) :
  let first := on_data parse buffer data1 in
  let second := on_data parse (snd first) data2 in
  on_data parse buffer (data1 ++ data2) = (fst first ++ fst second, snd second).
Proof.
  intros first second. subst first second. unfold on_data. cbn [fst snd].
  rewrite app_assoc, drain_app. cbn [fst snd]. by rewrite omap_app.
Qed.

End Chunks.

End FramingFacts.

Lemma drain_lines_witness :
  Framing.drain (list_ascii_of_string
                   (String.append "{}"
                      (String Framing.newline
                         (String Framing.newline
                            (String.append "[1]" (String Framing.newline "{"))))))
  = ([list_ascii_of_string "{}"; list_ascii_of_string "[1]"],
     list_ascii_of_string "{").
Proof.
  apply (drain_lines
           [list_ascii_of_string "{}"; []; list_ascii_of_string "[1]"]
           (list_ascii_of_string "{")).
  - repeat constructor; apply (bool_decide_unpack _); vm_compute; exact I.
  - apply (bool_decide_unpack _). vm_compute. exact I.
Defined.

(** ** The command line *)

Section LauncherFacts.

Import Launcher.

Local Arguments String.append !_ _ / : simpl nomatch.

Lemma lastIndexOf_None (c : ascii) (s : string) :
  lastIndexOf c s = None <-> c ∉ list_ascii_of_string s.
Proof.
  induction s as [|a s IH]; cbn.
  - split; [intros _; apply not_elem_of_nil|done].
  - rewrite not_elem_of_cons. destruct (lastIndexOf c s).
    + split; [done|]. intros [_ Hs]. by apply IH in Hs.
    + case_bool_decide as Ha.
      * split; [done|]. intros [Hc _]. by destruct Hc.
      * split; [|done]. intros _. split; [congruence|]. by apply IH.
Qed.

Lemma lastIndexOf_app (c : ascii) (host rest : string) :
  lastIndexOf c rest = None ->
  lastIndexOf c (String.append host (String c rest)) = Some (String.length host).
Proof.
  intros Hr. induction host as [|a host IH]; cbn.
  - by rewrite Hr, bool_decide_eq_true_2.
  - by rewrite IH.
Qed.

Lemma lastIndexOf_split (c : ascii) (s : string) (i : nat) :
  lastIndexOf c s = Some i ->
  exists host rest,
    s = String.append host (String c rest) /\ String.length host = i
    /\ lastIndexOf c rest = None.
Proof.
  revert i. induction s as [|a s IH]; intros i; cbn; [done|].
  destruct (lastIndexOf c s) as [j|] eqn:Hj.
  - intros [= <-]. destruct (IH j eq_refl) as (host & rest & -> & <- & Hr).
    by exists (String a host), rest.
  - case_bool_decide as Ha; [|done]. intros [= <-]. subst a.
    by exists EmptyString, s.
Qed.

Lemma substring_all (s : string) : String.substring 0 (String.length s) s = s.
Proof. induction s as [|a s IH]; cbn; [done|]. by rewrite IH. Qed.

Lemma substring_prefix (host rest : string) :
  String.substring 0 (String.length host) (String.append host rest) = host.
Proof.
  induction host as [|a host IH]; cbn; [by destruct rest|]. by rewrite IH.
Qed.

Lemma substring_suffix (host rest : string) (n : nat) :
  String.substring (String.length host) n (String.append host rest) = String.substring 0 n rest.
Proof. induction host as [|a host IH]; cbn; [done|]. apply IH. Qed.

Lemma length_append (a b : string) :
  String.length (String.append a b) = (String.length a + String.length b)%nat.
Proof. induction a as [|c a IH]; cbn; [done|]. by rewrite IH. Qed.

Lemma split_peer_app (host portText : string) :
  lastIndexOf ":" portText = None ->
  split_peer (String.append host (String ":" portText)) = Some (host, portText).
Proof.
  intros Hp. unfold split_peer, substring_from.
  rewrite (lastIndexOf_app _ _ _ Hp). do 2 f_equal.
  - apply substring_prefix.
  - rewrite length_append. cbn [String.length].
    replace (String.length host + 1)%nat with (String.length (String.append host ":")).
    2:{ rewrite length_append. done. }
    replace (String.append host (String ":" portText))
      with (String.append (String.append host ":") portText).
    2:{ clear. induction host as [|a host IH]; cbn; [done|]. by rewrite IH. }
    rewrite substring_suffix, length_append. cbn [String.length].
    replace (String.length host + S (String.length portText) - (String.length host + 1))%nat
      with (String.length portText) by lia.
    apply substring_all.
Qed.

(** X22.  [--peer] is cut at its last colon: the address splits into a
    host and a port text exactly when it is the host, a colon and a port
    text without a colon.  A host may hold colons; an address without a
    colon does not split. *)
Theorem split_peer_spec (peerAddress host portText : string) :
  split_peer peerAddress = Some (host, portText)
  <-> peerAddress = String.append host (String ":" portText)
      /\ ":"%char ∉ list_ascii_of_string portText.
Proof.
  split.
  - unfold split_peer. destruct (lastIndexOf ":" peerAddress) as [i|] eqn:Hi; [|done].
    intros Hsplit.
    destruct (lastIndexOf_split _ _ _ Hi) as (h & q & Heq & _ & Hq).
    pose proof (split_peer_app h q Hq) as Hs. rewrite <- Heq in Hs.
    unfold split_peer in Hs. rewrite Hi, Hsplit in Hs.
    injection Hs as -> ->. split; [done|]. by apply lastIndexOf_None.
  - intros [-> Hq]. apply split_peer_app. by apply lastIndexOf_None.
Qed.

Section Main.

Variable parseInt : string -> option Z.

(** The loop on pairs of a known flag and a value, from any options. *)
Lemma scan_from (pairs : list (string * string)) :
  Forall (fun p => p.1 ∈ ["--port"; "--file"; "--peer"]) pairs ->
  forall o,
    scan parseInt (pairs ≫= fun p => [p.1; p.2]) o
    = Some (mkOptions
              (match last (List.filter (fun p => bool_decide (p.1 = "--port")) pairs) with
               | Some p => parseInt p.2 | None => Launcher.port o end)
              (match last (List.filter (fun p => bool_decide (p.1 = "--file")) pairs) with
               | Some p => Some p.2 | None => Launcher.filePath o end)
              (match last (List.filter (fun p => bool_decide (p.1 = "--peer")) pairs) with
               | Some p => Some p.2 | None => peerAddress o end)).
Proof.
  intros Hflags. induction Hflags as [|[flag value] pairs Hflag _ IH]; intros o.
  - by destruct o.
  - cbn [mbind list_bind fst snd app scan] in *. cbn [List.filter fst].
    apply elem_of_cons in Hflag as [->|Hflag]; [|apply elem_of_cons in Hflag as [->|Hflag]];
      [| |apply list_elem_of_singleton in Hflag as ->];
      repeat match goal with
             | |- context [bool_decide (?a = ?b)] =>
                 let v := eval vm_compute in (bool_decide (a = b)) in
                 match v with
                 | true => change (bool_decide (a = b)) with true
                 | false => change (bool_decide (a = b)) with false
                 end
             end;
      cbn iota; rewrite IH, ?last_cons; cbn;
      by repeat match goal with |- context [last ?l] => destruct (last l) end.
Qed.

(** The loop comes through on nothing else. *)
Lemma scan_inv (n : nat) (args : list string) (o o' : options) :
  (List.length args <= n)%nat ->
  scan parseInt args o = Some o' ->
  exists pairs,
    args = pairs ≫= (fun p => [p.1; p.2])
    /\ Forall (fun p => p.1 ∈ ["--port"; "--file"; "--peer"]) pairs.
Proof.
  revert args o. induction n as [|n IH]; intros args o Hn.
  - destruct args; [|cbn in Hn; lia]. intros _. by exists [].
  - destruct args as [|arg [|value rest]]; [intros _; by exists []|done|].
    cbn in Hn. cbn [scan].
    assert (Hrest : forall o1,
              arg ∈ ["--port"; "--file"; "--peer"] ->
              scan parseInt rest o1 = Some o' ->
              exists pairs,
                arg :: value :: rest = pairs ≫= (fun p => [p.1; p.2])
                /\ Forall (fun p => p.1 ∈ ["--port"; "--file"; "--peer"]) pairs).
    { intros o1 Hflag Hscan.
      destruct (IH rest o1 ltac:(lia) Hscan) as (pairs & -> & Hflags).
      exists ((arg, value) :: pairs). split; [done|]. by constructor. }
    case_bool_decide as Hport; [subst arg; apply Hrest; by left|].
    case_bool_decide as Hfile; [subst arg; apply Hrest; right; by left|].
    case_bool_decide as Hpeer; [subst arg; apply Hrest; right; right; by left|].
    done.
Qed.

(** X23.  The script starts a node only when its arguments are pairs of
    one of the flags [--port], [--file], [--peer] and a value.  The port of
    the node is then what [parseInt] makes of the last [--port] value, a
    number other than zero, and its file the last [--file] value, which is
    not empty.  When it dials a first peer, the last [--peer] value splits
    into a host that is not empty and a port text that [parseInt] turns
    into a number other than zero. *)
Theorem main_runs (args : list string) (port : Z) (filePath : string)
    (dial : option (string * Z)) :
  main parseInt args = Run port filePath dial ->
  exists pairs,
    args = pairs ≫= (fun p => [p.1; p.2])
    /\ Forall (fun p => p.1 ∈ ["--port"; "--file"; "--peer"]) pairs
    /\ (snd <$> last (List.filter (fun p => bool_decide (p.1 = "--port")) pairs))
         ≫= parseInt = Some port
    /\ snd <$> last (List.filter (fun p => bool_decide (p.1 = "--file")) pairs)
       = Some filePath
    /\ port <> 0%Z /\ filePath <> ""
    /\ match dial with
       | Some (peerHost, peerPort) =>
           peerHost <> "" /\ peerPort <> 0%Z
           /\ exists peerAddress portText,
                snd <$> last (List.filter (fun p => bool_decide (p.1 = "--peer")) pairs)
                = Some peerAddress
                /\ split_peer peerAddress = Some (peerHost, portText)
                /\ parseInt portText = Some peerPort
       | None => True
       end.
Proof.
  unfold main. destruct (scan parseInt args _) as [o|] eqn:Hscan; [|done].
  destruct (scan_inv _ _ _ _ (le_n _) Hscan) as (pairs & -> & Hflags).
  rewrite (scan_from pairs Hflags) in Hscan. injection Hscan as <-.
  cbn [Launcher.port Launcher.filePath Launcher.peerAddress].
  intros Hrun. exists pairs. split; [done|]. split; [done|]. revert Hrun.
  set (ports := last (List.filter (fun p => bool_decide (p.1 = "--port")) pairs)).
  set (files := last (List.filter (fun p => bool_decide (p.1 = "--file")) pairs)).
  set (peers := last (List.filter (fun p => bool_decide (p.1 = "--peer")) pairs)).
  destruct ports as [[? portValue]|]; [|done]. cbn [snd fmap option_fmap option_map
                                                       mbind option_bind].
  destruct (parseInt portValue) as [p|]; [|done].
  destruct files as [[? f]|]; [|by rewrite orb_true_r].
  cbn [snd falsy_number JS.truthy_opt fmap option_fmap option_map].
  case_bool_decide as Hp; [done|].
  destruct (JS.truthy f) eqn:Hf; [|done]. cbn [negb orb].
  assert (Hfile : f <> "").
  { intros ->. done. }
  destruct peers as [[? address]|]; cbn [snd JS.truthy_opt mbind option_bind].
  - destruct (JS.truthy address); cbn iota.
    + destruct (split_peer address) as [[h q]|] eqn:Hsplit; [|done].
      destruct (parseInt q) as [k|] eqn:Hq; [|done]. cbn [falsy_number].
      case_bool_decide as Hk; [done|].
      intros [= <- <- <-]. split; [done|]. split; [done|]. split; [done|].
      split; [done|].
      destruct (JS.truthy h) eqn:Hh; [|done]. split; [by intros ->|].
      split; [done|]. by exists address, q.
    + intros [= <- <- <-]. done.
  - intros [= <- <- <-]. done.
Qed.

(** X24.  The argument loop accepts every sequence of pairs of a known
    flag and a value, and of a flag given more than once the last value
    counts; [--port] goes through [parseInt], the other two are kept as
    they are. *)
Theorem scan_pairs (pairs : list (string * string)) :
  Forall (fun p => p.1 ∈ ["--port"; "--file"; "--peer"]) pairs ->
  scan parseInt (pairs ≫= fun p => [p.1; p.2]) (mkOptions None None None)
  = Some (mkOptions
            ((snd <$> last (List.filter (fun p => bool_decide (p.1 = "--port")) pairs))
               ≫= parseInt)
            (snd <$> last (List.filter (fun p => bool_decide (p.1 = "--file")) pairs))
            (snd <$> last (List.filter (fun p => bool_decide (p.1 = "--peer")) pairs))).
Proof.
  intros Hflags. rewrite (scan_from pairs Hflags). cbn.
  by repeat match goal with |- context [last ?l] => destruct (last l) end.
Qed.

End Main.

End LauncherFacts.

Lemma main_runs_witness :
  exists pairs,
    ["--port"; "6882"; "--file"; "out.bin"; "--peer"; "[::1]:6881"]
    = pairs ≫= (fun p => [p.1; p.2])
    /\ Forall (fun p => p.1 ∈ ["--port"; "--file"; "--peer"]) pairs.
Proof.
  destruct (main_runs (fun s => if String.eqb s "6882" then Some 6882%Z
                                else if String.eqb s "6881" then Some 6881%Z
                                else None)
              ["--port"; "6882"; "--file"; "out.bin"; "--peer"; "[::1]:6881"]
              6882%Z "out.bin" (Some ("[::1]", 6881%Z)))
    as (pairs & Hargs & Hflags & _).
  - vm_compute. reflexivity.
  - exists pairs. split; [exact Hargs|exact Hflags].
Defined.

Lemma scan_pairs_witness :
  Launcher.scan (fun _ => Some 1%Z) ["--file"; "a"; "--file"; "b"]
                (Launcher.mkOptions None None None)
  = Some (Launcher.mkOptions None (Some "b") None).
Proof.
  apply (scan_pairs (fun _ => Some 1%Z) [("--file", "a"); ("--file", "b")]).
  repeat constructor.
Defined.

(** ** The progress line *)

Section Progress.

Import Node.

Lemma indices_NoDup (n : N) : NoDup (JS.indices n).
Proof.
  unfold JS.indices. change (NoDup (N.of_nat <$> seq 0 (N.to_nat n))).
  apply (NoDup_fmap_2 _), NoDup_seq.
Qed.

Lemma indices_length (n : N) : List.length (JS.indices n) = N.to_nat n.
Proof. unfold JS.indices. by rewrite length_map, length_seq. Qed.

(** A handshake with a file hash comes back to a node that is not a seed
    only if the size it carries is not [null] and the truncation went
    through, on a file that is open for writing. *)
Lemma adoption_returns (s s' : t) (socket : SocketRef) (message : Wire.handshake)
    (now : N) (out : list action) (h : string) :
  isSeed s = false ->
  Wire.id message <> id s ->
  JS.or_null_string (Wire.fileHash message) = Some h ->
  _handleHandshake s socket message now = Returns s' out ->
  exists file,
    Manager.fileHandle (fileManager s) = Some file
    /\ Manager.mode (fileManager s) = Manager.w_plus.
Proof.
  intros Hseed Hid Hh. unfold _handleHandshake.
  rewrite bool_decide_eq_false_2 by done.
  set (s1 := assign_peerId socket _ _).
  assert (Hs1 : fileManager s1 = fileManager s /\ isSeed s1 = isSeed s).
  { subst s1. by destruct (JSMap.has _ _). }
  destruct Hs1 as (Hfm1 & Hseed1). clearbody s1. rewrite Hseed1, Hseed, Hh.
  destruct (JS.loop_indices _) as [idxs|]; [|done].
  unfold Manager.setSize. cbn -[JS.ceil_div]. rewrite Hfm1.
  destruct (Manager.fileHandle (fileManager s)) as [file|]; [|done].
  destruct (JS.or_null_number (Wire.fileSize message)); [|done].
  destruct (Manager.mode (fileManager s)); [done|]. intros _. by exists file.
Qed.

(** X25.  When a leecher with nothing missing yet adopts the metadata of
    a handshake, the byte count of the progress line starts at zero only if
    the piece size divides the file size; otherwise it starts below zero, at
    the file size less [numPieces] whole pieces.  This is for a handler that
    comes back, for sizes that a number of JavaScript holds exactly
    ([fileSize + pieceSize] at most [2 ^ 53]) and for fewer than [2 ^ 24]
    pieces, which a [Set] has room for. *)
Theorem progress_starts_below_zero (s s' : t) (socket : SocketRef)
    (message : Wire.handshake) (now : N) (out : list action) (h : string) (n ps : N) :
  isSeed s = false ->
  Wire.id message <> id s ->
  JS.or_null_string (Wire.fileHash message) = Some h ->
  JS.or_null_number (Wire.fileSize message) = Some n ->
  JS.or_null_number (Wire.pieceSize message) = Some ps ->
  n + ps <= 2 ^ 53 ->
  n <= (2 ^ 24 - 1) * ps ->
  missingPieces s = ∅ ->
  _handleHandshake s socket message now = Returns s' out ->
  Report.bytesDone s' = Some (- Z.of_N ((ps - n mod ps) mod ps))%Z.
Proof.
  intros Hseed Hid Hh Hn Hps _ _ Hmiss Hret.
  destruct (adoption_returns s s' socket message now out h Hseed Hid Hh Hret)
    as (file & Hfile & Hmode).
  assert (Hn0 : n <> 0).
  { destruct (Wire.fileSize message) as [k|]; [|done]. cbn in Hn.
    destruct (N.eqb_spec k 0); [done|]. congruence. }
  assert (Hps0 : ps <> 0).
  { destruct (Wire.pieceSize message) as [k|]; [|done]. cbn in Hps.
    destruct (N.eqb_spec k 0); [done|]. congruence. }
  set (k := if n mod ps =? 0 then n / ps else n / ps + 1).
  destruct (handshake_adopts s socket message now h n file (JS.indices k))
    as (s0 & out0 & Heq & _ & Hsize & _ & Hpiece & _ & _ & Hm & _); try done.
  { rewrite Hps. cbn [JS.to_number]. unfold JS.ceil_div.
    by rewrite (proj2 (N.eqb_neq ps 0) Hps0). }
  rewrite Hret in Heq. injection Heq as <- <-.
  unfold Report.bytesDone.
  rewrite Hsize, Hpiece, Hps, Hm, Hmiss. cbn [JS.to_number].
  rewrite (proj2 (N.eqb_neq n 0) Hn0), union_empty_r_L.
  rewrite size_list_to_set by apply indices_NoDup. rewrite indices_length.
  f_equal. pose proof (N.div_mod n ps Hps0) as Hdm.
  pose proof (N.mod_lt n ps Hps0) as Hlt. subst k.
  set (q := n / ps) in *. set (r := n mod ps) in *. clearbody q r.
  destruct (N.eqb_spec r 0) as [Hr|Hr].
  - rewrite Hr, N.sub_0_r, N.Div0.mod_same. nia.
  - rewrite N.mod_small by lia. nia.
Qed.

End Progress.

Lemma progress_starts_below_zero_witness :
  Report.bytesDone Sample.adopted = Some (- 65535)%Z.
Proof.
  destruct adopted_spec as (out & Hs & _).
  apply (progress_starts_below_zero
           (Node.accepted Sample.leecher Sample.socket1 "10.0.0.1") Sample.adopted
           Sample.socket1 (Sample.seed_handshake "ffffffffffffffff") 0 out
           "da39a3ee" 65537 65536).
  - reflexivity.
  - simpl. discriminate.
  - reflexivity.
  - reflexivity.
  - reflexivity.
  - vm_compute. discriminate.
  - vm_compute. discriminate.
  - reflexivity.
  - exact Hs.
Defined.

(** ** A whole download *)

Section Download.

Import Node.

Variable base64_decode : string -> list byte.
Variable base64_encode : list byte -> string.
Variable sha1_hex : list byte -> string.

Local Abbreviation byte_at f p := (default x00 (f !! p)).

Lemma fh_write_length (file data : list byte) (position : N) :
  List.length (Manager.fh_write file data position)
  = Nat.max (List.length file) (N.to_nat position + List.length data).
Proof.
  unfold Manager.fh_write.
  repeat (rewrite length_app || rewrite length_take || rewrite length_replicate
          || rewrite length_drop).
  lia.
Qed.

Lemma byte_at_ext (f g : list byte) :
  List.length f = List.length g ->
  (forall p, byte_at f p = byte_at g p) -> f = g.
Proof.
  intros Hlen Hb. apply list_eq. intros p. specialize (Hb p).
  destruct (decide (p < List.length f)%nat) as [Hp|Hp].
  - destruct (lookup_lt_is_Some_2 f p Hp) as [x Hx].
    destruct (lookup_lt_is_Some_2 g p ltac:(lia)) as [y Hy].
    rewrite Hx, Hy in *. cbn in Hb. by subst.
  - rewrite !lookup_ge_None_2 by lia. done.
Qed.

(** The bytes of the file of a leecher outside the pieces it still
    misses are those of [disk]. *)
Local Abbreviation settled disk pieceSize order file :=
  (List.length file = List.length disk
   /\ forall index p,
        index ∉ order ->
        (N.to_nat (index * pieceSize) <= p < N.to_nat (index * pieceSize + pieceSize))%nat ->
        byte_at file p = byte_at disk p).

Lemma piece_settles (disk file : list byte) (m : Manager.t) (index : N)
    (rest : list N) :
  Manager.fileHandle m = Some file ->
  Manager.mode m = Manager.w_plus ->
  settled disk (Manager.pieceSize m) (index :: rest) file ->
  let data := take (N.to_nat (Manager.pieceSize m))
                   (drop (N.to_nat (index * Manager.pieceSize m)) disk) in
  exists file',
    Manager.writePiece m index data
    = (Manager.mk (Manager.pieceSize m) (Some file') (Manager.fileSize m)
                  Manager.w_plus, Manager.Resolved tt)
    /\ settled disk (Manager.pieceSize m) rest file'.
Proof.
  intros Hh Hm [Hlen Hbytes] data.
  set (ps := Manager.pieceSize m) in *. set (off := N.to_nat (index * ps)) in *.
  assert (Hdata : List.length data
                  = Nat.min (N.to_nat ps) (List.length disk - off)).
  { subst data. by rewrite length_take, length_drop. }
  assert (Hat : forall k, (k < List.length data)%nat ->
                          byte_at data k = byte_at disk (off + k)%nat).
  { intros k Hk. subst data. rewrite lookup_take_lt by lia. by rewrite lookup_drop. }
  assert (Hbeyond : forall p, (List.length disk <= p)%nat ->
                              byte_at file p = byte_at disk p).
  { intros p Hp. by rewrite !lookup_ge_None_2 by lia. }
  assert (Hstep : forall file',
            List.length file' = List.length file ->
            (forall p, byte_at file' p
                       = if decide (off <= p < off + List.length data)%nat
                         then byte_at data (p - off)%nat else byte_at file p) ->
            settled disk ps rest file').
  { intros file' Hlen' Hw. split; [congruence|]. intros i p Hi Hp. rewrite Hw.
    destruct (decide (off <= p < off + List.length data)%nat) as [Hin|Hout].
    - rewrite Hat by lia. f_equal. f_equal. lia.
    - destruct (decide (i = index)) as [->|Hne].
      + apply Hbeyond. fold off in Hp.
        replace (N.to_nat (index * ps + ps)) with (off + N.to_nat ps)%nat in Hp
          by (subst off; lia).
        lia.
      + apply (Hbytes i p); [|done]. apply not_elem_of_cons. done. }
  unfold Manager.writePiece. rewrite Hh, Hm. fold ps. case_bool_decide as Hd.
  - exists file. split; [destruct m; cbn in *; by subst|].
    apply Hstep; [done|]. intros p. rewrite Hd. cbn.
    by rewrite decide_False by lia.
  - eexists. split; [reflexivity|]. apply Hstep.
    + rewrite fh_write_length. fold off.
      assert (List.length data <> 0)%nat by (by destruct data). lia.
    + intros p. apply fh_write_byte_at.
Qed.

Lemma settled_all (disk file : list byte) (pieceSize : N) :
  0 < pieceSize -> settled disk pieceSize [] file -> file = disk.
Proof.
  intros Hps [Hlen Hbytes]. apply byte_at_ext; [done|]. intros p.
  apply (Hbytes (N.of_nat p / pieceSize)); [apply not_elem_of_nil|].
  pose proof (N.div_mod (N.of_nat p) pieceSize ltac:(lia)) as Hdm.
  pose proof (N.mod_lt (N.of_nat p) pieceSize ltac:(lia)) as Hlt.
  set (q := N.of_nat p / pieceSize) in *. set (r := N.of_nat p mod pieceSize) in *.
  clearbody q r. nia.
Qed.

Lemma run_cons (s s1 : t) (e : event) (events : list event) :
  handle base64_decode base64_encode sha1_hex s e = Some s1 ->
  run base64_decode base64_encode sha1_hex s (e :: events)
  = run base64_decode base64_encode sha1_hex s1 events.
Proof. intros He. unfold run. cbn. by rewrite He. Qed.

Lemma download_steps (disk : list byte) (payload : N -> string)
    (from : N -> SocketRef) (now : N -> N) (order : list N) :
  forall (s : t) (file : list byte),
    Manager.fileHandle (fileManager s) = Some file ->
    Manager.mode (fileManager s) = Manager.w_plus ->
    NoDup order ->
    missingPieces s = list_to_set order ->
    (forall index,
        index ∈ order ->
        base64_decode (payload index)
        = take (N.to_nat (Manager.pieceSize (fileManager s)))
               (drop (N.to_nat (index * Manager.pieceSize (fileManager s))) disk)) ->
    settled disk (Manager.pieceSize (fileManager s)) order file ->
    exists s' file',
      run base64_decode base64_encode sha1_hex s
          ((fun index => Received (from index) (Wire.Piece index (payload index))
                                  (now index)) <$> order)
      = Some s'
      /\ Manager.fileHandle (fileManager s') = Some file'
      /\ settled disk (Manager.pieceSize (fileManager s)) [] file'
      /\ missingPieces s' = ∅
      /\ (order <> [] -> isSeed s' = true).
Proof.
  induction order as [|index rest IH]; intros s file Hh Hm Hnd Hmiss Hdata Hset.
  { exists s, file. split; [done|]. split; [done|]. split; [done|].
    split; [by rewrite Hmiss|done]. }
  apply NoDup_cons in Hnd as [Hnew Hnd].
  destruct (piece_settles disk file (fileManager s) index rest Hh Hm Hset)
    as (file1 & Hw & Hset1).
  rewrite <- (Hdata index) in Hw by left.
  pose proof (handlePiece_resolved base64_decode s (from index) index (payload index)
                _ Hw) as Hpiece.
  cbn zeta in Hpiece.
  destruct (record_piece_pieces
              (set_fileManager
                 (Manager.mk (Manager.pieceSize (fileManager s)) (Some file1)
                             (Manager.fileSize (fileManager s)) Manager.w_plus) s)
              (from index) index (base64_decode (payload index)))
    as (_ & Hm1 & _ & _ & Hfm1 & _).
  set (s1 := record_piece _ _ _ _) in *. clearbody s1. cbn in Hm1, Hfm1.
  destruct (after_piece_pieces s1) as (_ & Hm2 & _ & _ & Hfm2).
  pose proof (after_piece_effect s1) as (_ & _ & _ & Hseed).
  set (s2 := fst (after_piece s1)) in *.
  assert (Hmiss2 : missingPieces s2 = list_to_set rest).
  { rewrite Hm2, Hm1, Hmiss. clear -Hnew. set_solver. }
  assert (Hfm : fileManager s2
                = Manager.mk (Manager.pieceSize (fileManager s)) (Some file1)
                             (Manager.fileSize (fileManager s)) Manager.w_plus).
  { by rewrite Hfm2, Hfm1. }
  clearbody s2.
  assert (Hh2 : Manager.fileHandle (fileManager s2) = Some file1) by by rewrite Hfm.
  assert (Hmode2 : Manager.mode (fileManager s2) = Manager.w_plus) by by rewrite Hfm.
  assert (Hps2 : Manager.pieceSize (fileManager s2)
                 = Manager.pieceSize (fileManager s)) by by rewrite Hfm.
  assert (Hdata2 : forall i,
             i ∈ rest ->
             base64_decode (payload i)
             = take (N.to_nat (Manager.pieceSize (fileManager s2)))
                    (drop (N.to_nat (i * Manager.pieceSize (fileManager s2))) disk)).
  { intros i Hi. rewrite Hps2. apply Hdata. by right. }
  assert (Hset2 : settled disk (Manager.pieceSize (fileManager s2)) rest file1)
    by by rewrite Hps2.
  destruct (IH s2 file1 Hh2 Hmode2 Hnd Hmiss2 Hdata2 Hset2)
    as (s' & file' & Hrun & Hh' & Hset' & Hmiss' & Hseed').
  rewrite Hps2 in Hset'.
  exists s', file'. split; [|split; [done|split; [done|split; [done|]]]].
  - cbn [fmap list_fmap].
    rewrite (run_cons s s2); [done|]. cbn. unfold returns. by rewrite Hpiece.
  - intros _. destruct rest as [|j rest]; [|by apply Hseed'].
    cbn in Hrun. injection Hrun as <-.
    destruct Hseed as [[_ ?]|[Hne _]]; [done|]. destruct Hne.
    rewrite Hm1, Hmiss. clear. set_solver.
Qed.

(** X26.  Pieces that arrive in any order, from any connections, put the
    file together.  When a node whose file is open for writing misses the
    pieces [order] and receives, for each of them, a [piece] message with
    the bytes of [disk] at that index (by the piece size of its file
    manager), it ends up with nothing missing and as a seed, and its file
    is [disk], provided the bytes outside the missing pieces were those of
    [disk] already. *)
Theorem pieces_complete_the_file (s : t) (file disk : list byte) (order : list N)
    (payload : N -> string) (from : N -> SocketRef) (now : N -> N) :
  let pieceSize := Manager.pieceSize (fileManager s) in
  Manager.fileHandle (fileManager s) = Some file ->
  Manager.mode (fileManager s) = Manager.w_plus ->
  0 < pieceSize ->
  List.length file = List.length disk ->
  NoDup order -> order <> [] ->
  missingPieces s = list_to_set order ->
  (forall index,
      index ∈ order ->
      base64_decode (payload index)
      = take (N.to_nat pieceSize) (drop (N.to_nat (index * pieceSize)) disk)) ->
  (forall index p,
      index ∉ order ->
      (N.to_nat (index * pieceSize) <= p < N.to_nat (index * pieceSize + pieceSize))%nat ->
      file !! p = disk !! p) ->
  exists s',
    run base64_decode base64_encode sha1_hex s
        ((fun index => Received (from index) (Wire.Piece index (payload index))
                                (now index)) <$> order)
    = Some s'
    /\ Manager.fileHandle (fileManager s') = Some disk
    /\ missingPieces s' = ∅
    /\ isSeed s' = true.
Proof.
  intros ps Hh Hm Hps Hlen Hnd Hne Hmiss Hdata Hrest.
  destruct (download_steps disk payload from now order s file Hh Hm Hnd Hmiss Hdata)
    as (s' & file' & Hrun & Hh' & Hset & Hmiss' & Hseed).
  { split; [done|]. intros i p Hi Hp. by rewrite (Hrest i p Hi Hp). }
  exists s'. split; [done|]. split; [|split; [done|by apply Hseed]].
  rewrite Hh'. f_equal. by apply (settled_all disk file' ps).
Qed.

Lemma fh_truncate_length (file : list byte) (size : N) :
  List.length (Manager.fh_truncate file size) = N.to_nat size.
Proof.
  unfold Manager.fh_truncate. rewrite length_app, length_take, length_replicate. lia.
Qed.

(** X27.  A leecher gets the file of a seed.  A node that is not a seed,
    whose file is open for writing and that misses nothing yet, receives the
    handshake of a seed of a file that is not empty and then, in any order,
    the answers of the seed to a request for each of its pieces.  If base64
    decoding undoes encoding and the digest of the file is not the empty
    string, the node ends up as a seed whose file is the file of the seed,
    byte for byte. *)
Theorem leecher_gets_the_file (port : N) (basename randomId : string)
    (disk file : list byte) (seed l : t) (order : list N) (payload : N -> string)
    (socket : SocketRef) (now : N) (to from : N -> SocketRef) (nows : N -> N) :
  (forall b, base64_decode (base64_encode b) = b) ->
  startup_seed sha1_hex port basename randomId disk = Some seed ->
  disk <> [] ->
  sha1_hex disk <> "" ->
  isSeed l = false ->
  id l <> id seed ->
  Manager.fileHandle (fileManager l) = Some file ->
  Manager.mode (fileManager l) = Manager.w_plus ->
  Manager.pieceSize (fileManager l) = default_pieceSize ->
  missingPieces l = ∅ ->
  NoDup order ->
  (forall index, index ∈ order <-> index ∈ havePieces seed) ->
  (forall index,
      index ∈ order ->
      _handleRequest base64_encode seed (to index) index
      = (seed, [Write (to index) (Wire.Piece index (payload index))])) ->
  exists l',
    run base64_decode base64_encode sha1_hex l
        (Received socket (handshakeMsg seed) now
         :: ((fun index => Received (from index) (Wire.Piece index (payload index))
                                    (nows index)) <$> order))
    = Some l'
    /\ Manager.fileHandle (fileManager l') = Some disk
    /\ missingPieces l' = ∅
    /\ isSeed l' = true.
Proof.
  intros Hb64 Hstart Hdisk Hsha Hleech Hid Hh Hmode Hmps Hmiss Hnd Horder Hreq.
  set (size := N.of_nat (List.length disk)).
  set (ps := N.min size default_pieceSize).
  assert (Hsize : 0 < size) by (subst size; destruct disk; [done|cbn; lia]).
  destruct (startup_seed_state sha1_hex port basename randomId disk Hsize)
    as (s0 & n & Hs & Hn & Hfm & Hhave & _ & _ & _ & Hfsz & Hpsz & Hnum
        & Hhash & Hsid & _).
  rewrite Hstart in Hs. injection Hs as <-. fold size in Hn, Hfm, Hfsz, Hpsz.
  fold ps in Hn, Hfm, Hpsz.
  assert (Hps : 0 < ps <= default_pieceSize) by (subst ps; unfold default_pieceSize; lia).
  assert (Hin : forall index, index ∈ order <-> index < n).
  { intros index. rewrite Horder, Hhave, foldl_set_add_iff, indices_elem.
    split; [|by right]. intros [H|H]; [by apply elem_of_nil in H|done]. }
  (* the handshake *)
  set (message := Wire.mkHandshake (id seed) (fileName seed) (fileSize seed)
                                   (fileHash seed) (pieceSize seed) (Node.port seed)).
  assert (Hm1 : Wire.id message <> id l) by (cbn; congruence).
  assert (Hm2 : JS.or_null_string (Wire.fileHash message) = Some (sha1_hex disk)).
  { cbn [Wire.fileHash message]. rewrite Hhash. unfold JS.or_null_string, JS.truthy.
    by rewrite (proj2 (String.eqb_neq _ _) Hsha). }
  assert (Hm3 : JS.or_null_number (Wire.fileSize message) = Some size).
  { cbn [Wire.fileSize message]. rewrite Hfsz. cbn [JS.or_null_number].
    by rewrite (proj2 (N.eqb_neq size 0)) by lia. }
  assert (Hm4 : JS.loop_indices
                  (JS.ceil_div size
                     (JS.to_number (JS.or_null_number (Wire.pieceSize message))))
                = Some (JS.indices n)).
  { cbn [Wire.pieceSize message]. rewrite Hpsz. cbn [JS.or_null_number].
    rewrite (proj2 (N.eqb_neq ps 0)) by lia. cbn [JS.to_number]. by rewrite Hn. }
  destruct (handshake_adopts l socket message now (sha1_hex disk) size file
              (JS.indices n) Hleech Hm1 Hm2 Hm3 Hm4 Hh Hmode)
    as (l1 & out & Hshake & _ & _ & _ & _ & _ & _ & Hmiss1 & _ & _ & _ & _ & Hfm1).
  rewrite Hmps in Hfm1.
  (* the pieces *)
  assert (Hscale : forall index, index < n ->
            take (N.to_nat default_pieceSize)
                 (drop (N.to_nat (index * default_pieceSize)) disk)
            = take (N.to_nat ps) (drop (N.to_nat (index * ps)) disk)).
  { intros index Hi. destruct (N.le_gt_cases default_pieceSize size) as [Hbig|Hsmall].
    - by replace ps with default_pieceSize by (subst ps; lia).
    - assert (Hps' : ps = size) by (subst ps; lia).
      assert (Hn1 : n = 1).
      { rewrite Hps', (ceil_div_diag size Hsize) in Hn. by injection Hn. }
      assert (index = 0) as -> by lia. rewrite !N.mul_0_l. cbn [N.to_nat drop].
      clear Hn Hfm Hpsz Hm4. clearbody ps. unfold default_pieceSize in *.
      rewrite !take_ge; [done|..]; rewrite length_drop; subst size; lia. }
  destruct (download_steps disk payload from nows order l1
              (Manager.fh_truncate file size))
    as (l' & file' & Hrun & Hh' & Hset & Hmiss' & Hseed).
  - by rewrite Hfm1.
  - by rewrite Hfm1.
  - done.
  - rewrite Hmiss1, Hmiss. apply set_eq. intros index.
    rewrite elem_of_union, !elem_of_list_to_set, Hin, indices_elem.
    split; [intros [?|H]; [done|by apply elem_of_empty in H]|by left].
  - intros index Hi. rewrite Hfm1. cbn [Manager.pieceSize].
    rewrite Hscale by by apply Hin.
    pose proof (Hreq index Hi) as Hr.
    rewrite (seed_request base64_encode sha1_hex port basename randomId disk seed
               (to index) index Hstart Hdisk) in Hr.
    cbn zeta in Hr. fold size ps in Hr.
    rewrite bool_decide_eq_true_2 in Hr.
    2:{ apply (ceil_div_bound _ _ _ index Hn). by apply Hin. }
    injection Hr as <-. by rewrite Hb64.
  - rewrite Hfm1. cbn [Manager.pieceSize]. split.
    + rewrite fh_truncate_length. subst size. lia.
    + intros index p Hout [Hlo _].
      assert (Hge : n <= index).
      { destruct (N.lt_ge_cases index n) as [Hlt|]; [|done].
        destruct Hout. by apply Hin. }
      assert (Hend : size <= n * ps).
      { destruct (N.lt_ge_cases (n * ps) size) as [Hlt|]; [|done].
        apply (ceil_div_bound _ _ _ n Hn) in Hlt. lia. }
      rewrite !lookup_ge_None_2; [done|subst size; nia|].
      rewrite fh_truncate_length. nia.
  - exists l'. split; [|split; [|split; [done|]]].
    + rewrite (run_cons l l1); [done|].
      unfold handle, handshakeMsg, _handleMessage.
      change (Wire.mkHandshake _ _ _ _ _ _) with message. by rewrite Hshake.
    + rewrite Hh'. f_equal. rewrite Hfm1 in Hset. cbn [Manager.pieceSize] in Hset.
      by apply (settled_all disk file' default_pieceSize).
    + apply Hseed. intros ->.
      assert (0 ∈ ([] : list N)) as H%elem_of_nil; [|done].
      apply Hin. apply (ceil_div_bound _ _ _ 0 Hn). lia.
Qed.

End Download.

Lemma pieces_complete_the_file_witness :
  exists s',
    Node.run (fun data => if String.eqb data "Yw==" then [x63] else [x61; x62])
             (fun _ => "") (fun _ => "")
             (Node.set_fileManager
                (Manager.mk 2 (Some [x00; x00; x00]) (Some 3) Manager.w_plus)
                Sample.requesting)
             [Node.Received Sample.socket1 (Wire.Piece 1 "Yw==") 0;
              Node.Received Sample.socket1 (Wire.Piece 0 "YWI=") 0]
    = Some s'
    /\ Manager.fileHandle (Node.fileManager s') = Some [x61; x62; x63]
    /\ Node.missingPieces s' = ∅
    /\ Node.isSeed s' = true.
Proof.
  apply (pieces_complete_the_file
           (fun data => if String.eqb data "Yw==" then [x63] else [x61; x62])
           (fun _ => "") (fun _ => "")
           (Node.set_fileManager
              (Manager.mk 2 (Some [x00; x00; x00]) (Some 3) Manager.w_plus)
              Sample.requesting)
           [x00; x00; x00] [x61; x62; x63] [1; 0]
           (fun index => if index =? 1 then "Yw==" else "YWI=")
           (fun _ => Sample.socket1) (fun _ => 0)).
  - reflexivity.
  - reflexivity.
  - reflexivity.
  - reflexivity.
  - apply (bool_decide_unpack _). vm_compute. exact I.
  - discriminate.
  - apply (bool_decide_unpack _). vm_compute. exact I.
  - intros index Hin. apply elem_of_cons in Hin as [->|Hin]; [reflexivity|].
    apply elem_of_cons in Hin as [->|Hin]; [reflexivity|].
    by apply elem_of_nil in Hin.
  - intros index p Hout [Hlo Hhi].
    assert (Hge : 2 <= index).
    { destruct (N.lt_ge_cases index 2) as [Hlt|]; [|done]. destruct Hout.
      assert (Hc : index = 0 \/ index = 1) by lia.
      destruct Hc as [-> | ->]; [right; left|left]. }
    cbn [Manager.pieceSize Node.fileManager Node.set_fileManager] in Hlo.
    rewrite !lookup_ge_None_2; [done|cbn; lia|cbn; lia].
Defined.

Lemma leecher_gets_the_file_witness :
  exists l',
    Node.run list_byte_of_string string_of_list_byte (fun _ => "da39a3ee")
      Sample.leecher
      [Node.Received Sample.socket1 (Node.handshakeMsg Sample.seed) 0;
       Node.Received Sample.socket1 (Wire.Piece 0 "abc") 0]
    = Some l'
    /\ Manager.fileHandle (Node.fileManager l') = Some [x61; x62; x63]
    /\ Node.missingPieces l' = ∅
    /\ Node.isSeed l' = true.
Proof.
  apply (leecher_gets_the_file list_byte_of_string string_of_list_byte
           (fun _ => "da39a3ee") 6881 "in.bin" "ffffffffffffffff"
           [x61; x62; x63] [] Sample.seed Sample.leecher [0] (fun _ => "abc")
           Sample.socket1 0 (fun _ => Sample.socket2) (fun _ => Sample.socket1)
           (fun _ => 0)).
  - apply list_byte_of_string_of_list_byte.
  - vm_compute. reflexivity.
  - discriminate.
  - discriminate.
  - reflexivity.
  - vm_compute. discriminate.
  - reflexivity.
  - reflexivity.
  - reflexivity.
  - reflexivity.
  - apply (bool_decide_unpack _). vm_compute. exact I.
  - intros index. reflexivity.
  - intros index Hin. apply elem_of_cons in Hin as [->|Hin].
    + vm_compute. reflexivity.
    + by apply elem_of_nil in Hin.
Defined.

(** ** The answer to a handshake *)

Section HandshakeAnswer.

Import Node.

Lemma peer_exchange_peers (s : t) (socket : SocketRef) (remoteId : string)
    (remotePort : N) :
  Forall (fun a => exists k peers, a = Write k (Wire.Peers peers))
         (peer_exchange s socket remoteId remotePort).
Proof.
  unfold peer_exchange. apply Forall_app. split.
  - case_bool_decide; [done|]. apply Forall_singleton. by eexists _, _.
  - apply Forall_forall. intros a ([pid pinfo] & _ & Ha)%list_elem_of_omap.
    destruct (Peer.socket pinfo) as [k|]; [|done]. injection Ha as <-.
    by eexists _, _.
Qed.

(** X28.  A seed answers the first handshake of a connection it accepted,
    unless the handshake is for another file, with its own handshake first
    and, when it has pieces, its bitfield second; whatever follows are lists
    of peers.  The metadata reaches the other side before the bitfield. *)
Theorem seed_answers_handshake (s : t) (socket : SocketRef)
    (message : Wire.handshake) (now : N) :
  isSeed s = true ->
  Socket.isOutgoing (sockets s socket) = false ->
  Wire.id message <> id s ->
  JSMap.has (Wire.id message) (knownPeers s) = false ->
  Wire.fileHash message = None \/ Wire.fileHash message = fileHash s ->
  exists s' rest,
    _handleHandshake s socket message now
    = Returns s' (Write socket (handshakeMsg s)
                  :: (if bool_decide (havePieces s = []) then []
                      else [Write socket (Wire.Bitfield (havePieces s))])
                  ++ rest)
    /\ Forall (fun a => exists k peers, a = Write k (Wire.Peers peers)) rest.
Proof.
  intros Hseed Hin Hid Hnew Hhash.
  unfold _handleHandshake. rewrite bool_decide_eq_false_2 by done. rewrite Hnew.
  set (s1 := assign_peerId socket _ _).
  assert (Hs1 : isSeed s1 = true /\ fileHash s1 = fileHash s
                /\ havePieces s1 = havePieces s
                /\ handshakeMsg s1 = handshakeMsg s
                /\ Socket.isOutgoing (sockets s1 socket) = false
                /\ peer_flag Peer.handshakeSent false (Wire.id message) s1 = false).
  { subst s1. unfold peer_flag. cbn -[JSMap.set JSMap.get].
    rewrite get_set_same, bool_decide_eq_true_2 by done. by cbn. }
  destruct Hs1 as (Hseed1 & Hhash1 & Hhave1 & Hmsg1 & Hin1 & Hsent1).
  clearbody s1. rewrite Hseed1, Hhash1.
  assert (Hsame : JS.truthy_opt (JS.or_null_string (Wire.fileHash message))
                  && JS.truthy_opt (fileHash s)
                  && negb (bool_decide (JS.or_null_string (Wire.fileHash message)
                                        = fileHash s)) = false).
  { destruct Hhash as [->| ->]; [done|].
    destruct (fileHash s) as [h|]; [|done]. cbn.
    destruct (JS.truthy h) eqn:Hh; cbn; [|done]. rewrite Hh. cbn.
    by rewrite bool_decide_eq_true_2. }
  rewrite Hsame. unfold handshake_reply, _sendHandshake.
  rewrite Hin1, Hsent1. cbn [negb andb].
  destruct (known_peer_of s1 socket) as [pid|].
  - eexists _, _. split.
    + cbn [app]. rewrite Hmsg1. unfold _sendBitfield, update_peer.
      cbn [havePieces set_knownPeers]. rewrite ?Hhave1. reflexivity.
    + apply peer_exchange_peers.
  - eexists _, _. split.
    + cbn [app]. rewrite Hmsg1. unfold _sendBitfield, update_peer.
      cbn [havePieces set_knownPeers]. rewrite ?Hhave1. reflexivity.
    + apply peer_exchange_peers.
Qed.

(** X29.  On a connection the node opened itself, the handshake of the
    peer is never answered with a handshake or a list of peers: the node
    writes nothing, or ends the connection, or writes its bitfield. *)
Theorem dialled_handshake_not_echoed (s s' : t) (socket : SocketRef)
    (message : Wire.handshake) (now : N) (out : list action) :
  Socket.isOutgoing (sockets s socket) = true ->
  _handleHandshake s socket message now = Returns s' out
  \/ _handleHandshake s socket message now = Throws s' out ->
  out = [] \/ out = [End socket]
  \/ out = [Write socket (Wire.Bitfield (havePieces s'))].
Proof.
  intros Hout. unfold _handleHandshake.
  destruct (bool_decide (Wire.id message = id s)).
  { intros [[= _ <-]|[=]]. by left. }
  set (s1 := assign_peerId socket _ _).
  assert (Hout1 : Socket.isOutgoing (sockets s1 socket) = true).
  { subst s1. destruct (JSMap.has _ _); cbn; by rewrite bool_decide_eq_true_2. }
  clearbody s1.
  assert (Hreply : forall s2 s3 o3,
            Socket.isOutgoing (sockets s2 socket) = true ->
            handshake_reply s2 socket (Wire.id message) (Wire.port message) = (s3, o3) ->
            o3 = [] \/ o3 = [End socket]
            \/ o3 = [Write socket (Wire.Bitfield (havePieces s3))]).
  { intros s2 s3 o3 Ho. unfold handshake_reply. rewrite Ho. cbn [negb andb app].
    rewrite app_nil_r. intros [= <- <-]. cbn [havePieces update_peer set_knownPeers].
    case_bool_decide; [by left|]. right. right. done. }
  destruct (isSeed s1).
  - destruct (_ && _ && _).
    + intros [[= _ <-]|[=]]. right. by left.
    + destruct (handshake_reply s1 _ _ _) as [s3 o3] eqn:Hr.
      intros [[= <- <-]|[=]]. by apply (Hreply s1).
  - destruct (JS.or_null_string (Wire.fileHash message)) as [h|].
    + destruct (JS.loop_indices _) as [idxs|]; [|intros [[=]|[=]]].
      cbn. destruct (Manager.setSize _ _) as [fm [[]|]].
      * set (s2 := set_progress _ _ _ _ _).
        destruct (handshake_reply s2 _ _ _) as [s3 o3] eqn:Hr.
        intros [[= <- <-]|[=]]. apply (Hreply s2); [|done]. subst s2. by cbn.
      * intros [[=]|[= _ <-]]. by left.
    + intros [[= _ <-]|[=]]. right. by left.
Qed.

End HandshakeAnswer.

Lemma seed_answers_handshake_witness :
  exists s' rest,
    Node._handleHandshake (Node.accepted Sample.seed Sample.socket1 "10.0.0.1")
      Sample.socket1
      (Wire.mkHandshake "00000000000000aa" (Some "out.bin") None None (Some 65536) 6882)
      0
    = Node.Returns s'
        (Node.Write Sample.socket1
           (Node.handshakeMsg (Node.accepted Sample.seed Sample.socket1 "10.0.0.1"))
         :: (if bool_decide
                  (Node.havePieces (Node.accepted Sample.seed Sample.socket1 "10.0.0.1")
                   = [])
             then []
             else [Node.Write Sample.socket1
                     (Wire.Bitfield
                        (Node.havePieces
                           (Node.accepted Sample.seed Sample.socket1 "10.0.0.1")))])
         ++ rest)
    /\ Forall (fun a => exists k peers, a = Node.Write k (Wire.Peers peers)) rest.
Proof.
  apply (seed_answers_handshake
           (Node.accepted Sample.seed Sample.socket1 "10.0.0.1") Sample.socket1
           (Wire.mkHandshake "00000000000000aa" (Some "out.bin") None None
                             (Some 65536) 6882) 0).
  - reflexivity.
  - reflexivity.
  - vm_compute. discriminate.
  - reflexivity.
  - left. reflexivity.
Defined.

Lemma dialled_handshake_not_echoed_witness :
  [Node.Write Sample.socket1 (Wire.Bitfield [0])] = []
  \/ [Node.Write Sample.socket1 (Wire.Bitfield [0])] = [Node.End Sample.socket1]
  \/ [Node.Write Sample.socket1 (Wire.Bitfield [0])]
     = [Node.Write Sample.socket1
          (Wire.Bitfield
             (Node.havePieces
                (match Node._handleHandshake
                         (fst (Node.connected Sample.seed Sample.socket1 "10.0.0.1"))
                         Sample.socket1
                         (Wire.mkHandshake "00000000000000aa" (Some "out.bin") None
                                           None (Some 65536) 6882)
                         0 with
                 | Node.Returns s' _ => s'
                 | _ => Sample.seed
                 end)))].
Proof.
  apply (dialled_handshake_not_echoed
           (fst (Node.connected Sample.seed Sample.socket1 "10.0.0.1"))
           _ Sample.socket1
           (Wire.mkHandshake "00000000000000aa" (Some "out.bin") None None
                             (Some 65536) 6882) 0).
  - reflexivity.
  - left. vm_compute. reflexivity.
Defined.

(** ** What a peer has announced *)

Section Announcements.

Import Node.

Lemma set_add_NoDup (x : N) (l : list N) : NoDup l -> NoDup (JS.set_add x l).
Proof.
  intros Hl. unfold JS.set_add, JS.set_has. case_bool_decide as Hx; [done|].
  apply NoDup_app. split; [done|]. split; [|apply NoDup_singleton].
  intros y Hy ->%list_elem_of_singleton. done.
Qed.

Lemma set_of_array_NoDup (a : list N) : NoDup (JS.set_of_array a).
Proof.
  unfold JS.set_of_array. generalize (NoDup_nil_2 (A := N)).
  generalize (@nil N). induction a as [|x a IH]; intros l Hl; cbn; [done|].
  by apply IH, set_add_NoDup.
Qed.

(** The scheduler leaves the socket and the announced pieces of every
    record as they are. *)
Lemma scheduleRequests_records (s : t) (pid : string) (p : Peer.t) :
  JSMap.get pid (knownPeers s) = Some p ->
  exists p',
    JSMap.get pid (knownPeers (fst (_scheduleRequests s))) = Some p'
    /\ Peer.socket p' = Peer.socket p
    /\ Peer.availablePieces p' = Peer.availablePieces p.
Proof.
  intros Hget.
  assert (Hhas : JSMap.has pid (knownPeers (fst (_scheduleRequests s))) = true).
  { rewrite (has_same_keys _ _ _ (scheduleRequests_keys s)).
    unfold JSMap.has. by rewrite Hget. }
  unfold JSMap.has in Hhas.
  destruct (JSMap.get pid (knownPeers (fst (_scheduleRequests s)))) as [p'|] eqn:Hp';
    [|done].
  exists p'. split; [done|]. revert Hp'. unfold _scheduleRequests.
  destruct (_ || _).
  - cbn. rewrite Hget. by intros [= ->].
  - intros Hp'.
    destruct (schedule_loop_spec (JSMap.keys (knownPeers s)) s [])
      as (_ & _ & _ & _ & _ & _ & _ & Hrec).
    destruct (Hrec pid p' Hp') as (p0 & Hp0 & Hsock & Havail & _).
    rewrite Hget in Hp0. injection Hp0 as <-. done.
Qed.

(** X30.  Once a peer has shaken hands, its [bitfield] replaces what the
    node takes it to have, and each [have] adds one index: after a
    [bitfield] the record of the sender lists exactly the indices of the
    message, each once; after a [have] it lists the index and what it listed
    before.  The socket of the record stays. *)
Theorem announcements_recorded (s : t) (socket : SocketRef) (pid : string)
    (p : Peer.t) :
  known_peer_of s socket = Some pid ->
  JSMap.get pid (knownPeers s) = Some p ->
  (forall pieces,
      exists p',
        JSMap.get pid (knownPeers (fst (_handleBitfield s socket pieces))) = Some p'
        /\ (forall i, i ∈ Peer.availablePieces p' <-> i ∈ pieces)
        /\ NoDup (Peer.availablePieces p')
        /\ Peer.socket p' = Peer.socket p)
  /\ (forall index,
         exists p',
           JSMap.get pid (knownPeers (fst (_handleHave s socket index))) = Some p'
           /\ (forall i, i ∈ Peer.availablePieces p'
                         <-> i = index \/ i ∈ Peer.availablePieces p)
           /\ Peer.socket p' = Peer.socket p).
Proof.
  intros Hknown Hget. split.
  - intros pieces. unfold _handleBitfield. rewrite Hknown.
    set (s1 := update_peer pid _ s).
    destruct (scheduleRequests_records s1 pid
                (Peer.set_availablePieces (JS.set_of_array pieces) p))
      as (p' & Hp' & Hsock & Havail).
    { subst s1. cbn -[JSMap.alter]. by rewrite get_alter_same, Hget. }
    exists p'. split; [done|]. rewrite Havail, Hsock. cbn.
    split; [|split; [apply set_of_array_NoDup|done]].
    intros i. unfold JS.set_of_array. rewrite foldl_set_add_iff.
    split; [intros [H|H]; [by apply elem_of_nil in H|done]|by right].
  - intros index. unfold _handleHave. rewrite Hknown.
    set (s1 := update_peer pid _ s).
    assert (Hget1 : JSMap.get pid (knownPeers s1)
                    = Some (Peer.set_availablePieces
                              (JS.set_add index (Peer.availablePieces p)) p)).
    { subst s1. cbn -[JSMap.alter]. by rewrite get_alter_same, Hget. }
    assert (Hadd : forall i, i ∈ JS.set_add index (Peer.availablePieces p)
                             <-> i = index \/ i ∈ Peer.availablePieces p).
    { intros i. split.
      - intros [->|?]%set_add_inv; auto.
      - unfold JS.set_add, JS.set_has. intros [->|Hi].
        + apply set_add_elem.
        + case_bool_decide; [done|]. apply elem_of_app. by left. }
    destruct (_ && _ && _).
    + destruct (scheduleRequests_records s1 pid _ Hget1)
        as (p' & Hp' & Hsock & Havail).
      exists p'. split; [done|]. by rewrite Havail, Hsock.
    + eexists. split; [exact Hget1|]. done.
Qed.

End Announcements.

Lemma announcements_recorded_witness :
  exists p',
    JSMap.get "ffffffffffffffff"
      (Node.knownPeers (fst (Node._handleBitfield Sample.requesting Sample.socket1
                               [1; 1; 0])))
    = Some p'
    /\ forall i, i ∈ Peer.availablePieces p' <-> i ∈ [1; 1; 0].
Proof.
  destruct (announcements_recorded Sample.requesting Sample.socket1
              "ffffffffffffffff"
              (default (Peer.fresh "" "" 0 None)
                 (JSMap.get "ffffffffffffffff" (Node.knownPeers Sample.requesting))))
    as [Hbit _].
  - vm_compute. reflexivity.
  - vm_compute. reflexivity.
  - destruct (Hbit [1; 1; 0]) as (p' & Hget & Hin & _).
    exists p'. split; [exact Hget|exact Hin].
Defined.
